(** * Release-notes generator (src/main.ts): shallow embedding and properties

    The action is one linear orchestration: read the inputs, look up the
    latest release, list closed pull requests, filter and group them by
    label, ask a generative endpoint for two renderings per group, write and
    upload an artifact.  The embedding below keeps that shape: pure helpers
    are Rocq functions, the effectful code runs in a small state-and-exception
    monad over a trace of observable events, and everything the outside world
    decides (inputs, clock, hosting API, endpoint, file system, artifact
    store) is a field of the record [World]. *)

From Stdlib Require Import List String Ascii ZArith NArith Arith Bool Lia
  DecimalString.
From Stdlib Require OrderedTypeEx.
Import ListNotations.

#[local] Set Warnings "-register-all".

Open Scope string_scope.

(** ** Runtime primitives

    A JavaScript string is a sequence of UTF-16 code units; the development
    covers the strings whose code units are below 256, one [ascii] each. *)

Module JS.

Definition nl : string := String (ascii_of_nat 10) "".

(** A string is truthy iff it is not empty. *)
Definition truthy (s : string) : bool := negb (s =? "").

Definition string_of_bool (b : bool) : string := if b then "true" else "false".

(** [Number.prototype.toString] on the integers met here. *)
Definition string_of_nat (n : nat) : string := NilZero.string_of_uint (Nat.to_uint n).
Definition string_of_Z (z : Z) : string := NilZero.string_of_int (Z.to_int z).

(** [s.split(c)] for a one-character separator. *)
Fixpoint split (sep : ascii) (s : string) : list string :=
  match s with
  | EmptyString => [EmptyString]
  | String c rest =>
      if Ascii.eqb c sep then EmptyString :: split sep rest
      else match split sep rest with
           | hd :: tl => String c hd :: tl
           | [] => [String c EmptyString]
           end
  end.

(** White space and line terminators of [String.prototype.trim] below 256. *)
Definition is_ws (c : ascii) : bool :=
  let n := nat_of_ascii c in
  ((9 <=? n)%nat && (n <=? 13)%nat) || (n =? 32)%nat || (n =? 160)%nat.

Fixpoint trimStart (s : string) : string :=
  match s with
  | EmptyString => EmptyString
  | String c rest => if is_ws c then trimStart rest else s
  end.

Fixpoint trimEnd (s : string) : string :=
  match s with
  | EmptyString => EmptyString
  | String c rest =>
      let rest' := trimEnd rest in
      if is_ws c && (rest' =? "") then EmptyString else String c rest'
  end.

Definition trim (s : string) : string := trimEnd (trimStart s).

(** [arr.join(sep)] on an array of strings. *)
Definition join (sep : string) (l : list string) : string := String.concat sep l.

(** [s.replace(/[:-]/g, '')]. *)
Fixpoint remove_colons_dashes (s : string) : string :=
  match s with
  | EmptyString => EmptyString
  | String c rest =>
      if Ascii.eqb c ":" || Ascii.eqb c "-" then remove_colons_dashes rest
      else String c (remove_colons_dashes rest)
  end.

(** [s.replace(a, b)] with a string pattern of one character: the first
    occurrence only. *)
Fixpoint replace_first (a b : ascii) (s : string) : string :=
  match s with
  | EmptyString => EmptyString
  | String c rest =>
      if Ascii.eqb c a then String b rest else String c (replace_first a b rest)
  end.

(** [arr[0]] of a split, which is never empty. *)
Definition first (l : list string) : string := hd "" l.

(** *** Dates *)

(** Pads a non-negative number with zeros on the left to [width] digits. *)
Fixpoint zeros (n : nat) : string :=
  match n with O => "" | S k => String "0" (zeros k) end.

Definition pad (width : nat) (z : Z) : string :=
  let d := string_of_Z z in
  zeros (width - String.length d) ++ d.

(** The civil date (year, month, day) of a day number counted from
    1970-01-01, in the proleptic Gregorian calendar. *)
Definition civil_from_days (days : Z) : Z * Z * Z :=
  let z := (days + 719468)%Z in
  let era := (z / 146097)%Z in
  let doe := (z - era * 146097)%Z in
  let yoe := ((doe - doe / 1460 + doe / 36524 - doe / 146096) / 365)%Z in
  let doy := (doe - (365 * yoe + yoe / 4 - yoe / 100))%Z in
  let mp := ((5 * doy + 2) / 153)%Z in
  let d := (doy - (153 * mp + 2) / 5 + 1)%Z in
  let m := (if mp <? 10 then mp + 3 else mp - 9)%Z in
  let y := (yoe + era * 400 + (if m <=? 2 then 1 else 0))%Z in
  (y, m, d).

(** [Date.prototype.toISOString] of a time value in milliseconds since the
    epoch.  The clock readings of a run are valid time values, for which the
    built-in does not throw. *)
Definition toISOString (t : Z) : string :=
  let days := (t / 86400000)%Z in
  let ms := (t mod 86400000)%Z in
  let '(y, m, d) := civil_from_days days in
  let year :=
    if ((0 <=? y) && (y <=? 9999))%Z then pad 4 y
    else (if (y <? 0)%Z then "-" else "+") ++ pad 6 (Z.abs y) in
  year ++ "-" ++ pad 2 m ++ "-" ++ pad 2 d ++ "T"
    ++ pad 2 (ms / 3600000) ++ ":" ++ pad 2 ((ms / 60000) mod 60) ++ ":"
    ++ pad 2 ((ms / 1000) mod 60) ++ "." ++ pad 3 (ms mod 1000) ++ "Z".

(** *** JSON *)

Inductive json : Type :=
| JNull
| JBool (b : bool)
| JNum (z : Z)
| JStr (s : string)
| JArr (items : list json)
| JObj (fields : list (string * json)).

Definition hex_digit (n : nat) : ascii :=
  ascii_of_nat (if (n <? 10)%nat then 48 + n else 87 + n).

(** [QuoteJSONString] on one code unit. *)
Definition quote_char (c : ascii) : string :=
  let n := nat_of_ascii c in
  if (n =? 8)%nat then "\b"
  else if (n =? 9)%nat then "\t"
  else if (n =? 10)%nat then "\n"
  else if (n =? 12)%nat then "\f"
  else if (n =? 13)%nat then "\r"
  else if (n =? 34)%nat then String "\" (String c "")
  else if (n =? 92)%nat then "\\"
  else if (n <? 32)%nat then
    "\u00" ++ String (hex_digit (n / 16)) (String (hex_digit (n mod 16)) "")
  else String c "".

Fixpoint quote_body (s : string) : string :=
  match s with
  | EmptyString => EmptyString
  | String c rest => quote_char c ++ quote_body rest
  end.

Definition dq : string := String (ascii_of_nat 34) "".

Definition quote (s : string) : string := dq ++ quote_body s ++ dq.

(** [JSON.stringify(v, null, gap)]: [gap] is the indentation unit (empty for
    the compact form), [indent] the current indentation. *)
Fixpoint serialize (gap indent : string) (v : json) {struct v} : string :=
  let inner := indent ++ gap in
  let wrap (opening closing : string) (parts : list string) : string :=
    match parts with
    | [] => opening ++ closing
    | _ =>
        if gap =? "" then opening ++ join "," parts ++ closing
        else opening ++ nl ++ inner ++ join ("," ++ nl ++ inner) parts
               ++ nl ++ indent ++ closing
    end in
  match v with
  | JNull => "null"
  | JBool b => string_of_bool b
  | JNum z => string_of_Z z
  | JStr s => quote s
  | JArr items => wrap "[" "]" (map (serialize gap inner) items)
  | JObj fields =>
      wrap "{" "}"
        (map (fun kv => quote (fst kv) ++ ":" ++ (if gap =? "" then "" else " ")
                          ++ serialize gap inner (snd kv)) fields)
  end.

Definition stringify (v : json) : string := serialize "" "" v.
Definition stringify_indent2 (v : json) : string := serialize "  " "" v.

(** *** Plain objects used as maps

    The own string keys of an ordinary object are enumerated with the array
    indices first, in ascending numeric order, followed by the other keys in
    the order of their creation; [JSON.stringify] and [Object.keys] follow
    that order.  An array index is a canonical numeric string denoting an
    integer between 0 and 2^32 - 2. *)

Definition is_digit (c : ascii) : bool :=
  let n := nat_of_ascii c in ((48 <=? n)%nat && (n <=? 57)%nat).

Fixpoint digits_value (acc : N) (s : string) : option N :=
  match s with
  | EmptyString => Some acc
  | String c rest =>
      if is_digit c then digits_value (acc * 10 + (N_of_ascii c - 48))%N rest
      else None
  end.

Definition array_index (s : string) : option N :=
  match s with
  | EmptyString => None
  | String c rest =>
      if Ascii.eqb c "0" && negb (rest =? "") then None
      else match digits_value 0%N s with
           | Some n => if (n <=? 4294967294)%N then Some n else None
           | None => None
           end
  end.

Section Objects.
Variable V : Type.

(** The own properties of an object, in the order of their creation. *)
Definition obj : Type := list (string * V).

Definition empty_obj : obj := [].

Fixpoint define (k : string) (v : V) (o : obj) : obj :=
  match o with
  | [] => [(k, v)]
  | (k', v') :: rest =>
      if k' =? k then (k', v) :: rest else (k', v') :: define k v rest
  end.

(** [o[k] = v] on an object created by a literal, whose prototype is
    [Object.prototype]: assigning to [__proto__] runs the inherited setter,
    which replaces the prototype and creates no own property. *)
Definition set (k : string) (v : V) (o : obj) : obj :=
  if k =? "__proto__" then o else define k v o.

Fixpoint get_own (k : string) (o : obj) : option V :=
  match o with
  | [] => None
  | (k', v) :: rest => if k' =? k then Some v else get_own k rest
  end.

Fixpoint insert_index (n : N) (kv : string * V) (l : list (N * (string * V)))
  : list (N * (string * V)) :=
  match l with
  | [] => [(n, kv)]
  | (m, kv') :: rest =>
      if (n <? m)%N then (n, kv) :: l else (m, kv') :: insert_index n kv rest
  end.

Fixpoint index_entries (o : obj) : list (N * (string * V)) :=
  match o with
  | [] => []
  | kv :: rest =>
      match array_index (fst kv) with
      | Some n => insert_index n kv (index_entries rest)
      | None => index_entries rest
      end
  end.

Definition named_entries (o : obj) : obj :=
  filter (fun kv => match array_index (fst kv) with Some _ => false | None => true end) o.

(** The own properties in enumeration order. *)
Definition entries (o : obj) : list (string * V) :=
  (map snd (index_entries o) ++ named_entries o)%list.

Definition keys (o : obj) : list string := map fst (entries o).
End Objects.

Arguments empty_obj {V}.
Arguments define {V}.
Arguments set {V}.
Arguments get_own {V}.
Arguments entries {V}.
Arguments keys {V}.

(** *** [Map] with string keys

    A [Map] enumerates its entries in the order in which the keys were first
    set; setting a key again keeps its position. *)

Section Maps.
Variable V : Type.

Definition strmap : Type := list (string * V).

Fixpoint map_set (k : string) (v : V) (m : strmap) : strmap :=
  match m with
  | [] => [(k, v)]
  | (k', v') :: rest =>
      if k' =? k then (k', v) :: rest else (k', v') :: map_set k v rest
  end.

Fixpoint map_has (k : string) (m : strmap) : bool :=
  match m with
  | [] => false
  | (k', _) :: rest => (k' =? k) || map_has k rest
  end.

Fixpoint map_get (k : string) (m : strmap) : option V :=
  match m with
  | [] => None
  | (k', v) :: rest => if k' =? k then Some v else map_get k rest
  end.

(** Applies [f] to the value stored under [k]: a mutation of the object
    that [m.get(k)] returns. *)
Fixpoint map_update (k : string) (f : V -> V) (m : strmap) : strmap :=
  match m with
  | [] => []
  | (k', v) :: rest =>
      if k' =? k then (k', f v) :: rest else (k', v) :: map_update k f rest
  end.
End Maps.

Arguments map_set {V}.
Arguments map_has {V}.
Arguments map_get {V}.
Arguments map_update {V}.

(** [arr.includes(x)] on an array of strings. *)
Definition includes (l : list string) (x : string) : bool :=
  existsb (fun y => y =? x) l.

(** [a || b] on two strings, the first of which may be absent. *)
Definition or_else (a : option string) (b : string) : string :=
  match a with
  | Some s => if truthy s then s else b
  | None => b
  end.

(** *** Thrown values *)

Inductive thrown : Type :=
| JsError (name message : string)   (* an [Error] object *)
| JsValue (repr : string).          (* anything else, with its [String(v)] *)

Definition Error (message : string) : thrown := JsError "Error" message.

(** [String(e)], as a template literal interpolates a caught value. *)
Definition string_of_thrown (e : thrown) : string :=
  match e with
  | JsError name message =>
      if name =? "" then message
      else if message =? "" then name
      else name ++ ": " ++ message
  | JsValue repr => repr
  end.

Inductive result (A : Type) : Type :=
| Ok (a : A)
| Throw (e : thrown).

Arguments Ok {A}.
Arguments Throw {A}.

End JS.

Import JS.

(** ** Data model (the interfaces of src/main.ts) *)

Record PR : Type := {
  title : string;
  body : string;
  number : Z;
  html_url : string;
  user : string;
  merged_at : string;
  labels : list string
}.

(** The endpoint's answer, [interface GeminiResponse], with every level
    optional: the code reads it through [?.] only. *)
Record Part : Type := { text : option string }.
Record Content : Type := { parts : option (list Part) }.
Record Candidate : Type := { content : option Content }.
Record GeminiResponse : Type := { candidates : option (list Candidate) }.

Record GroupedSummary : Type := {
  markdown : string;
  slack : string
}.

Record LabelGroup : Type := {
  name : string;
  prs : list PR;
  summary : GroupedSummary
}.

Definition GroupedOutput : Type := obj GroupedSummary.

Record Metadata : Type := {
  releaseDate : string;
  releaseTimestamp : string;
  totalPRs : nat;
  groupingLabels : list string;
  generatedAt : string
}.

Record ArtifactData : Type := {
  metadata : Metadata;
  groups : list LabelGroup
}.

(** ** What the collaborators return *)

(** An item of the hosting API's pull-request list, with the fields the
    action reads. *)
Record RawPR : Type := {
  raw_title : string;
  raw_body : option string;
  raw_number : Z;
  raw_html_url : string;
  raw_user : option string;         (* [user.login], when [user] is not null *)
  raw_merged_at : option string;
  raw_labels : option (list string) (* the [name] of each label *)
}.

Record Release : Type := {
  id : Z;
  tag_name : string;
  created_at : string
}.

(** A response of [fetch]; [resp_json] is what [response.json()] resolves to
    ([None] for the JSON value null) or rejects with. *)
Record Response : Type := {
  ok : bool;
  statusText : string;
  resp_json : result (option GeminiResponse)
}.

Record World : Type := {
  getInput : string -> string;
  context_repo : result (string * string);
  now : Z;                  (* the [new Date()] at the start of the run *)
  now_generated : Z;        (* the [new Date()] of [generatedAt] *)
  getLatestRelease : string -> string -> result Release;
  pulls_list : string -> string -> result (list RawPR);
  (* the n-th request sent to the generative endpoint, n counted from 0 *)
  fetch : nat -> string -> string -> result Response;
  mkdirSync : string -> result unit;
  writeFileSync : string -> string -> result unit;
  (* resolves to [uploadResult.size], which may be undefined *)
  uploadArtifact : string -> list string -> string -> result (option Z)
}.

(** ** Observable events and the monad of the action *)

Inductive event : Type :=
| Info (message : string)
| Warning (message : string)
| SetOutput (name value : string)
| SetFailed (message : string)
| LatestReleaseCall (owner repo : string)
| PullsListCall (owner repo : string)
| FetchCall (url body : string)
| Mkdir (path : string)
| WriteFile (path data : string)
| Upload (name : string) (files : list string) (rootDirectory : string).

Definition trace : Type := list event.
Bind Scope list_scope with trace.

Definition M (A : Type) : Type := trace -> result A * trace.

Definition ret {A : Type} (a : A) : M A := fun t => (Ok a, t).

Definition bind {A B : Type} (m : M A) (k : A -> M B) : M B :=
  fun t =>
    match m t with
    | (Ok a, t') => k a t'
    | (Throw e, t') => (Throw e, t')
    end.

Definition throw {A : Type} (e : thrown) : M A := fun t => (Throw e, t).

Definition try_catch {A : Type} (m : M A) (handler : thrown -> M A) : M A :=
  fun t =>
    match m t with
    | (Ok a, t') => (Ok a, t')
    | (Throw e, t') => handler e t'
    end.

Definition emit (e : event) : M unit := fun t => (Ok tt, (t ++ [e])%list).

(** An awaited call: the event is recorded, the outcome is the world's. *)
Definition call {A : Type} (e : event) (outcome : result A) : M A :=
  fun t => (outcome, (t ++ [e])%list).

Declare Scope action_scope.
Delimit Scope action_scope with action.
Notation "x <- m ;; k" := (bind m (fun x => k))
  (at level 61, m at next level, right associativity) : action_scope.
Notation "' pat <- m ;; k" := (bind m (fun x => match x with pat => k end))
  (at level 61, pat pattern, m at next level, right associativity) : action_scope.
Notation "m ;; k" := (bind m (fun _ => k))
  (at level 61, right associativity) : action_scope.
Open Scope action_scope.

(** *** Observations on a trace *)

Definition is_fetch (e : event) : bool :=
  match e with FetchCall _ _ => true | _ => false end.

Definition fetch_count (t : trace) : nat := List.length (filter is_fetch t).

Fixpoint outputs (t : trace) : list (string * string) :=
  match t with
  | [] => []
  | SetOutput n v :: rest => (n, v) :: outputs rest
  | _ :: rest => outputs rest
  end.

(** The value last set for a step output. *)
Definition output (n : string) (t : trace) : option string :=
  option_map snd (find (fun nv => fst nv =? n) (rev (outputs t))).

Fixpoint failures (t : trace) : list string :=
  match t with
  | [] => []
  | SetFailed m :: rest => m :: failures rest
  | _ :: rest => failures rest
  end.

Fixpoint warnings (t : trace) : list string :=
  match t with
  | [] => []
  | Warning m :: rest => m :: warnings rest
  | _ :: rest => warnings rest
  end.

Fixpoint files_written (t : trace) : list (string * string) :=
  match t with
  | [] => []
  | WriteFile p d :: rest => (p, d) :: files_written rest
  | _ :: rest => files_written rest
  end.

(** ** The action *)

Definition NO_CHANGES : string := "No new changes were released in this period.".
Definition FAILED_AI_SUMMARY : string := "Failed to generate AI summary".
Definition FAILED_SUMMARY : string := "Failed to generate summary".
Definition FAILED_SLACK_SUMMARY : string := "Failed to generate Slack summary".

Definition GEMINI_URL : string :=
  "https://generativelanguage.googleapis.com/v1beta/models/gemini-2.5-flash:generateContent?key=".

(** The instruction of the chat-format stage, before the text to reformat. *)
Definition SLACK_INSTRUCTION : string :=
  "Reformat the following GitHub release content for Slack using these rules: Use *text* for bold (not **text**"
  ++ "), Use _text_ for italic, Use `code` for inline code, Use > for blockquotes, Do NOT use ### headers - just use *Bold Text* for section headers, For Loom videos format as: <video_url|Link Text> (Slack link format), Use emojis sparingly for key points only, Keep line breaks and spacing clean for Slack, Do NOT use markdown image syntax ![](url) - use Slack's link format instead. Make it engaging and easy to read in a Slack channel. Return ONLY the reformatted content - no introductory text, no explanations, just the reformatted release notes. Here is the GitHub release content to reformat:".

(** *** Serialisation of the records *)

Definition json_of_PR (pr : PR) : json :=
  JObj [("title", JStr (title pr));
        ("body", JStr (body pr));
        ("number", JNum (number pr));
        ("html_url", JStr (html_url pr));
        ("user", JStr (user pr));
        ("merged_at", JStr (merged_at pr));
        ("labels", JArr (map JStr (labels pr)))].

Definition json_of_GroupedSummary (s : GroupedSummary) : json :=
  JObj [("markdown", JStr (markdown s)); ("slack", JStr (slack s))].

Definition json_of_LabelGroup (g : LabelGroup) : json :=
  JObj [("name", JStr (name g));
        ("prs", JArr (map json_of_PR (prs g)));
        ("summary", json_of_GroupedSummary (summary g))].

Definition json_of_GroupedOutput (o : GroupedOutput) : json :=
  JObj (map (fun kv => (fst kv, json_of_GroupedSummary (snd kv))) (entries o)).

Definition json_of_ArtifactData (a : ArtifactData) : json :=
  JObj [("metadata",
         JObj [("releaseDate", JStr (releaseDate (metadata a)));
               ("releaseTimestamp", JStr (releaseTimestamp (metadata a)));
               ("totalPRs", JNum (Z.of_nat (totalPRs (metadata a))));
               ("groupingLabels", JArr (map JStr (groupingLabels (metadata a))));
               ("generatedAt", JStr (generatedAt (metadata a)))]);
        ("groups", JArr (map json_of_LabelGroup (groups a)))].

(** The body of a request to the endpoint: one free-text prompt. *)
Definition request_body (prompt : string) : string :=
  stringify
    (JObj [("contents",
            JArr [JObj [("parts", JArr [JObj [("text", JStr prompt)]])]])]).

(** [geminiData.candidates?.[0]?.content?.parts?.[0]?.text]; reading
    [candidates] off the value null throws a [TypeError]. *)
Definition first_text (geminiData : option GeminiResponse) : result (option string) :=
  match geminiData with
  | None =>
      Throw (JsError "TypeError"
               "Cannot read properties of null (reading 'candidates')")
  | Some d =>
      Ok match candidates d with
         | Some (c :: _) =>
             match content c with
             | Some ct =>
                 match parts ct with
                 | Some (p :: _) => text p
                 | _ => None
                 end
             | None => None
             end
         | _ => None
         end
  end.

Section Action.
Variable w : World.

Definition core_info (message : string) : M unit := emit (Info message).
Definition core_warning (message : string) : M unit := emit (Warning message).
Definition core_setOutput (n v : string) : M unit := emit (SetOutput n v).

(** [await fetch(url, {method: 'POST', ..., body})]. *)
Definition do_fetch (url body : string) : M Response :=
  fun t => call (FetchCall url body) (fetch w (fetch_count t) url body) t.

(** [await response.json()] followed by the optional chain. *)
Definition read_text (geminiResponse : Response) : M (option string) :=
  fun t =>
    match resp_json geminiResponse with
    | Ok geminiData => (first_text geminiData, t)
    | Throw e => (Throw e, t)
    end.

(** Generate AI summary using Gemini API. *)
Definition generateAISummary (prs : list PR) (geminiApiKey : string)
    (groupName : option string) : M string :=
  if (List.length prs =? 0)%nat then ret NO_CHANGES
  else
    let groupContext :=
      match groupName with
      | Some g => if truthy g then " for " ++ g else ""
      | None => ""
      end in
    let prompt :=
      "Create a concise release summary" ++ groupContext
      ++ " for the following pull requests. Focus on user-facing improvements and new capabilities. Requirements: Use ### for main headings (minimum h3), #### for subheadings if needed. Keep formatting simple and clean. Preserve Loom video embeddings exactly as they appear in PR descriptions. Return ONLY the summary content - no introductory text, no explanations, just the release notes. Here are the PRs:"
      ++ nl ++ nl ++ stringify (JArr (map json_of_PR prs)) in
    try_catch
      (geminiResponse <- do_fetch (GEMINI_URL ++ geminiApiKey) (request_body prompt) ;;
       if negb (ok geminiResponse)
       then throw (Error ("Gemini API error: " ++ statusText geminiResponse))
       else
         t <- read_text geminiResponse ;;
         ret (or_else t FAILED_SUMMARY))
      (fun error =>
         core_warning ("Failed to generate AI summary" ++ groupContext ++ ": "
                         ++ string_of_thrown error) ;;
         ret FAILED_AI_SUMMARY).

(** Convert markdown summary to Slack format. *)
Definition convertToSlackFormat (markdownSummary geminiApiKey : string) : M string :=
  if (markdownSummary =? NO_CHANGES) || (markdownSummary =? FAILED_AI_SUMMARY)
  then ret markdownSummary
  else
    let prompt := SLACK_INSTRUCTION ++ nl ++ nl ++ markdownSummary in
    try_catch
      (geminiResponse <- do_fetch (GEMINI_URL ++ geminiApiKey) (request_body prompt) ;;
       if negb (ok geminiResponse)
       then throw (Error ("Gemini API error: " ++ statusText geminiResponse))
       else
         t <- read_text geminiResponse ;;
         ret (or_else t FAILED_SLACK_SUMMARY))
      (fun error =>
         core_warning ("Failed to generate Slack summary: " ++ string_of_thrown error) ;;
         ret FAILED_SLACK_SUMMARY).

End Action.

(** Group PRs by labels. *)
Definition groupPRsByLabels (prs : list PR) (groupingLabels : list string)
  : strmap (list PR) :=
  let groups :=
    fold_left (fun groups label => map_set label [] groups) groupingLabels [] in
  fold_left
    (fun groups pr =>
       fold_left
         (fun groups label =>
            if map_has label groups
            then map_update label (fun bucket => bucket ++ [pr])%list groups
            else groups)
         (labels pr) groups)
    prs groups.

(** The comma-separated [grouping-labels] input, split, trimmed, blanks
    dropped. *)
Definition parse_labels (groupingLabelsInput : string) : list string :=
  filter (fun label => (0 <? String.length label)%nat)
    (map trim (split "," groupingLabelsInput)).

(** [(pr.labels || []).map(label => label.name)]. *)
Definition label_names (pr : RawPR) : list string :=
  match raw_labels pr with Some l => l | None => [] end.

(** The filter of step 3: merged strictly after [sinceDate] (strings are
    compared code unit by code unit), carrying a grouping label and, when
    required, the label [feature]. *)
Definition is_relevant (sinceDate : string) (groupingLabels : list string)
    (requireFeatureLabel : bool) (pr : RawPR) : bool :=
  match raw_merged_at pr with
  | None => false
  | Some merged =>
      if (merged <=? sinceDate)%string then false
      else
        let prLabels := label_names pr in
        let hasGroupingLabel :=
          existsb (fun groupLabel => includes prLabels groupLabel) groupingLabels in
        if requireFeatureLabel
        then includes prLabels "feature" && hasGroupingLabel
        else hasGroupingLabel
  end.

(** The projection of step 3 to the minimal shape. *)
Definition project (pr : RawPR) : PR :=
  {| title := raw_title pr;
     body := or_else (raw_body pr) "";
     number := raw_number pr;
     html_url := raw_html_url pr;
     user := or_else (raw_user pr) "";
     merged_at := or_else (raw_merged_at pr) "";
     labels := label_names pr |}.

Definition relevant (sinceDate : string) (groupingLabels : list string)
    (requireFeatureLabel : bool) (allPRs : list RawPR) : list PR :=
  map project (filter (is_relevant sinceDate groupingLabels requireFeatureLabel) allPRs).

Definition SEVEN_DAYS_MS : Z := 7 * 24 * 60 * 60 * 1000.

Definition ARTIFACT_DIR : string := "./changelog-artifacts".

(** [join(artifactDir, 'grouped-changelog.json')], normalised by [path.join]. *)
Definition ARTIFACT_PATH : string := "changelog-artifacts/grouped-changelog.json".

(** The local variables of [run] that the properties below speak about, as
    they stand when the outer [try] block ends normally. *)
Record Locals : Type := {
  loc_groupingLabels : list string;
  loc_requireFeatureLabel : bool;
  loc_hasPreviousRelease : bool;
  loc_previousTag : string;
  loc_previousReleaseDate : string;
  loc_sinceDate : string;
  loc_allPRs : list RawPR;
  loc_relevantPRs : list PR;
  loc_prGroups : strmap (list PR);
  loc_groupedSummaries : GroupedOutput;
  loc_labelGroups : list LabelGroup;
  loc_artifactData : ArtifactData
}.

Section Run.
Variable w : World.

(** Step 2: the previous release, as (hasPreviousRelease, previousTag,
    previousReleaseDate); any failure of the lookup is caught. *)
Definition previous_release (owner repo : string) : M (bool * string * string) :=
  try_catch
    (latestRelease <- call (LatestReleaseCall owner repo) (getLatestRelease w owner repo) ;;
     if negb (id latestRelease =? 0)%Z
     then
       core_info ("Found previous release: " ++ tag_name latestRelease
                    ++ " created at " ++ created_at latestRelease) ;;
       ret (true, tag_name latestRelease, created_at latestRelease)
     else ret (false, "", ""))
    (fun error =>
       core_info "No previous releases found. This is the first release." ;;
       ret (false, "", "")).

(** Step 3: the cutoff. *)
Definition since_date (hasPreviousRelease : bool) (previousReleaseDate : string)
  : M string :=
  if hasPreviousRelease
  then
    core_info ("Fetching feature PRs since last release: " ++ previousReleaseDate) ;;
    ret previousReleaseDate
  else
    let sevenDaysAgo := (now w - SEVEN_DAYS_MS)%Z in
    let sinceDate := toISOString sevenDaysAgo in
    core_info ("No previous release found. Fetching feature PRs from last 7 days: "
                 ++ sinceDate) ;;
    ret sinceDate.

(** Step 4: the loop over the entries of the map, in its order. *)
Fixpoint summarize (geminiApiKey : string) (prGroups : strmap (list PR))
    (groupedSummaries : GroupedOutput) (labelGroups : list LabelGroup)
  : M (GroupedOutput * list LabelGroup) :=
  match prGroups with
  | [] => ret (groupedSummaries, labelGroups)
  | (labelName, prs) :: rest =>
      if (0 <? List.length prs)%nat
      then
        core_info ("Generating summary for " ++ labelName ++ " group ("
                     ++ string_of_nat (List.length prs) ++ " PRs)") ;;
        markdownSummary <- generateAISummary w prs geminiApiKey (Some labelName) ;;
        slackSummary <- convertToSlackFormat w markdownSummary geminiApiKey ;;
        let groupSummary := {| markdown := markdownSummary; slack := slackSummary |} in
        summarize geminiApiKey rest
          (set labelName groupSummary groupedSummaries)
          (labelGroups ++ [{| name := labelName; prs := prs; summary := groupSummary |}])%list
      else summarize geminiApiKey rest groupedSummaries labelGroups
  end.

(** Step 5, after the file is written: the upload, whose failure is
    caught. *)
Definition upload (artifactName artifactPath artifactDir : string) : M unit :=
  try_catch
    (size <- call (Upload artifactName [artifactPath] artifactDir)
               (uploadArtifact w artifactName [artifactPath] artifactDir) ;;
     core_setOutput "artifact-name" artifactName ;;
     core_info ("Uploaded artifact: " ++ artifactName ++ " ("
                  ++ match size with Some n => string_of_Z n | None => "undefined" end
                  ++ " bytes)"))
    (fun error =>
       core_warning ("Failed to upload artifact: " ++ string_of_thrown error) ;;
       core_setOutput "artifact-name" "").

(** The body of the outer [try] of [run]; it hands back the local
    variables for the statements below, [run] itself returns nothing.
    Building the two clients ([getOctokit], [DefaultArtifactClient]) has no
    observable effect and is left out. *)
Definition run_steps : M Locals :=
  let githubToken := getInput w "github-token" in
  let geminiApiKey := getInput w "gemini-api-key" in
  let groupingLabelsInput := getInput w "grouping-labels" in
  let requireFeatureLabel := (getInput w "require-feature-label" =? "true") in
  if negb (truthy githubToken) || negb (truthy geminiApiKey)
     || negb (truthy groupingLabelsInput)
  then throw (Error "Missing required inputs: github-token, gemini-api-key, or grouping-labels")
  else
    let groupingLabels := parse_labels groupingLabelsInput in
    if (List.length groupingLabels =? 0)%nat
    then throw (Error "At least one grouping label must be provided")
    else
      ' (owner, repo) <- (fun t => (context_repo w, t)) ;;
      core_info "Starting changelog generation..." ;;
      core_info ("Repository: " ++ owner ++ "/" ++ repo) ;;
      core_info ("Grouping labels: " ++ join ", " groupingLabels) ;;
      core_info ("Require feature label: " ++ string_of_bool requireFeatureLabel) ;;
      (* Step 1 *)
      let releaseDate := first (split "T" (toISOString (now w))) in
      let releaseTimestamp :=
        first (split "." (replace_first "T" "-"
                            (remove_colons_dashes (toISOString (now w))))) in
      core_setOutput "release-date" releaseDate ;;
      core_setOutput "release-timestamp" releaseTimestamp ;;
      core_info ("Release date: " ++ releaseDate ++ ", timestamp: " ++ releaseTimestamp) ;;
      (* Step 2 *)
      ' (hasPreviousRelease, previousTag, previousReleaseDate) <-
          previous_release owner repo ;;
      core_setOutput "has-previous-release" (string_of_bool hasPreviousRelease) ;;
      core_setOutput "previous-tag" previousTag ;;
      core_setOutput "previous-release-date" previousReleaseDate ;;
      (* Step 3 *)
      sinceDate <- since_date hasPreviousRelease previousReleaseDate ;;
      allPRs <- call (PullsListCall owner repo) (pulls_list w owner repo) ;;
      let relevantPRs := relevant sinceDate groupingLabels requireFeatureLabel allPRs in
      (* Step 4 *)
      core_info ("Found " ++ string_of_nat (List.length relevantPRs) ++ " relevant PRs") ;;
      let prGroups := groupPRsByLabels relevantPRs groupingLabels in
      ' (groupedSummaries, labelGroups) <-
          summarize geminiApiKey prGroups empty_obj [] ;;
      core_setOutput "grouped-summaries"
        (stringify (json_of_GroupedOutput groupedSummaries)) ;;
      core_setOutput "label-groups" (join "," (map name labelGroups)) ;;
      core_setOutput "total-prs" (string_of_nat (List.length relevantPRs)) ;;
      core_setOutput "has-content"
        (string_of_bool (0 <? List.length labelGroups)%nat) ;;
      (* Step 5 *)
      let artifactData :=
        {| metadata :=
             {| releaseDate := releaseDate;
                releaseTimestamp := releaseTimestamp;
                totalPRs := List.length relevantPRs;
                groupingLabels := groupingLabels;
                generatedAt := toISOString (now_generated w) |};
           groups := labelGroups |} in
      call (Mkdir ARTIFACT_DIR) (mkdirSync w ARTIFACT_DIR) ;;
      let data := stringify_indent2 (json_of_ArtifactData artifactData) in
      call (WriteFile ARTIFACT_PATH data) (writeFileSync w ARTIFACT_PATH data) ;;
      let artifactName := "changelog-" ++ releaseTimestamp in
      upload artifactName ARTIFACT_PATH ARTIFACT_DIR ;;
      core_info "Changelog generation completed successfully" ;;
      ret {| loc_groupingLabels := groupingLabels;
             loc_requireFeatureLabel := requireFeatureLabel;
             loc_hasPreviousRelease := hasPreviousRelease;
             loc_previousTag := previousTag;
             loc_previousReleaseDate := previousReleaseDate;
             loc_sinceDate := sinceDate;
             loc_allPRs := allPRs;
             loc_relevantPRs := relevantPRs;
             loc_prGroups := prGroups;
             loc_groupedSummaries := groupedSummaries;
             loc_labelGroups := labelGroups;
             loc_artifactData := artifactData |}.

(** The main function for the action: whatever the steps throw becomes the
    terminal failure signal. *)
Definition run : trace :=
  match run_steps [] with
  | (Ok _, t) => t
  | (Throw (JsError _ message), t) => (t ++ [SetFailed message])%list
  | (Throw (JsValue _), t) => (t ++ [SetFailed "An unknown error occurred"])%list
  end.

End Run.

(** ** The scenario of the test suite (__tests__/main.test.ts) *)

Module Scenario.

Definition pr123 : RawPR :=
  {| raw_title := "Add new writer features";
     raw_body := Some "Enhanced content editing capabilities";
     raw_number := 123;
     raw_html_url := "https://github.com/test/repo/pull/123";
     raw_user := Some "dev1";
     raw_merged_at := Some "2024-01-15T10:00:00Z";
     raw_labels := Some ["writer"; "feature"] |}.

Definition pr124 : RawPR :=
  {| raw_title := "Update UI components";
     raw_body := Some "New dashboard design";
     raw_number := 124;
     raw_html_url := "https://github.com/test/repo/pull/124";
     raw_user := Some "dev2";
     raw_merged_at := Some "2024-01-16T10:00:00Z";
     raw_labels := Some ["ui"; "feature"] |}.

Definition pr100 : RawPR :=
  {| raw_title := "Old feature from last year";
     raw_body := Some "Should not be included";
     raw_number := 100;
     raw_html_url := "https://github.com/test/repo/pull/100";
     raw_user := Some "dev3";
     raw_merged_at := Some "2023-01-01T10:00:00Z";
     raw_labels := Some ["writer"] |}.

Definition mockPRs : list RawPR := [pr123; pr124; pr100].

Definition mockGeminiResponse : GeminiResponse :=
  {| candidates :=
       Some [ {| content :=
                   Some {| parts :=
                             Some [ {| text := Some ("### Test Summary" ++ nl ++ "- Test feature added") |} ] |} |} ] |}.

Definition inputs (labels : string) (requireFeature : string) (n : string) : string :=
  if n =? "github-token" then "test-token"
  else if n =? "gemini-api-key" then "test-gemini-key"
  else if n =? "grouping-labels" then labels
  else if n =? "require-feature-label" then requireFeature
  else "".

Definition world : World :=
  {| getInput := inputs "writer,ui" "false";
     context_repo := Ok ("test-owner", "test-repo");
     now := 1705831200000;
     now_generated := 1705831201500;
     getLatestRelease := fun _ _ =>
       Ok {| id := 1; tag_name := "v1.0.0"; created_at := "2024-01-01T10:00:00Z" |};
     pulls_list := fun _ _ => Ok mockPRs;
     fetch := fun _ _ _ =>
       Ok {| ok := true; statusText := "OK"; resp_json := Ok (Some mockGeminiResponse) |};
     mkdirSync := fun _ => Ok tt;
     writeFileSync := fun _ _ => Ok tt;
     uploadArtifact := fun _ _ _ => Ok (Some 1024%Z) |}.

End Scenario.

(** An answer of the endpoint that carries [reply] as its first text part. *)
Definition answer (reply : string) : Response :=
  {| ok := true;
     statusText := "OK";
     resp_json :=
       Ok (Some {| candidates :=
                     Some [ {| content := Some {| parts := Some [ {| text := Some reply |} ] |} |} ] |}) |}.

(** An answer without candidates: the response structure is absent. *)
Definition empty_answer : Response :=
  {| ok := true; statusText := "OK"; resp_json := Ok (Some {| candidates := None |}) |}.

(** ** Further scenarios *)

Module Cases.

Definition pr (n : Z) (merged : string) (ls : list string) : RawPR :=
  {| raw_title := "Change " ++ string_of_Z n;
     raw_body := None;
     raw_number := n;
     raw_html_url := "https://github.com/test/repo/pull/" ++ string_of_Z n;
     raw_user := Some "dev";
     raw_merged_at := Some merged;
     raw_labels := Some ls |}.

Definition with_inputs (labels : string) (w : World) : World :=
  {| getInput := Scenario.inputs labels "false";
     context_repo := context_repo w;
     now := now w;
     now_generated := now_generated w;
     getLatestRelease := getLatestRelease w;
     pulls_list := pulls_list w;
     fetch := fetch w;
     mkdirSync := mkdirSync w;
     writeFileSync := writeFileSync w;
     uploadArtifact := uploadArtifact w |}.

Definition with_pulls (l : list RawPR) (w : World) : World :=
  {| getInput := getInput w;
     context_repo := context_repo w;
     now := now w;
     now_generated := now_generated w;
     getLatestRelease := getLatestRelease w;
     pulls_list := fun _ _ => Ok l;
     fetch := fetch w;
     mkdirSync := mkdirSync w;
     writeFileSync := writeFileSync w;
     uploadArtifact := uploadArtifact w |}.

Definition with_fetch (f : nat -> string -> string -> result Response) (w : World)
  : World :=
  {| getInput := getInput w;
     context_repo := context_repo w;
     now := now w;
     now_generated := now_generated w;
     getLatestRelease := getLatestRelease w;
     pulls_list := pulls_list w;
     fetch := f;
     mkdirSync := mkdirSync w;
     writeFileSync := writeFileSync w;
     uploadArtifact := uploadArtifact w |}.

Definition with_release (r : result Release) (w : World) : World :=
  {| getInput := getInput w;
     context_repo := context_repo w;
     now := now w;
     now_generated := now_generated w;
     getLatestRelease := fun _ _ => r;
     pulls_list := pulls_list w;
     fetch := fetch w;
     mkdirSync := mkdirSync w;
     writeFileSync := writeFileSync w;
     uploadArtifact := uploadArtifact w |}.

(** The token is missing, as in the test of the missing inputs. *)
Definition missing_token : World :=
  {| getInput := fun n => if n =? "github-token" then "" else "test-value";
     context_repo := context_repo Scenario.world;
     now := now Scenario.world;
     now_generated := now_generated Scenario.world;
     getLatestRelease := getLatestRelease Scenario.world;
     pulls_list := pulls_list Scenario.world;
     fetch := fetch Scenario.world;
     mkdirSync := mkdirSync Scenario.world;
     writeFileSync := writeFileSync Scenario.world;
     uploadArtifact := uploadArtifact Scenario.world |}.

(** The lookup of the latest release is rejected. *)
Definition no_release : World :=
  with_release (Throw (Error "Not found")) Scenario.world.

(** The endpoint answers with a status that is not 2xx. *)
Definition api_error : World :=
  with_fetch
    (fun _ _ _ => Ok {| ok := false; statusText := "API Error";
                        resp_json := Throw (JsError "SyntaxError" "Unexpected end of JSON input") |})
    Scenario.world.

(** The endpoint first answers without candidates, then with a text. *)
Definition absent_then_text : World :=
  with_fetch
    (fun n _ _ => Ok (if (n =? 0)%nat then empty_answer else answer "*Oops*"))
    (with_inputs "writer" Scenario.world).

(** Two grouping labels, the second of which is an array index. *)
Definition numeric_label : World :=
  with_pulls
    [pr 7 "2024-01-15T10:00:00Z" ["b"]; pr 8 "2024-01-16T10:00:00Z" ["1"]]
    (with_inputs "b,1" Scenario.world).

(** A pull request carrying both grouping labels, and one carrying a
    grouping label twice. *)
Definition raw_both : RawPR := pr 9 "2024-01-17T10:00:00Z" ["writer"; "ui"].
Definition raw_twice : RawPR := pr 10 "2024-01-18T10:00:00Z" ["writer"; "ui"; "writer"].
Definition both : PR := project raw_both.
Definition twice : PR := project raw_twice.
Definition shared_labels : World := with_pulls [raw_both; raw_twice] Scenario.world.

(** A pull request merged at the very second of the cutoff. *)
Definition at_cutoff : RawPR := pr 11 "2024-01-01T10:00:00Z" ["writer"].

End Cases.


(** ** Vocabulary of the statements *)

(** The distinct elements of a list, each at its first occurrence. *)
Fixpoint first_occurrences (l : list string) : list string :=
  match l with
  | [] => []
  | x :: rest => x :: filter (fun y => negb (y =? x)) (first_occurrences rest)
  end.

Definition nonempty {A : Type} (l : list A) : bool := (0 <? List.length l)%nat.

(** The members of the bucket of [k]: each PR of [prs], in order, once per
    occurrence of [k] among its labels. *)
Definition bucket_of (k : string) (prs : list PR) : list PR :=
  flat_map (fun pr => repeat pr (count_occ string_dec (labels pr) k)) prs.


(** The label group as an entry of the map of buckets, and as an entry of
    the object of grouped summaries. *)
Definition group_entry (g : LabelGroup) : string * list PR := (name g, prs g).

Definition summary_entry (g : LabelGroup) : string * GroupedSummary :=
  (name g, summary g).

Definition not_proto (g : LabelGroup) : bool := negb (name g =? "__proto__").

(** The assignments [groupedSummaries[labelName] = groupSummary] made for a
    sequence of label groups. *)
Definition assign_all (added : list LabelGroup) (o : GroupedOutput) : GroupedOutput :=
  fold_left (fun o g => set (name g) (summary g) o) added o.

(** Events that set no output, signal no failure and write no file. *)
Definition quiet (e : event) : Prop :=
  match e with
  | SetOutput _ _ | SetFailed _ | WriteFile _ _ => False
  | _ => True
  end.

(** An outcome of [fetch] that is a failure for the stage: a transport error
    or a response whose status is not 2xx. *)
Definition fetch_failed (r : result Response) : Prop :=
  match r with
  | Throw _ => True
  | Ok resp => ok resp = false
  end.

Definition contains (sub s : string) : Prop := exists a b, s = a ++ sub ++ b.

(** One of the three required inputs is empty. *)
Definition missing_input (w : World) : Prop :=
  getInput w "github-token" = "" \/ getInput w "gemini-api-key" = ""
  \/ getInput w "grouping-labels" = "".

(** Every entry of the comma-separated list is blank. *)
Definition no_label_entry (w : World) : Prop :=
  forall entry, In entry (split "," (getInput w "grouping-labels")) -> trim entry = "".

(** The inputs pass the validation at the head of [run]. *)
Definition valid_inputs (w : World) : Prop :=
  getInput w "github-token" <> "" /\ getInput w "gemini-api-key" <> ""
  /\ getInput w "grouping-labels" <> ""
  /\ parse_labels (getInput w "grouping-labels") <> [].

(** What a run that reaches the end of its [try] block has done. *)
Record completed (w : World) (L : Locals) (t : trace) : Prop := {
  cr_run : run w = t;
  cr_failures : failures t = [];
  cr_labels : loc_groupingLabels L = parse_labels (getInput w "grouping-labels");
  cr_feature :
    loc_requireFeatureLabel L = (getInput w "require-feature-label" =? "true");
  cr_collaborators :
    exists owner repo,
      context_repo w = Ok (owner, repo)
      /\ pulls_list w owner repo = Ok (loc_allPRs L)
      /\ (forall e, getLatestRelease w owner repo = Throw e ->
            loc_hasPreviousRelease L = false /\ loc_previousTag L = ""
            /\ loc_previousReleaseDate L = "");
  cr_since :
    loc_sinceDate L
    = if loc_hasPreviousRelease L then loc_previousReleaseDate L
      else toISOString (now w - SEVEN_DAYS_MS);
  cr_relevant :
    loc_relevantPRs L
    = relevant (loc_sinceDate L) (loc_groupingLabels L)
        (loc_requireFeatureLabel L) (loc_allPRs L);
  cr_groups :
    loc_prGroups L = groupPRsByLabels (loc_relevantPRs L) (loc_groupingLabels L);
  cr_label_groups :
    map group_entry (loc_labelGroups L)
    = filter (fun g => nonempty (snd g)) (loc_prGroups L);
  cr_summaries :
    loc_groupedSummaries L = assign_all (loc_labelGroups L) empty_obj;
  cr_artifact_groups : groups (loc_artifactData L) = loc_labelGroups L;
  cr_artifact_total :
    totalPRs (metadata (loc_artifactData L)) = List.length (loc_relevantPRs L);
  cr_file :
    files_written t
    = [(ARTIFACT_PATH, stringify_indent2 (json_of_ArtifactData (loc_artifactData L)))];
  cr_outputs :
    exists releaseDate releaseTimestamp artifactName,
      outputs t
      = [("release-date", releaseDate);
         ("release-timestamp", releaseTimestamp);
         ("has-previous-release", string_of_bool (loc_hasPreviousRelease L));
         ("previous-tag", loc_previousTag L);
         ("previous-release-date", loc_previousReleaseDate L);
         ("grouped-summaries",
          stringify (json_of_GroupedOutput (loc_groupedSummaries L)));
         ("label-groups", join "," (map name (loc_labelGroups L)));
         ("total-prs", string_of_nat (List.length (loc_relevantPRs L)));
         ("has-content", string_of_bool (0 <? List.length (loc_labelGroups L))%nat);
         ("artifact-name", artifactName)]
}.

(** A group name that the object of grouped summaries keeps where it was
    created: neither an array index nor [__proto__]. *)
Definition plain_name (k : string) : Prop :=
  array_index k = None /\ k <> "__proto__".

(** The claim C10 as the specification states it: the keys of the
    grouped-summaries mapping, the names of [label-groups] and the names of
    the artifact groups are the same names in the same order, with the same
    summary pair under each name. *)
Definition group_outputs_consistent (L : Locals) (t : trace) : Prop :=
  output "grouped-summaries" t
  = Some (stringify (json_of_GroupedOutput (loc_groupedSummaries L)))
  /\ files_written t
     = [(ARTIFACT_PATH, stringify_indent2 (json_of_ArtifactData (loc_artifactData L)))]
  /\ output "label-groups" t
     = Some (join "," (map name (groups (loc_artifactData L))))
  /\ keys (loc_groupedSummaries L) = map name (groups (loc_artifactData L))
  /\ (forall g, In g (groups (loc_artifactData L)) ->
        get_own (name g) (loc_groupedSummaries L) = Some (summary g)).

(** The part of it that holds whatever the names are. *)
Definition group_outputs_agree (L : Locals) (t : trace) : Prop :=
  output "grouped-summaries" t
  = Some (stringify (json_of_GroupedOutput (loc_groupedSummaries L)))
  /\ files_written t
     = [(ARTIFACT_PATH, stringify_indent2 (json_of_ArtifactData (loc_artifactData L)))]
  /\ output "label-groups" t
     = Some (join "," (map name (groups (loc_artifactData L))))
  /\ (forall k, In k (keys (loc_groupedSummaries L))
                <-> In k (map name (groups (loc_artifactData L)))
                    /\ k <> "__proto__")
  /\ (forall g, In g (groups (loc_artifactData L)) -> name g <> "__proto__" ->
        get_own (name g) (loc_groupedSummaries L) = Some (summary g)).

(** ** Vocabulary of the further properties *)

(** The code units of a string. *)
Definition chars (s : string) : list ascii := list_ascii_of_string s.

(** A string that [trim] leaves alone: white space at neither end. *)
Definition starts_with_ws (s : string) : bool :=
  match s with
  | EmptyString => false
  | String c _ => is_ws c
  end.

Fixpoint ends_with_ws (s : string) : bool :=
  match s with
  | EmptyString => false
  | String c EmptyString => is_ws c
  | String _ rest => ends_with_ws rest
  end.

(** A label as [parse_labels] yields them: not empty, trimmed, without a
    comma. *)
Definition clean_label (l : string) : Prop :=
  l <> "" /\ starts_with_ws l = false /\ ends_with_ws l = false
  /\ ~ In ","%char (chars l).

(** [x] is the text of the first part of the first candidate of [d]. *)
Definition first_text_is (d : GeminiResponse) (x : string) : Prop :=
  exists c cs ct p ps,
    candidates d = Some (c :: cs) /\ content c = Some ct
    /\ parts ct = Some (p :: ps) /\ text p = Some x.

(** The instruction of the summary stage for a group, before the pull
    requests. *)
Definition summary_prompt (groupContext : string) (prs : list PR) : string :=
  "Create a concise release summary" ++ groupContext
  ++ " for the following pull requests. Focus on user-facing improvements and new capabilities. Requirements: Use ### for main headings (minimum h3), #### for subheadings if needed. Keep formatting simple and clean. Preserve Loom video embeddings exactly as they appear in PR descriptions. Return ONLY the summary content - no introductory text, no explanations, just the release notes. Here are the PRs:"
  ++ nl ++ nl ++ stringify (JArr (map json_of_PR prs)).

(** The two stages of one group, as the loop of [run] chains them. *)
Definition both_stages (w : World) (prs : list PR) (key labelName : string)
  : M GroupedSummary :=
  markdownSummary <- generateAISummary w prs key (Some labelName) ;;
  slackSummary <- convertToSlackFormat w markdownSummary key ;;
  ret {| markdown := markdownSummary; slack := slackSummary |}.

(** A response with a 2xx status whose body reads as [d]. *)
Definition answered (r : result Response) (d : GeminiResponse) : Prop :=
  exists resp, r = Ok resp /\ ok resp = true /\ resp_json resp = Ok (Some d).

(** A response with a 2xx status whose body cannot be read: [json()]
    rejects, or the body is the value null. *)
Definition unreadable (r : result Response) (e : thrown) : Prop :=
  exists resp,
    r = Ok resp /\ ok resp = true
    /\ (resp_json resp = Throw e
        \/ resp_json resp = Ok None
           /\ e = JsError "TypeError"
                    "Cannot read properties of null (reading 'candidates')").

(** Events of the log and of the release lookup: no output, no request, no
    warning, no file. *)
Definition plain (e : event) : Prop :=
  match e with
  | Info _ | LatestReleaseCall _ _ => True
  | _ => False
  end.

(** [releaseDate] and [releaseTimestamp] of step 1, for the clock reading
    [t]. *)
Definition release_date_of (t : Z) : string := first (split "T" (toISOString t)).

Definition release_timestamp_of (t : Z) : string :=
  first (split "." (replace_first "T" "-" (remove_colons_dashes (toISOString t)))).

(** The message that the outer [catch] of [run] reports for a thrown
    value. *)
Definition failure_message (e : thrown) : string :=
  match e with
  | JsError _ message => message
  | JsValue _ => "An unknown error occurred"
  end.

(** The names of the step outputs, in the order in which [run] sets them. *)
Definition OUTPUT_NAMES : list string :=
  ["release-date"; "release-timestamp"; "has-previous-release"; "previous-tag";
   "previous-release-date"; "grouped-summaries"; "label-groups"; "total-prs";
   "has-content"; "artifact-name"].

Fixpoint uploads (t : trace) : list string :=
  match t with
  | [] => []
  | Upload n _ _ :: rest => n :: uploads rest
  | _ :: rest => uploads rest
  end.

(** More of what a run that reaches the end of its [try] block has done. *)
Record completed_detail (w : World) (L : Locals) (t : trace) : Prop := {
  cd_outputs :
    outputs t
    = [("release-date", release_date_of (now w));
       ("release-timestamp", release_timestamp_of (now w));
       ("has-previous-release", string_of_bool (loc_hasPreviousRelease L));
       ("previous-tag", loc_previousTag L);
       ("previous-release-date", loc_previousReleaseDate L);
       ("grouped-summaries",
        stringify (json_of_GroupedOutput (loc_groupedSummaries L)));
       ("label-groups", join "," (map name (loc_labelGroups L)));
       ("total-prs", string_of_nat (List.length (loc_relevantPRs L)));
       ("has-content", string_of_bool (0 <? List.length (loc_labelGroups L))%nat);
       ("artifact-name",
        match uploadArtifact w ("changelog-" ++ release_timestamp_of (now w))
                [ARTIFACT_PATH] ARTIFACT_DIR with
        | Ok _ => "changelog-" ++ release_timestamp_of (now w)
        | Throw _ => ""
        end)];
  cd_metadata :
    metadata (loc_artifactData L)
    = {| releaseDate := release_date_of (now w);
         releaseTimestamp := release_timestamp_of (now w);
         totalPRs := List.length (loc_relevantPRs L);
         groupingLabels := loc_groupingLabels L;
         generatedAt := toISOString (now_generated w) |};
  cd_release :
    exists owner repo,
      context_repo w = Ok (owner, repo)
      /\ (forall r, getLatestRelease w owner repo = Ok r ->
            if (id r =? 0)%Z
            then loc_hasPreviousRelease L = false /\ loc_previousTag L = ""
                 /\ loc_previousReleaseDate L = ""
            else loc_hasPreviousRelease L = true /\ loc_previousTag L = tag_name r
                 /\ loc_previousReleaseDate L = created_at r);
  cd_requests :
    (List.length (loc_labelGroups L) <= fetch_count t
     /\ fetch_count t <= 2 * List.length (loc_labelGroups L))%nat;
  cd_written :
    mkdirSync w ARTIFACT_DIR = Ok tt
    /\ writeFileSync w ARTIFACT_PATH
         (stringify_indent2 (json_of_ArtifactData (loc_artifactData L))) = Ok tt;
  cd_uploads : uploads t = ["changelog-" ++ release_timestamp_of (now w)];
  cd_upload_warning :
    forall e,
      uploadArtifact w ("changelog-" ++ release_timestamp_of (now w))
        [ARTIFACT_PATH] ARTIFACT_DIR = Throw e ->
      In ("Failed to upload artifact: " ++ string_of_thrown e) (warnings t)
}.

(** Checks [p] on the [fuel] integers from [z] upwards. *)
Fixpoint all_from (fuel : nat) (z : Z) (p : Z -> bool) : bool :=
  match fuel with
  | O => true
  | S k => if p z then all_from k (z + 1)%Z p else false
  end.

(** [s] is made of [n] decimal digits. *)
Definition digits (n : nat) (s : string) : bool :=
  (String.length s =? n)%nat && forallb is_digit (chars s).

(** ** Scenarios of the further properties *)

Module Failures.

(** The listing of the pull requests is rejected. *)
Definition listing_error : World :=
  {| getInput := getInput Scenario.world;
     context_repo := context_repo Scenario.world;
     now := now Scenario.world;
     now_generated := now_generated Scenario.world;
     getLatestRelease := getLatestRelease Scenario.world;
     pulls_list := fun _ _ => Throw (Error "Bad credentials");
     fetch := fetch Scenario.world;
     mkdirSync := mkdirSync Scenario.world;
     writeFileSync := writeFileSync Scenario.world;
     uploadArtifact := uploadArtifact Scenario.world |}.

(** The artifact directory cannot be created. *)
Definition mkdir_error : World :=
  {| getInput := getInput Scenario.world;
     context_repo := context_repo Scenario.world;
     now := now Scenario.world;
     now_generated := now_generated Scenario.world;
     getLatestRelease := getLatestRelease Scenario.world;
     pulls_list := pulls_list Scenario.world;
     fetch := fetch Scenario.world;
     mkdirSync := fun _ => Throw (Error "EACCES: permission denied, mkdir");
     writeFileSync := writeFileSync Scenario.world;
     uploadArtifact := uploadArtifact Scenario.world |}.

(** The upload of the artifact is rejected. *)
Definition upload_error : World :=
  {| getInput := getInput Scenario.world;
     context_repo := context_repo Scenario.world;
     now := now Scenario.world;
     now_generated := now_generated Scenario.world;
     getLatestRelease := getLatestRelease Scenario.world;
     pulls_list := pulls_list Scenario.world;
     fetch := fetch Scenario.world;
     mkdirSync := mkdirSync Scenario.world;
     writeFileSync := writeFileSync Scenario.world;
     uploadArtifact := fun _ _ _ => Throw (Error "Artifact upload failed") |}.

(** The endpoint answers 200 with a body that is not JSON. *)
Definition not_json : thrown := JsError "SyntaxError" "Unexpected end of JSON input".

Definition unreadable_body : World :=
  Cases.with_fetch
    (fun _ _ _ => Ok {| ok := true; statusText := "OK"; resp_json := Throw not_json |})
    Scenario.world.

(** No pull request is listed. *)
Definition no_pulls : World := Cases.with_pulls [] Scenario.world.

End Failures.

(** The markdown texts that [convertToSlackFormat] returns as they are. *)
Definition passes_through (md : string) : bool :=
  (md =? NO_CHANGES) || (md =? FAILED_AI_SUMMARY).

(** The requests of a finished group, in order: the request for the summary
    of its pull requests under its name and, unless the markdown is passed
    through, the request to reformat that markdown. *)
Definition requests_of_group (key : string) (g : LabelGroup) : list event :=
  FetchCall (GEMINI_URL ++ key)
    (request_body
       (summary_prompt (if truthy (name g) then " for " ++ name g else "") (prs g)))
  :: (if passes_through (markdown (summary g)) then []
      else [FetchCall (GEMINI_URL ++ key)
              (request_body (SLACK_INSTRUCTION ++ nl ++ nl ++ markdown (summary g)))]).

(** ** Timestamps and their order in time *)

(** A UTC timestamp by its calendar fields. *)
Record Stamp : Type := {
  st_year : Z;
  st_month : Z;
  st_day : Z;
  st_hour : Z;
  st_minute : Z;
  st_second : Z;
  st_millisecond : Z
}.

Definition fields (s : Stamp) : list Z :=
  [st_year s; st_month s; st_day s; st_hour s; st_minute s; st_second s;
   st_millisecond s].

(** The order of two lists of fields, most significant first. *)
Fixpoint lex_compare (a b : list Z) : comparison :=
  match a, b with
  | x :: a', y :: b' =>
      match (x ?= y)%Z with
      | Eq => lex_compare a' b'
      | c => c
      end
  | _, _ => Eq
  end.

(** [a] is strictly before [b] in time. *)
Definition earlier (a b : Stamp) : Prop := lex_compare (fields a) (fields b) = Lt.

(** A timestamp of whole seconds, with a year of four digits. *)
Definition whole_second (s : Stamp) : Prop :=
  (0 <= st_year s <= 9999 /\ 1 <= st_month s <= 12 /\ 1 <= st_day s <= 31
   /\ 0 <= st_hour s <= 23 /\ 0 <= st_minute s <= 59 /\ 0 <= st_second s <= 59
   /\ st_millisecond s = 0)%Z.

(** The text of a timestamp of whole seconds as the hosting API prints the
    merge time of a pull request and the creation time of a release:
    YYYY-MM-DDTHH:MM:SSZ. *)
Definition api_text (s : Stamp) : string :=
  pad 4 (st_year s) ++ "-" ++ pad 2 (st_month s) ++ "-" ++ pad 2 (st_day s) ++ "T"
    ++ pad 2 (st_hour s) ++ ":" ++ pad 2 (st_minute s) ++ ":" ++ pad 2 (st_second s)
    ++ "Z".

(** Reading a timestamp text back: YYYY-MM-DDTHH:MM:SSZ, or with
    milliseconds YYYY-MM-DDTHH:MM:SS.mmmZ as [toISOString] prints it. *)
Definition digits_at (s : string) (start len : nat) : option Z :=
  let f := substring start len s in
  if (String.length f =? len)%nat then option_map Z.of_N (digits_value 0 f) else None.

Definition char_at (s : string) (i : nat) (c : ascii) : bool :=
  match get i s with
  | Some x => Ascii.eqb x c
  | None => false
  end.

Definition parse_stamp (s : string) : option Stamp :=
  if char_at s 4 "-" && char_at s 7 "-" && char_at s 10 "T" && char_at s 13 ":"
     && char_at s 16 ":"
  then
    match digits_at s 0 4, digits_at s 5 2, digits_at s 8 2, digits_at s 11 2,
          digits_at s 14 2, digits_at s 17 2 with
    | Some y, Some mo, Some d, Some h, Some mi, Some sec =>
        if (String.length s =? 20)%nat && char_at s 19 "Z"
        then Some {| st_year := y; st_month := mo; st_day := d; st_hour := h;
                     st_minute := mi; st_second := sec; st_millisecond := 0 |}
        else if (String.length s =? 24)%nat && char_at s 19 "." && char_at s 23 "Z"
        then match digits_at s 20 3 with
             | Some ms =>
                 Some {| st_year := y; st_month := mo; st_day := d; st_hour := h;
                         st_minute := mi; st_second := sec; st_millisecond := ms |}
             | None => None
             end
        else None
    | _, _, _, _, _, _ => None
    end
  else None.

(** The date test of the claim C1 as the claim words it: the merge timestamp
    is strictly greater than the cutoff timestamp, both read as points in
    time. *)
Definition merged_after (sinceDate merged : string) : Prop :=
  exists c m,
    parse_stamp sinceDate = Some c /\ parse_stamp merged = Some m /\ earlier c m.

(** The claim C1 as the specification states it, for one pull request. *)
Definition claimed_relevant (sinceDate : string) (groupingLabels : list string)
    (requireFeatureLabel : bool) (pr : RawPR) : Prop :=
  (exists merged,
     raw_merged_at pr = Some merged /\ merged <> "" /\ merged_after sinceDate merged)
  /\ (exists l, In l (label_names pr) /\ In l groupingLabels)
  /\ (requireFeatureLabel = true -> In "feature" (label_names pr)).

(** No previous release, and one pull request merged in the second of the
    seven-days cutoff, 999 ms before it. *)
Module Fallback.

Definition early : RawPR := Cases.pr 12 "2024-01-14T10:00:00Z" ["writer"].

Definition world : World :=
  {| getInput := getInput Scenario.world;
     context_repo := context_repo Scenario.world;
     now := 1705831200999;
     now_generated := 1705831201500;
     getLatestRelease := fun _ _ => Throw (Error "Not Found");
     pulls_list := fun _ _ => Ok [early];
     fetch := fetch Scenario.world;
     mkdirSync := mkdirSync Scenario.world;
     writeFileSync := writeFileSync Scenario.world;
     uploadArtifact := uploadArtifact Scenario.world |}.

End Fallback.

(** Equality of two comparisons, as a test. *)
Definition comparison_eqb (a b : comparison) : bool :=
  match a, b with
  | Eq, Eq | Lt, Lt | Gt, Gt => true
  | _, _ => false
  end.

(** ** Tactics *)

Ltac step_action :=
  unfold core_info, core_warning, core_setOutput, do_fetch, read_text;
  unfold bind, ret, throw, try_catch, emit, call; simpl.

(** ** Properties of the [Map] operations *)

Section MapFacts.
Context {V : Type}.
Implicit Types (m : strmap V) (k : string).

Lemma map_has_includes m k : map_has k m = includes (map fst m) k.
Proof.
  induction m as [|[k' v] m IH]; simpl; [reflexivity|].
  now rewrite IH.
Qed.

Lemma map_has_get m k : map_has k m = true <-> map_get k m <> None.
Proof.
  induction m as [|[k' v] m IH]; simpl.
  - split; [discriminate | congruence].
  - destruct (k' =? k); simpl; [split; [discriminate | reflexivity] | exact IH].
Qed.

Lemma map_set_keys m k v :
  map fst (map_set k v m)
  = if map_has k m then map fst m else (map fst m ++ [k])%list.
Proof.
  induction m as [|[k' v'] m IH]; simpl; [reflexivity|].
  destruct (k' =? k) eqn:E; simpl; [reflexivity|].
  rewrite IH. now destruct (map_has k m).
Qed.

Lemma map_get_set m k k' v :
  map_get k (map_set k' v m) = if k' =? k then Some v else map_get k m.
Proof.
  induction m as [|[k0 v0] m IH]; simpl.
  - reflexivity.
  - destruct (k0 =? k') eqn:E0; simpl.
    + apply String.eqb_eq in E0; subst k0.
      now destruct (k' =? k).
    + rewrite IH. destruct (k0 =? k) eqn:E1; [|reflexivity].
      apply String.eqb_eq in E1; subst k0. now rewrite String.eqb_sym, E0.
Qed.

Lemma map_update_keys m k f : map fst (map_update k f m) = map fst m.
Proof.
  induction m as [|[k' v'] m IH]; simpl; [reflexivity|].
  destruct (k' =? k); simpl; [reflexivity | now rewrite IH].
Qed.

Lemma map_get_update m k k' f :
  map_get k (map_update k' f m)
  = if k' =? k then option_map f (map_get k m) else map_get k m.
Proof.
  induction m as [|[k0 v0] m IH]; simpl.
  - now destruct (k' =? k).
  - destruct (k0 =? k') eqn:E0; simpl.
    + apply String.eqb_eq in E0; subst k0.
      now destruct (k' =? k).
    + rewrite IH. destruct (k0 =? k) eqn:E1; [|reflexivity].
      apply String.eqb_eq in E1; subst k0. now rewrite String.eqb_sym, E0.
Qed.

Lemma map_get_In m k v : map_get k m = Some v -> In (k, v) m.
Proof.
  induction m as [|[k0 v0] m IH]; simpl; [discriminate|].
  destruct (k0 =? k) eqn:E.
  - apply String.eqb_eq in E. intros [= ->]. left. now subst.
  - intros H. right. now apply IH.
Qed.

Lemma map_In_get m k v : NoDup (map fst m) -> In (k, v) m -> map_get k m = Some v.
Proof.
  induction m as [|[k0 v0] m IH]; simpl; [contradiction|].
  intros Hnd [H|H].
  - injection H as -> ->. now rewrite String.eqb_refl.
  - inversion Hnd as [|? ? Hnotin Hnd']; subst.
    destruct (k0 =? k) eqn:E.
    + apply String.eqb_eq in E; subst k0.
      exfalso. apply Hnotin. now apply (in_map fst) in H.
    + now apply IH.
Qed.
End MapFacts.

Lemma includes_In l x : includes l x = true <-> In x l.
Proof.
  unfold includes. rewrite existsb_exists. split.
  - intros [y [Hy E]]. apply String.eqb_eq in E. now subst.
  - intros H. exists x. split; [assumption | apply String.eqb_refl].
Qed.

Lemma includes_app l1 l2 x : includes (l1 ++ l2) x = includes l1 x || includes l2 x.
Proof. unfold includes. apply existsb_app. Qed.

(** ** Properties of the grouping *)

Lemma filter_filter {A : Type} (p q : A -> bool) (l : list A) :
  filter p (filter q l) = filter (fun x => q x && p x) l.
Proof.
  induction l as [|x l IH]; simpl; [reflexivity|].
  destruct (q x); simpl; [destruct (p x); now rewrite IH | exact IH].
Qed.

Lemma init_groups_keys {V : Type} (v0 : V) (gl : list string) (m : strmap V) :
  map fst (fold_left (fun groups label => map_set label v0 groups) gl m)
  = (map fst m
     ++ filter (fun k => negb (includes (map fst m) k)) (first_occurrences gl))%list.
Proof.
  revert m. induction gl as [|x gl IH]; intros m; simpl.
  - now rewrite app_nil_r.
  - rewrite IH, map_set_keys, map_has_includes.
    destruct (includes (map fst m) x) eqn:Hx; simpl.
    + f_equal. rewrite filter_filter. apply filter_ext. intros k.
      destruct (k =? x) eqn:E; simpl; [|reflexivity].
      apply String.eqb_eq in E; subst k. now rewrite Hx.
    + rewrite <- app_assoc. simpl. f_equal. f_equal.
      rewrite filter_filter. apply filter_ext. intros k.
      rewrite includes_app. simpl. rewrite orb_false_r.
      rewrite (String.eqb_sym x k).
      destruct (k =? x), (includes (map fst m) k); reflexivity.
Qed.

Lemma first_occurrences_In (l : list string) (x : string) :
  In x (first_occurrences l) <-> In x l.
Proof.
  induction l as [|y l IH]; simpl; [tauto|].
  rewrite filter_In, IH, negb_true_iff, String.eqb_neq.
  destruct (string_dec y x); [tauto|].
  split; [tauto|]. intros [H|H]; [tauto|]. right. split; [assumption|congruence].
Qed.

Lemma first_occurrences_NoDup (l : list string) : NoDup (first_occurrences l).
Proof.
  induction l as [|y l IH]; simpl; constructor.
  - rewrite filter_In, negb_true_iff, String.eqb_neq. tauto.
  - now apply NoDup_filter.
Qed.

Lemma first_occurrences_id (l : list string) : NoDup l -> first_occurrences l = l.
Proof.
  induction 1 as [|y l Hy Hnd IH]; simpl; [reflexivity|].
  rewrite IH. f_equal.
  apply forallb_filter_id, forallb_forall. intros x Hx.
  apply negb_true_iff, String.eqb_neq. congruence.
Qed.

Lemma init_groups_get (gl : list string) (m : strmap (list PR)) (k : string) :
  map_get k (fold_left (fun groups label => map_set label [] groups) gl m)
  = if includes gl k then Some [] else map_get k m.
Proof.
  revert m. induction gl as [|x gl IH]; intros m; simpl; [reflexivity|].
  rewrite IH, map_get_set.
  destruct (includes gl k); simpl; [now rewrite orb_true_r|].
  now rewrite orb_false_r.
Qed.

(** One PR: the inner [forEach] over its labels. *)
Lemma add_pr_get (pr : PR) (ls : list string) (m : strmap (list PR)) (k : string) :
  map_get k
    (fold_left
       (fun groups label =>
          if map_has label groups
          then map_update label (fun bucket => bucket ++ [pr])%list groups
          else groups) ls m)
  = option_map (fun b => (b ++ repeat pr (count_occ string_dec ls k))%list)
      (map_get k m).
Proof.
  revert m. induction ls as [|l ls IH]; intros m; simpl.
  - destruct (map_get k m); simpl; [now rewrite app_nil_r | reflexivity].
  - rewrite IH. destruct (map_has l m) eqn:Hhas.
    + rewrite map_get_update. destruct (string_dec l k) as [->|Hne].
      * rewrite String.eqb_refl. destruct (map_get k m); simpl; [|reflexivity].
        now rewrite <- app_assoc.
      * apply String.eqb_neq in Hne. now rewrite Hne.
    + destruct (string_dec l k) as [->|Hne]; [|reflexivity].
      destruct (map_get k m) eqn:Hget; [|reflexivity].
      assert (map_has k m = true) by (apply map_has_get; congruence).
      congruence.
Qed.

Lemma add_pr_keys (pr : PR) (ls : list string) (m : strmap (list PR)) :
  map fst
    (fold_left
       (fun groups label =>
          if map_has label groups
          then map_update label (fun bucket => bucket ++ [pr])%list groups
          else groups) ls m)
  = map fst m.
Proof.
  revert m. induction ls as [|l ls IH]; intros m; simpl; [reflexivity|].
  rewrite IH. destruct (map_has l m); [apply map_update_keys | reflexivity].
Qed.

Lemma groupPRsByLabels_keys (prs : list PR) (gl : list string) :
  map fst (groupPRsByLabels prs gl) = first_occurrences gl.
Proof.
  unfold groupPRsByLabels.
  set (init := fold_left (fun groups label => map_set label [] groups) gl []).
  assert (Hinit : map fst init = first_occurrences gl).
  { subst init. rewrite init_groups_keys. simpl.
    apply forallb_filter_id, forallb_forall. reflexivity. }
  clearbody init. revert init Hinit.
  induction prs as [|pr prs IH]; intros init Hinit; simpl; [assumption|].
  apply IH. now rewrite add_pr_keys.
Qed.

Lemma groupPRsByLabels_get (prs : list PR) (gl : list string) (k : string) :
  map_get k (groupPRsByLabels prs gl)
  = if includes gl k then Some (bucket_of k prs) else None.
Proof.
  unfold groupPRsByLabels.
  set (init := fold_left (fun groups label => map_set label [] groups) gl []).
  assert (Hinit : map_get k init
                  = option_map (fun b => (b ++ bucket_of k [])%list)
                      (if includes gl k then Some [] else None)).
  { subst init. rewrite init_groups_get. simpl. now destruct (includes gl k). }
  clearbody init.
  replace (if includes gl k then Some (bucket_of k prs) else None)
    with (option_map (fun b => (b ++ bucket_of k prs)%list)
            (map_get k init)).
  2:{ rewrite Hinit. destruct (includes gl k); reflexivity. }
  clear Hinit. revert init.
  induction prs as [|pr prs IH]; intros init; simpl.
  - destruct (map_get k init); simpl; [now rewrite app_nil_r | reflexivity].
  - rewrite IH, add_pr_get. destruct (map_get k init); simpl; [|reflexivity].
    unfold bucket_of. simpl. now rewrite <- app_assoc.
Qed.

Lemma bucket_of_In (k : string) (prs : list PR) (pr : PR) :
  In pr (bucket_of k prs) <-> In pr prs /\ In k (labels pr).
Proof.
  unfold bucket_of. rewrite in_flat_map. split.
  - intros [x [Hx Hrep]]. apply repeat_spec in Hrep as Heq. subst x.
    split; [assumption|].
    apply (count_occ_In string_dec).
    destruct (count_occ string_dec (labels pr) k); [contradiction | lia].
  - intros [Hpr Hk]. exists pr. split; [assumption|].
    apply (count_occ_In string_dec) in Hk.
    destruct (count_occ string_dec (labels pr) k); [lia | now left].
Qed.


(** ** Properties of traces *)

Lemma outputs_app (a b : trace) : outputs (a ++ b) = (outputs a ++ outputs b)%list.
Proof.
  induction a as [|e a IH]; simpl; [reflexivity|].
  destruct e; simpl; now rewrite ?IH.
Qed.

Lemma failures_app (a b : trace) : failures (a ++ b) = (failures a ++ failures b)%list.
Proof.
  induction a as [|e a IH]; simpl; [reflexivity|].
  destruct e; simpl; now rewrite ?IH.
Qed.

Lemma files_written_app (a b : trace) :
  files_written (a ++ b) = (files_written a ++ files_written b)%list.
Proof.
  induction a as [|e a IH]; simpl; [reflexivity|].
  destruct e; simpl; now rewrite ?IH.
Qed.

Lemma quiet_outputs (evs : trace) : Forall quiet evs -> outputs evs = [].
Proof.
  induction 1 as [|e evs He _ IH]; simpl; [reflexivity|].
  destruct e; simpl in *; auto; contradiction.
Qed.

Lemma quiet_failures (evs : trace) : Forall quiet evs -> failures evs = [].
Proof.
  induction 1 as [|e evs He _ IH]; simpl; [reflexivity|].
  destruct e; simpl in *; auto; contradiction.
Qed.

Lemma quiet_files_written (evs : trace) : Forall quiet evs -> files_written evs = [].
Proof.
  induction 1 as [|e evs He _ IH]; simpl; [reflexivity|].
  destruct e; simpl in *; auto; contradiction.
Qed.

Lemma fetch_count_app (a b : trace) :
  fetch_count (a ++ b) = (fetch_count a + fetch_count b)%nat.
Proof. unfold fetch_count. now rewrite filter_app, length_app. Qed.

(** Reads the outputs off a trace built by appending. *)
Ltac read_outputs :=
  unfold output;
  repeat first
    [ progress cbn [outputs]
    | rewrite outputs_app
    | match goal with
      | Hq : Forall quiet ?evs |- _ => rewrite (quiet_outputs evs Hq)
      | Ho : outputs ?evs = _ |- _ => rewrite Ho
      end ];
  reflexivity.

(** ** Properties of the two summary stages *)

Section StageFacts.
Variable w : World.

Lemma generateAISummary_empty (key : string) (g : option string) (t : trace) :
  generateAISummary w [] key g t = (Ok NO_CHANGES, t).
Proof. reflexivity. Qed.

Lemma convertToSlackFormat_skipped (md key : string) (t : trace) :
  md = NO_CHANGES \/ md = FAILED_AI_SUMMARY ->
  convertToSlackFormat w md key t = (Ok md, t).
Proof. intros [-> | ->]; reflexivity. Qed.

(** Neither stage throws, and each adds quiet events only. *)
Lemma generateAISummary_total (prs : list PR) (key : string) (g : option string)
    (t : trace) :
  exists s evs,
    generateAISummary w prs key g t = (Ok s, (t ++ evs)%list) /\ Forall quiet evs.
Proof.
  unfold generateAISummary.
  destruct (List.length prs =? 0)%nat.
  { exists NO_CHANGES, []. now rewrite app_nil_r. }
  step_action.
  destruct (fetch w (fetch_count t) _ _) as [resp|e]; simpl.
  2:{ eexists; eexists. rewrite <- app_assoc. split; [reflexivity|].
      repeat constructor. }
  destruct (ok resp); simpl.
  2:{ eexists; eexists. rewrite <- app_assoc. split; [reflexivity|].
      repeat constructor. }
  destruct (resp_json resp) as [[d|]|e]; simpl;
    eexists; eexists; rewrite <- ?app_assoc; (split; [reflexivity|]);
    repeat constructor.
Qed.

Lemma convertToSlackFormat_total (md key : string) (t : trace) :
  exists s evs,
    convertToSlackFormat w md key t = (Ok s, (t ++ evs)%list) /\ Forall quiet evs.
Proof.
  unfold convertToSlackFormat.
  destruct ((md =? NO_CHANGES) || (md =? FAILED_AI_SUMMARY)).
  { exists md, []. now rewrite app_nil_r. }
  step_action.
  destruct (fetch w (fetch_count t) _ _) as [resp|e]; simpl.
  2:{ eexists; eexists. rewrite <- app_assoc. split; [reflexivity|].
      repeat constructor. }
  destruct (ok resp); simpl.
  2:{ eexists; eexists. rewrite <- app_assoc. split; [reflexivity|].
      repeat constructor. }
  destruct (resp_json resp) as [[d|]|e]; simpl;
    eexists; eexists; rewrite <- ?app_assoc; (split; [reflexivity|]);
    repeat constructor.
Qed.

Lemma fetch_count_request (t : trace) (url body : string) (evs : list event) :
  Forall (fun e => is_fetch e = false) evs ->
  fetch_count (t ++ FetchCall url body :: evs) = S (fetch_count t).
Proof.
  intros Hevs. rewrite fetch_count_app. unfold fetch_count at 2. simpl.
  replace (filter is_fetch evs) with (@nil event); [simpl; lia|].
  induction Hevs as [|e evs He _ IH]; simpl; [reflexivity|]. now rewrite He.
Qed.

(** For a group with members the summary stage sends exactly one request. *)
Lemma generateAISummary_calls_once (prs : list PR) (key : string)
    (g : option string) (t : trace) :
  prs <> [] ->
  fetch_count (snd (generateAISummary w prs key g t)) = S (fetch_count t).
Proof.
  intros Hne. unfold generateAISummary.
  destruct prs as [|pr prs]; [congruence|].
  change (List.length (pr :: prs) =? 0)%nat with false. cbv iota.
  step_action.
  destruct (fetch w (fetch_count t) _ _) as [resp|e]; simpl.
  2:{ rewrite <- app_assoc. apply fetch_count_request. repeat constructor. }
  destruct (ok resp); simpl.
  2:{ rewrite <- app_assoc. apply fetch_count_request. repeat constructor. }
  destruct (resp_json resp) as [[d|]|e]; simpl; rewrite <- ?app_assoc;
    apply fetch_count_request; repeat constructor.
Qed.

(** A failed call: the fixed text, one request, one warning. *)
Lemma generateAISummary_failed (prs : list PR) (key : string) (g : option string)
    (t : trace) :
  prs <> [] ->
  (forall url body, fetch_failed (fetch w (fetch_count t) url body)) ->
  exists url body message,
    generateAISummary w prs key g t
    = (Ok FAILED_AI_SUMMARY, (t ++ [FetchCall url body; Warning message])%list).
Proof.
  intros Hne Hfail. unfold generateAISummary.
  destruct prs as [|pr prs]; [congruence|]. simpl List.length. cbv iota beta.
  change (S (List.length prs) =? 0)%nat with false. cbv iota.
  step_action.
  match goal with
  | |- context [fetch w (fetch_count t) ?u ?b] =>
      specialize (Hfail u b); destruct (fetch w (fetch_count t) u b) as [resp|e]
  end; simpl in *.
  - rewrite Hfail. simpl. rewrite <- app_assoc. do 3 eexists. reflexivity.
  - rewrite <- app_assoc. do 3 eexists. reflexivity.
Qed.

Lemma convertToSlackFormat_failed (md key : string) (t : trace) :
  md <> NO_CHANGES -> md <> FAILED_AI_SUMMARY ->
  (forall url body, fetch_failed (fetch w (fetch_count t) url body)) ->
  exists url body message,
    convertToSlackFormat w md key t
    = (Ok FAILED_SLACK_SUMMARY, (t ++ [FetchCall url body; Warning message])%list).
Proof.
  intros H1 H2 Hfail. unfold convertToSlackFormat.
  apply String.eqb_neq in H1, H2. rewrite H1, H2. simpl orb. cbv iota.
  step_action.
  match goal with
  | |- context [fetch w (fetch_count t) ?u ?b] =>
      specialize (Hfail u b); destruct (fetch w (fetch_count t) u b) as [resp|e]
  end; simpl in *.
  - rewrite Hfail. simpl. rewrite <- app_assoc. do 3 eexists. reflexivity.
  - rewrite <- app_assoc. do 3 eexists. reflexivity.
Qed.
End StageFacts.

(** ** Properties of the loop over the groups *)

Section LoopFacts.
Variable w : World.

Lemma summarize_skips_empty (key : string) (prGroups : strmap (list PR))
    (gs : GroupedOutput) (lgs : list LabelGroup) (t : trace) :
  summarize w key prGroups gs lgs t
  = summarize w key (filter (fun g => nonempty (snd g)) prGroups) gs lgs t.
Proof.
  revert gs lgs t.
  induction prGroups as [|[labelName ps] rest IH]; intros gs lgs t; simpl;
    [reflexivity|].
  unfold nonempty at 1. simpl snd.
  destruct (0 <? List.length ps)%nat eqn:E; [|apply IH].
  simpl. rewrite E. unfold bind.
  destruct (core_info _ t) as [[[]|e] t0]; [|reflexivity].
  destruct (generateAISummary w ps key (Some labelName) t0) as [[md|e] t1];
    [|reflexivity].
  destruct (convertToSlackFormat w md key t1) as [[sl|e] t2]; [|reflexivity].
  apply IH.
Qed.

(** The loop never throws; it adds quiet events only, one label group per
    non-empty bucket in the order of the map, and one assignment per label
    group. *)
Lemma summarize_spec (key : string) (prGroups : strmap (list PR))
    (gs : GroupedOutput) (lgs : list LabelGroup) (t : trace) :
  exists added evs,
    summarize w key prGroups gs lgs t
    = (Ok (assign_all added gs, (lgs ++ added)%list), (t ++ evs)%list)
    /\ map group_entry added = filter (fun g => nonempty (snd g)) prGroups
    /\ Forall quiet evs.
Proof.
  revert gs lgs t.
  induction prGroups as [|[labelName ps] rest IH]; intros gs lgs t; simpl.
  - exists [], []. rewrite !app_nil_r. repeat split; constructor.
  - unfold nonempty at 1. simpl snd.
    destruct (0 <? List.length ps)%nat eqn:E.
    + unfold bind, core_info, emit.
      match goal with
      | |- context [generateAISummary w ps key (Some labelName) ?t0] =>
          destruct (generateAISummary_total w ps key (Some labelName) t0)
            as [md [evs1 [-> Hq1]]]
      end.
      match goal with
      | |- context [convertToSlackFormat w md key ?t1] =>
          destruct (convertToSlackFormat_total w md key t1)
            as [sl [evs2 [-> Hq2]]]
      end.
      set (g := {| name := labelName; prs := ps;
                   summary := {| markdown := md; slack := sl |} |}).
      match goal with
      | |- context [summarize w key rest ?gs' ?lgs' ?t2] =>
          destruct (IH gs' lgs' t2) as [added [evs [-> [Hadded Hq]]]]
      end.
      match goal with
      | |- context [((t ++ [?i]) ++ evs1)%list] =>
          exists (g :: added), ([i] ++ evs1 ++ evs2 ++ evs)%list
      end.
      repeat split.
      * f_equal; [f_equal; f_equal; now rewrite <- app_assoc|].
        now rewrite <- !app_assoc.
      * simpl. now rewrite Hadded.
      * apply Forall_app; split; [repeat constructor|].
        apply Forall_app; split; [assumption|].
        apply Forall_app; split; assumption.
    + apply IH.
Qed.
End LoopFacts.

(** ** Properties of the steps of [run] *)

Section StepFacts.
Variable w : World.

(** Step 2 never throws. *)
Lemma previous_release_spec (owner repo : string) (t : trace) :
  exists hp tag date evs,
    previous_release w owner repo t = (Ok (hp, tag, date), (t ++ evs)%list)
    /\ Forall quiet evs
    /\ (forall e, getLatestRelease w owner repo = Throw e ->
          hp = false /\ tag = "" /\ date = "")
    /\ (forall r, getLatestRelease w owner repo = Ok r ->
          if (id r =? 0)%Z then hp = false /\ tag = "" /\ date = ""
          else hp = true /\ tag = tag_name r /\ date = created_at r).
Proof.
  unfold previous_release. step_action.
  destruct (getLatestRelease w owner repo) as [r|e]; simpl.
  - destruct (id r =? 0)%Z eqn:E; simpl.
    + exists false, "", "", [LatestReleaseCall owner repo].
      repeat split; try discriminate; try (repeat constructor).
      all: intros r' [= <-]; rewrite E; auto.
    + eexists true, _, _, [LatestReleaseCall owner repo; Info _].
      rewrite <- app_assoc.
      repeat split; try discriminate; try (repeat constructor).
      all: intros r' [= <-]; rewrite E; auto.
  - eexists false, "", "", [LatestReleaseCall owner repo; Info _].
    rewrite <- app_assoc.
    repeat split; try discriminate; repeat constructor.
Qed.

(** Step 3: the cutoff. *)
Lemma since_date_spec (hp : bool) (date : string) (t : trace) :
  exists evs,
    since_date w hp date t
    = (Ok (if hp then date else toISOString (now w - SEVEN_DAYS_MS)),
       (t ++ evs)%list)
    /\ Forall quiet evs.
Proof.
  unfold since_date. destruct hp; step_action;
    eexists; (split; [reflexivity|]); repeat constructor.
Qed.

(** The upload never throws and sets [artifact-name] once. *)
Lemma upload_spec (artifactName artifactPath artifactDir : string) (t : trace) :
  exists evs,
    upload w artifactName artifactPath artifactDir t = (Ok tt, (t ++ evs)%list)
    /\ outputs evs
       = [("artifact-name",
           match uploadArtifact w artifactName [artifactPath] artifactDir with
           | Ok _ => artifactName
           | Throw _ => ""
           end)]
    /\ failures evs = [] /\ files_written evs = [].
Proof.
  unfold upload. step_action.
  destruct (uploadArtifact w artifactName [artifactPath] artifactDir) as [size|e];
    simpl; repeat rewrite <- app_assoc; eexists; (split; [reflexivity|]);
    repeat split.
Qed.
End StepFacts.

Lemma run_steps_completed (w : World) (L : Locals) (t : trace) :
  run_steps w [] = (Ok L, t) -> completed w L t.
Proof.
  intros H.
  assert (Hrun : run w = t) by (unfold run; now rewrite H).
  unfold run_steps in H.
  destruct (negb (truthy (getInput w "github-token")) || _ || _) eqn:Hin;
    [discriminate|].
  destruct (List.length (parse_labels (getInput w "grouping-labels")) =? 0)%nat
    eqn:Hlab; [discriminate|].
  unfold bind at 1 in H.
  destruct (context_repo w) as [[owner repo]|e] eqn:Hctx; [|discriminate].
  unfold bind, core_info, core_setOutput, emit in H.
  match type of H with
  | context [previous_release w owner repo ?t0] =>
      destruct (previous_release_spec w owner repo t0)
        as [hp [tag [date [evs2 [E2 [Hq2 [Hthrow Hok]]]]]]];
      rewrite E2 in H
  end.
  match type of H with
  | context [since_date w hp date ?t0] =>
      destruct (since_date_spec w hp date t0) as [evs3 [E3 Hq3]];
      rewrite E3 in H
  end.
  unfold call at 1 in H.
  destruct (pulls_list w owner repo) as [allPRs|e] eqn:Hpulls; [|discriminate].
  match type of H with
  | context [summarize w ?key ?g empty_obj [] ?t0] =>
      destruct (summarize_spec w key g empty_obj [] t0)
        as [added [evs4 [E4 [Hadded Hq4]]]];
      rewrite E4 in H
  end.
  unfold call at 1 in H.
  destruct (mkdirSync w ARTIFACT_DIR) as [[]|e]; [|discriminate].
  unfold call at 1 in H.
  match type of H with
  | context [writeFileSync w ARTIFACT_PATH ?d] =>
      destruct (writeFileSync w ARTIFACT_PATH d) as [[]|e]; [|discriminate]
  end.
  match type of H with
  | context [upload w ?n ?p ?d ?t0] =>
      destruct (upload_spec w n p d t0) as [evs5 [E5 [Ho5 [Hf5 Hw5]]]];
      rewrite E5 in H
  end.
  unfold ret in H. injection H as HL Ht. subst L t.
  constructor; simpl.
  - exact Hrun.
  - rewrite !failures_app, Hf5, (quiet_failures _ Hq2), (quiet_failures _ Hq3),
      (quiet_failures _ Hq4). reflexivity.
  - reflexivity.
  - reflexivity.
  - exists owner, repo. split; [assumption|]. split; [assumption|].
    intros e He. exact (Hthrow e He).
  - reflexivity.
  - reflexivity.
  - reflexivity.
  - exact Hadded.
  - reflexivity.
  - reflexivity.
  - reflexivity.
  - rewrite !files_written_app, Hw5, (quiet_files_written _ Hq2),
      (quiet_files_written _ Hq3), (quiet_files_written _ Hq4). reflexivity.
  - do 3 eexists.
    rewrite !outputs_app, Ho5, (quiet_outputs _ Hq2), (quiet_outputs _ Hq3),
      (quiet_outputs _ Hq4). reflexivity.
Qed.

(** ** The filter (step 3) *)

Lemma string_gt_leb (a b : string) :
  (a <=? b)%string = false <-> (b <? a)%string = true.
Proof.
  unfold String.leb, String.ltb. rewrite (String.compare_antisym b a).
  destruct (String.compare a b); simpl; split; congruence.
Qed.

Lemma string_ltb_nonempty (a b : string) : (a <? b)%string = true -> b <> "".
Proof.
  unfold String.ltb. intros H ->. destruct a; discriminate.
Qed.

Lemma is_relevant_spec (sinceDate : string) (groupingLabels : list string)
    (requireFeatureLabel : bool) (pr : RawPR) :
  is_relevant sinceDate groupingLabels requireFeatureLabel pr = true
  <-> (exists merged,
          raw_merged_at pr = Some merged /\ merged <> ""
          /\ (sinceDate <? merged)%string = true)
      /\ (exists l, In l (label_names pr) /\ In l groupingLabels)
      /\ (requireFeatureLabel = true -> In "feature" (label_names pr)).
Proof.
  unfold is_relevant.
  assert (Hgrp : existsb (fun groupLabel => includes (label_names pr) groupLabel)
                   groupingLabels = true
                 <-> exists l, In l (label_names pr) /\ In l groupingLabels).
  { rewrite existsb_exists. split.
    - intros [l [Hl Hin]]. apply includes_In in Hin. eauto.
    - intros [l [Hl Hin]]. exists l. split; [assumption | now apply includes_In]. }
  destruct (raw_merged_at pr) as [merged|].
  2:{ split; [discriminate|]. intros [[m [Hm _]] _]. discriminate. }
  destruct (merged <=? sinceDate)%string eqn:Hle.
  { split; [discriminate|]. intros [[m [[= <-] [_ Hlt]]] _].
    apply string_gt_leb in Hlt. congruence. }
  apply string_gt_leb in Hle.
  assert (Hdate : exists m, Some merged = Some m /\ m <> ""
                            /\ (sinceDate <? m)%string = true).
  { exists merged. repeat split; [|assumption]. now apply string_ltb_nonempty in Hle. }
  destruct requireFeatureLabel.
  - rewrite andb_true_iff, includes_In, Hgrp. split.
    + intros [Hf Hg]. repeat split; auto.
    + intros [_ [Hg Hf]]. split; auto.
  - rewrite Hgrp. split.
    + intros Hg. repeat split; [assumption..|discriminate].
    + tauto.
Qed.

(** ** The grouping, in closed form *)

Lemma strmap_by_keys {V : Type} (f : string -> V) (m : strmap V) :
  NoDup (map fst m) ->
  (forall k, In k (map fst m) -> map_get k m = Some (f k)) ->
  m = map (fun k => (k, f k)) (map fst m).
Proof.
  induction m as [|[k v] m IH]; simpl; intros Hnd Hget; [reflexivity|].
  inversion Hnd as [|? ? Hnotin Hnd']; subst.
  f_equal.
  - specialize (Hget k (or_introl eq_refl)). rewrite String.eqb_refl in Hget.
    congruence.
  - apply IH; [assumption|]. intros k' Hk'.
    specialize (Hget k' (or_intror Hk')).
    destruct (k =? k') eqn:E; [|assumption].
    apply String.eqb_eq in E. subst k'. contradiction.
Qed.

(** The map built by [groupPRsByLabels]: one entry per distinct grouping
    label, in the order of first occurrence, holding the bucket of that
    label. *)
Lemma groupPRsByLabels_eq (prs : list PR) (gl : list string) :
  groupPRsByLabels prs gl
  = map (fun k => (k, bucket_of k prs)) (first_occurrences gl).
Proof.
  rewrite <- (groupPRsByLabels_keys prs gl).
  apply strmap_by_keys.
  - rewrite groupPRsByLabels_keys. apply first_occurrences_NoDup.
  - intros k Hk. rewrite groupPRsByLabels_keys, first_occurrences_In in Hk.
    rewrite groupPRsByLabels_get.
    apply includes_In in Hk. now rewrite Hk.
Qed.

Lemma nonempty_iff {A : Type} (l : list A) : nonempty l = true <-> l <> [].
Proof.
  unfold nonempty. destruct l; [cbv | change (true = true <-> a :: l <> [])];
    split; congruence.
Qed.

(** The label groups of a completed run are the non-empty buckets. *)
Lemma completed_label_groups (w : World) (L : Locals) (t : trace) :
  completed w L t ->
  map group_entry (loc_labelGroups L)
  = filter (fun g => nonempty (snd g))
      (map (fun k => (k, bucket_of k (loc_relevantPRs L)))
         (first_occurrences (loc_groupingLabels L))).
Proof.
  intros C.
  now rewrite (cr_label_groups _ _ _ C), (cr_groups _ _ _ C), groupPRsByLabels_eq.
Qed.

Lemma completed_label_group (w : World) (L : Locals) (t : trace) (g : LabelGroup) :
  completed w L t ->
  In g (loc_labelGroups L) ->
  In (name g) (loc_groupingLabels L)
  /\ prs g = bucket_of (name g) (loc_relevantPRs L)
  /\ prs g <> [].
Proof.
  intros C Hg.
  apply (in_map group_entry) in Hg.
  rewrite (completed_label_groups _ _ _ C), filter_In, in_map_iff in Hg.
  destruct Hg as [[k [Hk Hin]] Hne]. unfold group_entry in Hk.
  injection Hk as Hname Hprs. subst k.
  rewrite first_occurrences_In in Hin.
  repeat split; [assumption | congruence |].
  now apply nonempty_iff.
Qed.

Lemma completed_names_NoDup (w : World) (L : Locals) (t : trace) :
  completed w L t -> NoDup (map name (loc_labelGroups L)).
Proof.
  intros C.
  assert (H : map name (loc_labelGroups L)
              = map fst (map group_entry (loc_labelGroups L))).
  { rewrite map_map. reflexivity. }
  rewrite H, (completed_label_groups _ _ _ C).
  set (p := fun g : string * list PR => nonempty (snd g)).
  set (m := map _ (first_occurrences _)).
  assert (Hm : NoDup (map fst m)).
  { subst m. rewrite map_map. simpl. rewrite map_id.
    apply first_occurrences_NoDup. }
  clearbody m. induction m as [|[k v] m IH]; simpl; [constructor|].
  inversion Hm as [|? ? Hnotin Hnd]; subst.
  destruct (p (k, v)); simpl; [|now apply IH].
  constructor; [|now apply IH].
  intros Hin. apply Hnotin. apply in_map_iff in Hin.
  destruct Hin as [[k' v'] [Hk Hin]]. simpl in Hk. subst k'.
  apply filter_In in Hin. destruct Hin as [Hin _].
  now apply (in_map fst) in Hin.
Qed.

(** ** The claims about the grouping *)

(** C2. Grouping is non-exclusive and order-sensitive: the map has one bucket
    per configured label, in configuration order; a PR is in the bucket of
    every grouping label it carries; the buckets without members take no
    part in the summary generation and are not among the groups of the
    artifact. *)
Theorem grouping_non_exclusive (filtered : list PR) (gl : list string) :
  let G := groupPRsByLabels filtered gl in
  map fst G = first_occurrences gl
  /\ (NoDup gl -> map fst G = gl)
  /\ (forall k, In k gl ->
        exists b, map_get k G = Some b /\ In (k, b) G
                  /\ forall pr, In pr b <-> In pr filtered /\ In k (labels pr))
  /\ (forall w key gs lgs t,
        summarize w key G gs lgs t
        = summarize w key (filter (fun g => nonempty (snd g)) G) gs lgs t)
  /\ (forall w key gs lgs t,
        exists added evs,
          summarize w key G gs lgs t
          = (Ok (assign_all added gs, (lgs ++ added)%list), (t ++ evs)%list)
          /\ map group_entry added = filter (fun g => nonempty (snd g)) G)
  /\ (forall w L t,
        run_steps w [] = (Ok L, t) ->
        loc_relevantPRs L = filtered -> loc_groupingLabels L = gl ->
        loc_prGroups L = G
        /\ map group_entry (groups (loc_artifactData L))
           = filter (fun g => nonempty (snd g)) G
        /\ files_written t
           = [(ARTIFACT_PATH,
               stringify_indent2 (json_of_ArtifactData (loc_artifactData L)))]).
Proof.
  intros G. subst G. repeat split.
  - apply groupPRsByLabels_keys.
  - intros Hnd. rewrite groupPRsByLabels_keys. now apply first_occurrences_id.
  - intros k Hk. exists (bucket_of k filtered).
    assert (Hget : map_get k (groupPRsByLabels filtered gl)
                   = Some (bucket_of k filtered)).
    { rewrite groupPRsByLabels_get. apply includes_In in Hk. now rewrite Hk. }
    split; [assumption|]. split; [now apply map_get_In|].
    intros pr. apply bucket_of_In.
  - intros. apply summarize_skips_empty.
  - intros w key gs lgs t.
    destruct (summarize_spec w key (groupPRsByLabels filtered gl) gs lgs t)
      as [added [evs [E [Hadded _]]]].
    exists added, evs. split; assumption.
  - apply run_steps_completed in H. rewrite (cr_groups _ _ _ H). congruence.
  - apply run_steps_completed in H.
    rewrite (cr_artifact_groups _ _ _ H), (cr_label_groups _ _ _ H),
      (cr_groups _ _ _ H).
    congruence.
  - apply run_steps_completed in H. apply (cr_file _ _ _ H).
Qed.


(** ** The claims about the summary stages *)

(** C3. For the empty PR list the summary generator returns the sentinel
    text, the chat-format stage returns it unchanged, and neither stage adds
    an event to the trace: no request is sent to the endpoint, whereas a
    list with members costs the summary stage one request. *)
Theorem empty_group_sentinel (w : World) (key : string) (g : option string)
    (t : trace) :
  generateAISummary w [] key g t
  = (Ok "No new changes were released in this period.", t)
  /\ convertToSlackFormat w "No new changes were released in this period." key t
     = (Ok "No new changes were released in this period.", t)
  /\ (let both :=
        markdown <- generateAISummary w [] key g ;;
        chat <- convertToSlackFormat w markdown key ;;
        ret {| markdown := markdown; slack := chat |} in
      both t
      = (Ok {| markdown := "No new changes were released in this period.";
               slack := "No new changes were released in this period." |}, t)
      /\ fetch_count (snd (both t)) = fetch_count t)
  /\ (forall prs,
        prs <> [] ->
        fetch_count (snd (generateAISummary w prs key g t)) = S (fetch_count t)).
Proof.
  split; [apply generateAISummary_empty|].
  split; [apply convertToSlackFormat_skipped; now left|].
  split.
  - unfold bind. rewrite generateAISummary_empty.
    rewrite convertToSlackFormat_skipped by now left.
    split; reflexivity.
  - intros prs Hne. now apply generateAISummary_calls_once.
Qed.

(** C7. When the endpoint answers with a non-2xx status or the transport
    fails, the summary stage for a non-empty group returns "Failed to
    generate AI summary" and the chat-format stage, when it calls the
    endpoint, "Failed to generate Slack summary"; each logs one warning and
    returns normally.  The loop over the groups never throws, whatever the
    endpoint does. *)
Theorem endpoint_failure_is_soft (w : World) (t : trace) :
  (forall url body, fetch_failed (fetch w (fetch_count t) url body)) ->
  (forall prs key g,
     prs <> [] ->
     exists url body message,
       generateAISummary w prs key g t
       = (Ok "Failed to generate AI summary",
          (t ++ [FetchCall url body; Warning message])%list))
  /\ (forall md key,
        md <> NO_CHANGES -> md <> FAILED_AI_SUMMARY ->
        exists url body message,
          convertToSlackFormat w md key t
          = (Ok "Failed to generate Slack summary",
             (t ++ [FetchCall url body; Warning message])%list))
  /\ (forall key prGroups gs lgs,
        exists r t', summarize w key prGroups gs lgs t = (Ok r, t')
                     /\ failures t' = failures t).
Proof.
  intros Hfail. repeat split.
  - intros prs key g Hne. now apply generateAISummary_failed.
  - intros md key H1 H2. now apply convertToSlackFormat_failed.
  - intros key prGroups gs lgs.
    destruct (summarize_spec w key prGroups gs lgs t)
      as [added [evs [E [_ Hq]]]].
    do 2 eexists. split; [exact E|].
    now rewrite failures_app, (quiet_failures _ Hq), app_nil_r.
Qed.

(** ** The claims about the inputs and the outputs *)

Lemma parse_labels_blank (input : string) :
  (forall entry, In entry (split "," input) -> trim entry = "") ->
  parse_labels input = [].
Proof.
  unfold parse_labels. induction (split "," input) as [|e l IH]; simpl; intros H;
    [reflexivity|].
  rewrite (H e (or_introl eq_refl)). simpl. apply IH. intros e' He'.
  apply H. now right.
Qed.

Lemma truthy_false (s : string) : truthy s = false <-> s = "".
Proof.
  unfold truthy. rewrite negb_false_iff. apply String.eqb_eq.
Qed.

(** C5. When a required input is empty, or the label list has no non-blank
    entry, the run consists of the terminal failure signal alone: no output
    is set; for a missing input the message contains "Missing required
    inputs". *)
Theorem missing_inputs_fail (w : World) :
  missing_input w \/ no_label_entry w ->
  exists message,
    run w = [SetFailed message]
    /\ outputs (run w) = []
    /\ (missing_input w -> contains "Missing required inputs" message)
    /\ (~ missing_input w -> message = "At least one grouping label must be provided").
Proof.
  intros H. unfold run, run_steps.
  destruct (negb (truthy (getInput w "github-token"))
            || negb (truthy (getInput w "gemini-api-key"))
            || negb (truthy (getInput w "grouping-labels"))) eqn:Hin.
  - eexists. repeat split.
    + intros _. exists "", ": github-token, gemini-api-key, or grouping-labels".
      reflexivity.
    + intros Hnot. exfalso. apply Hnot.
      rewrite !orb_true_iff, !negb_true_iff, !truthy_false in Hin.
      unfold missing_input. tauto.
  - assert (Hnot : ~ missing_input w).
    { rewrite !orb_false_iff, !negb_false_iff in Hin.
      destruct Hin as [[H1 H2] H3]. unfold missing_input.
      intros [E|[E|E]]; apply truthy_false in E; congruence. }
    destruct H as [H|H]; [contradiction|].
    rewrite (parse_labels_blank _ H). simpl.
    eexists. repeat split. intros Hm. contradiction.
Qed.




(** The failure signal of the outer [catch] adds no output. *)
Lemma run_outputs (w : World) (res : result Locals) (t : trace) :
  run_steps w [] = (res, t) -> outputs (run w) = outputs t.
Proof.
  intros E. unfold run. rewrite E.
  destruct res as [L|[n m|r]]; [reflexivity| |];
    rewrite outputs_app; simpl; apply app_nil_r.
Qed.

Lemma run_completed (w : World) (L : Locals) (t : trace) :
  run_steps w [] = (Ok L, t) -> run w = t.
Proof. intros E. unfold run. now rewrite E. Qed.

(** Once the inputs are valid and the repository is known, the run gets past
    the release lookup whatever its outcome, and reaches the end when the
    listing and the file system do not fail. *)
Lemma run_steps_past_release (w : World) (owner repo : string)
    (res : result Locals) (t : trace) :
  valid_inputs w ->
  context_repo w = Ok (owner, repo) ->
  run_steps w [] = (res, t) ->
  exists hp tag date,
    (forall e, getLatestRelease w owner repo = Throw e ->
       hp = false /\ tag = "" /\ date = "")
    /\ output "has-previous-release" t = Some (string_of_bool hp)
    /\ output "previous-tag" t = Some tag
    /\ output "previous-release-date" t = Some date
    /\ (forall allPRs,
          pulls_list w owner repo = Ok allPRs ->
          mkdirSync w ARTIFACT_DIR = Ok tt ->
          (forall data, writeFileSync w ARTIFACT_PATH data = Ok tt) ->
          exists L, res = Ok L).
Proof.
  intros [H1 [H2 [H3 H4]]] Hctx E.
  unfold run_steps, truthy in E.
  apply String.eqb_neq in H1, H2, H3. rewrite H1, H2, H3 in E.
  cbn [negb orb] in E.
  destruct (parse_labels (getInput w "grouping-labels")) as [|l0 ls] eqn:Hlabels;
    [congruence|].
  change (List.length (l0 :: ls) =? 0)%nat with false in E. cbv iota in E.
  rewrite <- Hlabels in E.
  unfold bind at 1 in E. rewrite Hctx in E.
  unfold bind, core_info, core_setOutput, emit in E.
  match type of E with
  | context [previous_release w owner repo ?t0] =>
      destruct (previous_release_spec w owner repo t0)
        as [hp [tag [date [evs2 [E2 [Hq2 [Hthrow _]]]]]]];
      rewrite E2 in E
  end.
  exists hp, tag, date. split; [exact Hthrow|].
  match type of E with
  | context [since_date w hp date ?t0] =>
      destruct (since_date_spec w hp date t0) as [evs3 [E3 Hq3]];
      rewrite E3 in E
  end.
  unfold call at 1 in E.
  destruct (pulls_list w owner repo) as [allPRs|e].
  2:{ injection E as <- <-. repeat split; try read_outputs.
      intros ? Hp. discriminate Hp. }
  match type of E with
  | context [summarize w ?key ?g empty_obj [] ?t0] =>
      destruct (summarize_spec w key g empty_obj [] t0)
        as [added [evs4 [E4 [_ Hq4]]]];
      rewrite E4 in E
  end.
  unfold call at 1 in E.
  destruct (mkdirSync w ARTIFACT_DIR) as [[]|e].
  2:{ injection E as <- <-. repeat split; try read_outputs.
      intros ? _ Hm. discriminate Hm. }
  unfold call at 1 in E.
  match type of E with
  | context [writeFileSync w ARTIFACT_PATH ?d] =>
      destruct (writeFileSync w ARTIFACT_PATH d) as [[]|e] eqn:Hwrite
  end.
  2:{ injection E as <- <-. repeat split; try read_outputs.
      intros ? _ _ Hw. rewrite Hw in Hwrite. discriminate. }
  match type of E with
  | context [upload w ?n ?p ?d ?t0] =>
      destruct (upload_spec w n p d t0) as [evs5 [E5 [Ho5 _]]];
      rewrite E5 in E
  end.
  unfold ret in E. injection E as <- <-. repeat split; try read_outputs.
  intros allPRs' _ _ _. eexists. reflexivity.
Qed.

(** C8. When the latest-release lookup fails, the run goes on:
    [has-previous-release] is "false", [previous-tag] and
    [previous-release-date] are empty, the lookup is not what fails the run,
    and the cutoff of the filter is the current time minus seven days. *)
Theorem no_previous_release_fallback (w : World) (owner repo : string) (e : thrown) :
  valid_inputs w ->
  context_repo w = Ok (owner, repo) ->
  getLatestRelease w owner repo = Throw e ->
  output "has-previous-release" (run w) = Some "false"
  /\ output "previous-tag" (run w) = Some ""
  /\ output "previous-release-date" (run w) = Some ""
  /\ (forall allPRs,
        pulls_list w owner repo = Ok allPRs ->
        mkdirSync w ARTIFACT_DIR = Ok tt ->
        (forall data, writeFileSync w ARTIFACT_PATH data = Ok tt) ->
        exists L, run_steps w [] = (Ok L, run w) /\ failures (run w) = [])
  /\ (forall L t,
        run_steps w [] = (Ok L, t) ->
        loc_hasPreviousRelease L = false
        /\ loc_sinceDate L = toISOString (now w - 7 * 24 * 60 * 60 * 1000)
        /\ loc_relevantPRs L
           = relevant (toISOString (now w - 7 * 24 * 60 * 60 * 1000))
               (loc_groupingLabels L) (loc_requireFeatureLabel L) (loc_allPRs L)).
Proof.
  intros Hvalid Hctx Hrel.
  destruct (run_steps w []) as [res t] eqn:E.
  destruct (run_steps_past_release w owner repo res t Hvalid Hctx E)
    as [hp [tag [date [Hthrow [Ho1 [Ho2 [Ho3 Hend]]]]]]].
  destruct (Hthrow e Hrel) as [-> [-> ->]].
  unfold output in *. rewrite (run_outputs _ _ _ E).
  repeat split; try assumption.
  - intros allPRs Hp Hm Hw. destruct (Hend allPRs Hp Hm Hw) as [L ->].
    exists L. rewrite (run_completed _ _ _ E). split; [reflexivity|].
    apply (cr_failures _ _ _ (run_steps_completed _ _ _ E)).
  - injection H as -> ->. apply run_steps_completed in E.
    destruct (cr_collaborators _ _ _ E) as [owner' [repo' [Hctx' [_ Hno]]]].
    rewrite Hctx in Hctx'. injection Hctx' as <- <-.
    now destruct (Hno e Hrel).
  - injection H as -> ->. apply run_steps_completed in E.
    destruct (cr_collaborators _ _ _ E) as [owner' [repo' [Hctx' [_ Hno]]]].
    rewrite Hctx in Hctx'. injection Hctx' as <- <-.
    destruct (Hno e Hrel) as [Hhp _].
    rewrite (cr_since _ _ _ E), Hhp. reflexivity.
  - injection H as -> ->. apply run_steps_completed in E.
    destruct (cr_collaborators _ _ _ E) as [owner' [repo' [Hctx' [_ Hno]]]].
    rewrite Hctx in Hctx'. injection Hctx' as <- <-.
    destruct (Hno e Hrel) as [Hhp _].
    rewrite (cr_relevant _ _ _ E), (cr_since _ _ _ E), Hhp. reflexivity.
Qed.

(** ** The placeholder texts and the chat-format stage *)

(** The summary stage turns an answer without candidates into the text
    "Failed to generate summary". *)
Lemma generateAISummary_absent_structure (w : World) (prs : list PR)
    (key : string) (g : option string) (t : trace) :
  prs <> [] ->
  (forall url body, fetch w (fetch_count t) url body = Ok empty_answer) ->
  exists url body,
    generateAISummary w prs key g t
    = (Ok "Failed to generate summary", (t ++ [FetchCall url body])%list).
Proof.
  intros Hne Hfetch. unfold generateAISummary.
  destruct prs as [|pr prs]; [congruence|].
  change (List.length (pr :: prs) =? 0)%nat with false. cbv iota.
  unfold do_fetch, read_text, bind, try_catch, call, ret, throw.
  rewrite Hfetch. simpl. do 2 eexists. reflexivity.
Qed.

(** C4, on the code: the chat-format stage does not recognise the text
    "Failed to generate summary".  It sends it to the endpoint inside the
    reformatting instruction and returns whatever non-empty text the endpoint
    answers, instead of returning its input unchanged without a call. *)
Theorem failed_summary_is_sent_for_reformatting (w : World) (key : string)
    (t : trace) :
  let body := request_body (SLACK_INSTRUCTION ++ nl ++ nl ++ "Failed to generate summary") in
  exists r evs,
    convertToSlackFormat w "Failed to generate summary" key t
    = (Ok r, (t ++ FetchCall (GEMINI_URL ++ key) body :: evs)%list)
    /\ fetch_count (t ++ FetchCall (GEMINI_URL ++ key) body :: evs)
       = S (fetch_count t)
    /\ (forall reply,
          reply <> "" ->
          fetch w (fetch_count t) (GEMINI_URL ++ key) body = Ok (answer reply) ->
          r = reply).
Proof.
  intros body. unfold convertToSlackFormat.
  change (("Failed to generate summary" =? NO_CHANGES)
          || ("Failed to generate summary" =? FAILED_AI_SUMMARY)) with false.
  cbv iota.
  unfold do_fetch, read_text, bind, try_catch, call, ret, throw, core_warning, emit.
  fold body.
  pose proof (fetch_count_request t (GEMINI_URL ++ key) body) as Hcount.
  destruct (fetch w (fetch_count t) (GEMINI_URL ++ key) body) as [resp|e] eqn:Hf.
  2:{ do 2 eexists. rewrite <- app_assoc. split; [reflexivity|].
      split; [apply Hcount; repeat constructor | discriminate]. }
  destruct (ok resp) eqn:Hok; simpl.
  2:{ do 2 eexists. rewrite <- app_assoc. split; [reflexivity|].
      split; [apply Hcount; repeat constructor|].
      intros reply _ [= ->]. discriminate. }
  destruct (resp_json resp) as [[d|]|e] eqn:Hjson; simpl.
  - do 2 eexists. split; [reflexivity|].
    split; [apply Hcount; constructor|].
    intros reply Hne [= ->]. simpl in Hjson. injection Hjson as <-. simpl.
    unfold or_else, truthy. apply String.eqb_neq in Hne. now rewrite Hne.
  - do 2 eexists. rewrite <- app_assoc. split; [reflexivity|].
    split; [apply Hcount; repeat constructor|].
    intros reply _ [= ->]. discriminate.
  - do 2 eexists. rewrite <- app_assoc. split; [reflexivity|].
    split; [apply Hcount; repeat constructor|].
    intros reply _ [= ->]. discriminate.
Qed.

(** ** The object of grouped summaries *)

Lemma get_own_map_get {V : Type} (k : string) (o : obj V) : get_own k o = map_get k o.
Proof. induction o as [|[k' v] o IH]; simpl; [reflexivity | now rewrite IH]. Qed.

Lemma define_fresh {V : Type} (k : string) (v : V) (o : obj V) :
  ~ In k (map fst o) -> define k v o = (o ++ [(k, v)])%list.
Proof.
  induction o as [|[k' v'] o IH]; simpl; intros Hk; [reflexivity|].
  destruct (k' =? k) eqn:E.
  - apply String.eqb_eq in E. tauto.
  - rewrite IH; tauto.
Qed.

(** The own properties after the assignments, in the order of creation: one
    per label group, except for a group named [__proto__]. *)
Lemma assign_all_fresh (added : list LabelGroup) (o : GroupedOutput) :
  NoDup (map name added) ->
  (forall g, In g added -> ~ In (name g) (map fst o)) ->
  assign_all added o = (o ++ map summary_entry (filter not_proto added))%list.
Proof.
  revert o. induction added as [|g added IH]; intros o Hnd Hfresh; simpl.
  - now rewrite app_nil_r.
  - inversion Hnd as [|? ? Hnotin Hnd']; subst.
    unfold set, not_proto at 1. destruct (name g =? "__proto__") eqn:E; simpl.
    + apply IH; [assumption|]. intros g' Hg'. apply Hfresh. now right.
    + rewrite define_fresh by (apply Hfresh; now left).
      rewrite IH; [now rewrite <- app_assoc | assumption |].
      intros g' Hg'. rewrite map_app, in_app_iff. simpl.
      intros [H|[H|[]]].
      * apply (Hfresh g'); [now right | assumption].
      * apply Hnotin. rewrite H. now apply in_map.
Qed.

Lemma insert_index_In {V : Type} (n : N) (kv x : string * V)
    (l : list (N * (string * V))) :
  In x (map snd (insert_index V n kv l)) <-> x = kv \/ In x (map snd l).
Proof.
  induction l as [|[m kv'] l IH]; simpl.
  - split; intros [H|H]; auto.
  - destruct (n <? m)%N; simpl; [split; intros [H|H]; auto|].
    rewrite IH. split; intros H; intuition auto.
Qed.

Lemma index_entries_In {V : Type} (o : obj V) (x : string * V) :
  In x (map snd (index_entries V o)) <-> In x o /\ array_index (fst x) <> None.
Proof.
  induction o as [|kv o IH]; simpl; [tauto|].
  destruct (array_index (fst kv)) as [n|] eqn:E.
  - rewrite insert_index_In, IH. split.
    + intros [->|[H1 H2]]; [split; [now left | congruence] | tauto].
    + intros [[H|H] Hx]; [left; now symmetry | tauto].
  - rewrite IH. split; [tauto|]. intros [[H|H] Hx]; [subst; congruence | tauto].
Qed.

(** The enumeration order permutes the own properties. *)
Lemma entries_In {V : Type} (o : obj V) (x : string * V) :
  In x (entries o) <-> In x o.
Proof.
  unfold entries, named_entries.
  rewrite in_app_iff, index_entries_In, filter_In.
  destruct (array_index (fst x)); split; intros H; try tauto.
  left. split; [tauto | discriminate].
Qed.

(** Without array-index keys the enumeration order is the order of
    creation. *)
Lemma entries_named {V : Type} (o : obj V) :
  (forall k, In k (map fst o) -> array_index k = None) -> entries o = o.
Proof.
  intros H. unfold entries, named_entries.
  assert (Hidx : index_entries V o = []).
  { induction o as [|kv o IH]; simpl; [reflexivity|].
    rewrite (H (fst kv)) by now left. apply IH. intros k Hk. apply H. now right. }
  rewrite Hidx. simpl. apply forallb_filter_id, forallb_forall.
  intros kv Hkv. rewrite (H (fst kv)); [reflexivity | now apply in_map].
Qed.

Lemma completed_raw_summaries (w : World) (L : Locals) (t : trace) :
  completed w L t ->
  loc_groupedSummaries L
  = map summary_entry (filter not_proto (loc_labelGroups L)).
Proof.
  intros C. pose proof (completed_names_NoDup _ _ _ C) as Hnd.
  rewrite (cr_summaries _ _ _ C).
  rewrite assign_all_fresh; [reflexivity | assumption | intros g _ []].
Qed.

Lemma filter_not_proto_names (lgs : list LabelGroup) :
  map fst (map summary_entry (filter not_proto lgs))
  = filter (fun k => negb (k =? "__proto__")) (map name lgs).
Proof.
  induction lgs as [|g lgs IH]; simpl; [reflexivity|].
  unfold not_proto at 1. destruct (name g =? "__proto__"); simpl; now rewrite IH.
Qed.

Lemma completed_agree (w : World) (L : Locals) (t : trace) :
  completed w L t -> group_outputs_agree L t.
Proof.
  intros C. destruct (cr_outputs _ _ _ C) as [rd [rt [an Hout]]].
  pose proof (completed_raw_summaries _ _ _ C) as Hraw.
  pose proof (completed_names_NoDup _ _ _ C) as Hnd.
  unfold group_outputs_agree. rewrite (cr_artifact_groups _ _ _ C).
  split; [unfold output; rewrite Hout; reflexivity|].
  split; [apply (cr_file _ _ _ C)|].
  split; [unfold output; rewrite Hout; reflexivity|].
  split.
  - intros k. unfold keys. rewrite in_map_iff. split.
    + intros [[k' v] [Hk Hin]]. simpl in Hk. subst k'.
      apply (proj1 (entries_In _ _)) in Hin.
      apply (in_map fst) in Hin. simpl in Hin.
      rewrite Hraw, filter_not_proto_names, filter_In in Hin.
      now rewrite negb_true_iff, String.eqb_neq in Hin.
    + intros [Hin Hne].
      assert (Hk : In k (map fst (loc_groupedSummaries L))).
      { rewrite Hraw, filter_not_proto_names, filter_In.
        now rewrite negb_true_iff, String.eqb_neq. }
      apply in_map_iff in Hk. destruct Hk as [kv [Hk Hkv]].
      exists kv. split; [assumption | now apply (proj2 (entries_In _ _))].
  - intros g Hg Hne. rewrite get_own_map_get. apply map_In_get.
    + rewrite Hraw, filter_not_proto_names. now apply NoDup_filter.
    + rewrite Hraw. change (name g, summary g) with (summary_entry g).
      apply in_map, filter_In. split; [assumption|].
      unfold not_proto. now apply negb_true_iff, String.eqb_neq.
Qed.

(** ** The consistency of the group-level outputs *)

(** C10, counterexample.  With the grouping labels [b,1] and one pull request
    under each, [label-groups] and the artifact list the groups as b, 1,
    while the grouped-summaries object enumerates its keys as 1, b. *)
Lemma numeric_label_reorders_keys :
  exists L t,
    run_steps Cases.numeric_label [] = (Ok L, t)
    /\ output "label-groups" t = Some "b,1"
    /\ map name (groups (loc_artifactData L)) = ["b"; "1"]
    /\ keys (loc_groupedSummaries L) = ["1"; "b"]
    /\ ~ group_outputs_consistent L t.
Proof.
  eexists. eexists. split; [vm_compute; reflexivity|].
  split; [vm_compute; reflexivity|].
  split; [vm_compute; reflexivity|].
  split; [vm_compute; reflexivity|].
  intros [_ [_ [_ [H _]]]]. vm_compute in H. discriminate H.
Qed.

(** C10, amended.  On a completed run the names of [label-groups] are the
    names of the artifact groups, in the same order; the keys of the
    grouped-summaries object are those same names ([__proto__] apart), each
    with the summary pair of its artifact group; and the keys come in that
    same order when no group name is an array index or [__proto__]. *)
Theorem group_outputs_consistent_plain_names (w : World) (L : Locals) (t : trace) :
  run_steps w [] = (Ok L, t) ->
  group_outputs_agree L t
  /\ ((forall g, In g (groups (loc_artifactData L)) -> plain_name (name g)) ->
      group_outputs_consistent L t).
Proof.
  intros H. apply run_steps_completed in H.
  pose proof (completed_agree _ _ _ H) as Hagree.
  split; [assumption|]. intros Hplain.
  destruct Hagree as [Ho [Hf [Hl [_ Hget]]]].
  unfold group_outputs_consistent.
  repeat split; try assumption.
  - rewrite (cr_artifact_groups _ _ _ H) in *.
    unfold keys. rewrite entries_named.
    + rewrite (completed_raw_summaries _ _ _ H), filter_not_proto_names.
      apply forallb_filter_id, forallb_forall. intros k Hk.
      apply in_map_iff in Hk. destruct Hk as [g [<- Hg]].
      apply negb_true_iff, String.eqb_neq. apply (Hplain g Hg).
    + intros k Hk.
      rewrite (completed_raw_summaries _ _ _ H), filter_not_proto_names in Hk.
      apply filter_In in Hk. destruct Hk as [Hk _].
      apply in_map_iff in Hk. destruct Hk as [g [<- Hg]]. apply (Hplain g Hg).
  - intros g Hg. apply Hget; [assumption|]. apply (Hplain g Hg).
Qed.

(** ** The claims on the scenarios *)

(** The boundary of the filter.  Against the creation time of a release,
    which has the format of the merge timestamps, a PR merged at the cutoff
    is left out.  Against the seven-days cutoff, which [toISOString] prints
    with milliseconds, the comparison of the two texts lets the same second
    through. *)
Example cutoff_boundary :
  is_relevant "2024-01-01T10:00:00Z" ["writer"] false Cases.at_cutoff = false
  /\ is_relevant (toISOString 1704103200000) ["writer"] false Cases.at_cutoff = true.
Proof. split; reflexivity. Qed.

(** A pull request labelled writer and ui sits in both buckets, and both
    groups reach the artifact. *)
Lemma grouping_non_exclusive_witness :
  NoDup ["writer"; "ui"]
  /\ map fst (groupPRsByLabels [Cases.both; Cases.twice] ["writer"; "ui"])
     = ["writer"; "ui"]
  /\ (exists b, map_get "writer" (groupPRsByLabels [Cases.both; Cases.twice] ["writer"; "ui"]) = Some b
                /\ In Cases.both b)
  /\ (exists b, map_get "ui" (groupPRsByLabels [Cases.both; Cases.twice] ["writer"; "ui"]) = Some b
                /\ In Cases.both b)
  /\ (exists L t,
        run_steps Cases.shared_labels [] = (Ok L, t)
        /\ map name (groups (loc_artifactData L)) = ["writer"; "ui"]).
Proof.
  assert (Hnd : NoDup ["writer"; "ui"]).
  { repeat constructor; simpl; intuition discriminate. }
  destruct (grouping_non_exclusive [Cases.both; Cases.twice] ["writer"; "ui"])
    as [_ [Hkeys [Hmem [_ [_ Hrun]]]]].
  split; [exact Hnd|]. split; [exact (Hkeys Hnd)|]. split; [|split].
  - destruct (Hmem "writer") as [b [Hget [_ Hin]]]; [now left|].
    exists b. split; [exact Hget|]. apply Hin. split; now left.
  - destruct (Hmem "ui") as [b [Hget [_ Hin]]]; [right; now left|].
    exists b. split; [exact Hget|]. apply Hin. split; [now left | right; now left].
  - destruct (run_steps Cases.shared_labels []) as [[L|e] t] eqn:E.
    2:{ vm_compute in E. discriminate E. }
    exists L, t. split; [reflexivity|].
    assert (HL : loc_relevantPRs L = [Cases.both; Cases.twice]
                 /\ loc_groupingLabels L = ["writer"; "ui"]).
    { vm_compute in E. injection E as <- _. split; reflexivity. }
    destruct (Hrun Cases.shared_labels L t E (proj1 HL) (proj2 HL)) as [_ [Hgroups _]].
    assert (Hnames : map name (groups (loc_artifactData L))
                     = map fst (map group_entry (groups (loc_artifactData L)))).
    { now rewrite map_map. }
    rewrite Hnames, Hgroups. reflexivity.
Defined.


(** The empty list costs no request; the list of one pull request costs the
    summary stage one. *)
Lemma empty_group_sentinel_witness :
  fetch_count (snd (generateAISummary Scenario.world [] "test-gemini-key" None [])) = 0%nat
  /\ fetch_count
       (snd (generateAISummary Scenario.world [Cases.both] "test-gemini-key" None []))
     = 1%nat.
Proof.
  destruct (empty_group_sentinel Scenario.world "test-gemini-key" None [])
    as [Hempty [_ [_ Hmembers]]].
  split; [now rewrite Hempty|].
  apply (Hmembers [Cases.both]). discriminate.
Defined.

(** The test of the missing token. *)
Lemma missing_inputs_fail_witness :
  missing_input Cases.missing_token
  /\ exists message,
       run Cases.missing_token = [SetFailed message]
       /\ outputs (run Cases.missing_token) = []
       /\ contains "Missing required inputs" message.
Proof.
  assert (Hm : missing_input Cases.missing_token) by (left; reflexivity).
  split; [exact Hm|].
  destruct (missing_inputs_fail Cases.missing_token (or_introl Hm))
    as [message [Hrun [Hout [Hmsg _]]]].
  exists message. split; [exact Hrun|]. split; [exact Hout | exact (Hmsg Hm)].
Defined.


(** The test of the endpoint answering "API Error". *)
Lemma endpoint_failure_is_soft_witness :
  (forall url body, fetch_failed (fetch Cases.api_error (fetch_count []) url body))
  /\ exists url body message,
       generateAISummary Cases.api_error [Cases.both] "test-gemini-key" (Some "writer") []
       = (Ok "Failed to generate AI summary", [FetchCall url body; Warning message]).
Proof.
  assert (Hfail : forall url body,
            fetch_failed (fetch Cases.api_error (fetch_count []) url body)).
  { intros url body. reflexivity. }
  split; [exact Hfail|].
  destruct (endpoint_failure_is_soft Cases.api_error [] Hfail) as [Hgen _].
  apply (Hgen [Cases.both] "test-gemini-key" (Some "writer")). discriminate.
Defined.

(** The test of the rejected lookup; the run starts on 2024-01-21 at 10:00
    UTC, the cutoff is seven days earlier. *)
Lemma no_previous_release_fallback_witness :
  valid_inputs Cases.no_release
  /\ context_repo Cases.no_release = Ok ("test-owner", "test-repo")
  /\ getLatestRelease Cases.no_release "test-owner" "test-repo" = Throw (Error "Not found")
  /\ output "has-previous-release" (run Cases.no_release) = Some "false"
  /\ output "previous-tag" (run Cases.no_release) = Some ""
  /\ output "previous-release-date" (run Cases.no_release) = Some ""
  /\ exists L,
       run_steps Cases.no_release [] = (Ok L, run Cases.no_release)
       /\ failures (run Cases.no_release) = []
       /\ loc_sinceDate L = "2024-01-14T10:00:00.000Z".
Proof.
  assert (Hvalid : valid_inputs Cases.no_release).
  { repeat split; vm_compute; discriminate. }
  destruct (no_previous_release_fallback Cases.no_release "test-owner" "test-repo"
              (Error "Not found") Hvalid eq_refl eq_refl)
    as [H1 [H2 [H3 [Hend Hcut]]]].
  split; [exact Hvalid|]. split; [reflexivity|]. split; [reflexivity|].
  split; [exact H1|]. split; [exact H2|]. split; [exact H3|].
  destruct (Hend Scenario.mockPRs eq_refl eq_refl (fun _ => eq_refl)) as [L [HL Hf]].
  exists L. split; [exact HL|]. split; [exact Hf|].
  destruct (Hcut L _ HL) as [_ [Hsince _]]. rewrite Hsince. reflexivity.
Defined.

(** The group names writer and ui are plain names: on the scenario of the
    test suite the three outputs agree, order included. *)
Lemma group_outputs_consistent_plain_names_witness :
  exists L t,
    run_steps Scenario.world [] = (Ok L, t)
    /\ (forall g, In g (groups (loc_artifactData L)) -> plain_name (name g))
    /\ group_outputs_consistent L t.
Proof.
  destruct (run_steps Scenario.world []) as [[L|e] t] eqn:E.
  2:{ vm_compute in E. discriminate E. }
  exists L, t. split; [reflexivity|].
  assert (Hplain : forall g, In g (groups (loc_artifactData L)) -> plain_name (name g)).
  { assert (Hnames : map name (groups (loc_artifactData L)) = ["writer"; "ui"]).
    { vm_compute in E. injection E as <- _. reflexivity. }
    intros g Hg. apply (in_map name) in Hg. rewrite Hnames in Hg.
    destruct Hg as [<-|[<-|[]]]; split; try reflexivity; discriminate. }
  split; [exact Hplain|].
  exact (proj2 (group_outputs_consistent_plain_names Scenario.world L t E) Hplain).
Defined.

(** The second request of that run, taken alone: the placeholder goes in,
    the endpoint's text comes out. *)
Lemma failed_summary_is_sent_for_reformatting_witness :
  exists evs,
    convertToSlackFormat Cases.absent_then_text "Failed to generate summary"
      "test-gemini-key" [FetchCall "first" "request"]
    = (Ok "*Oops*",
       FetchCall "first" "request"
       :: FetchCall (GEMINI_URL ++ "test-gemini-key")
            (request_body (SLACK_INSTRUCTION ++ nl ++ nl ++ "Failed to generate summary"))
       :: evs).
Proof.
  destruct (failed_summary_is_sent_for_reformatting Cases.absent_then_text
              "test-gemini-key" [FetchCall "first" "request"])
    as [r [evs [Hrun [_ Hreply]]]].
  exists evs. rewrite Hrun.
  rewrite (Hreply "*Oops*"); [reflexivity | discriminate | reflexivity].
Defined.

(** C4 on a run: the endpoint first answers without candidates, and the
    placeholder of the summary stage goes through a second request. *)
Example failed_summary_in_a_run :
  exists L t,
    run_steps Cases.absent_then_text [] = (Ok L, t)
    /\ map summary (loc_labelGroups L)
       = [{| markdown := "Failed to generate summary"; slack := "*Oops*" |}]
    /\ fetch_count t = 2%nat.
Proof.
  eexists. eexists. split; [vm_compute; reflexivity|].
  split; vm_compute; reflexivity.
Qed.


(** * Further properties of the code *)

(** ** Splitting, trimming and joining *)

Lemma split_nonempty (c : ascii) (s : string) : split c s <> [].
Proof.
  destruct s as [|a s]; simpl; [discriminate|].
  destruct (Ascii.eqb a c); [discriminate|].
  destruct (split c s); discriminate.
Qed.

Lemma split_no_separator (c : ascii) (s e : string) :
  In e (split c s) -> ~ In c (chars e).
Proof.
  revert e. induction s as [|a s IH]; simpl; intros e.
  - intros [<-|[]]. simpl. tauto.
  - destruct (Ascii.eqb a c) eqn:E.
    + intros [<-|H]; [simpl; tauto | now apply IH].
    + destruct (split c s) as [|hd tl] eqn:Hs.
      * exfalso. now apply (split_nonempty c s).
      * intros [<-|H].
        -- simpl. intros [Heq|Hin].
           ++ subst a. now rewrite Ascii.eqb_refl in E.
           ++ apply (IH hd); [now left | assumption].
        -- apply IH. now right.
Qed.

Lemma split_clean (c : ascii) (s : string) :
  ~ In c (chars s) -> split c s = [s].
Proof.
  induction s as [|a s IH]; simpl; intros H; [reflexivity|].
  destruct (Ascii.eqb a c) eqn:E.
  - apply Ascii.eqb_eq in E. tauto.
  - rewrite IH; tauto.
Qed.

Lemma split_append (c : ascii) (a b : string) :
  ~ In c (chars a) ->
  split c (a ++ String c b) = a :: split c b.
Proof.
  induction a as [|x a IH]; simpl; intros H.
  - now rewrite Ascii.eqb_refl.
  - destruct (Ascii.eqb x c) eqn:E.
    + apply Ascii.eqb_eq in E. tauto.
    + rewrite IH; tauto.
Qed.

(** Splitting undoes joining, for a list with an element and no separator
    inside the elements. *)
Lemma split_join (c : ascii) (l : list string) :
  l <> [] ->
  (forall e, In e l -> ~ In c (chars e)) ->
  split c (join (String c "") l) = l.
Proof.
  unfold join. induction l as [|a l IH]; intros Hne Hclean; [congruence|].
  destruct l as [|b l].
  - simpl. apply split_clean, Hclean. now left.
  - change (String.concat (String c "") (a :: b :: l))
      with (a ++ String c (String.concat (String c "") (b :: l))).
    rewrite split_append by (apply Hclean; now left).
    f_equal. apply IH; [discriminate|]. intros e He. apply Hclean. now right.
Qed.

Lemma trimStart_starts (s : string) : starts_with_ws (trimStart s) = false.
Proof.
  induction s as [|c s IH]; simpl; [reflexivity|].
  destruct (is_ws c) eqn:E; [exact IH | simpl; exact E].
Qed.

Lemma trimEnd_ends (s : string) : ends_with_ws (trimEnd s) = false.
Proof.
  induction s as [|c s IH]; simpl; [reflexivity|].
  destruct (is_ws c && (trimEnd s =? "")) eqn:E; [reflexivity|].
  simpl. destruct (trimEnd s) as [|d r] eqn:Hr.
  - simpl in E. now rewrite andb_true_r in E.
  - exact IH.
Qed.

Lemma trimEnd_starts (s : string) :
  starts_with_ws s = false -> starts_with_ws (trimEnd s) = false.
Proof.
  destruct s as [|c s]; simpl; [reflexivity|]. intros H.
  rewrite H. simpl. exact H.
Qed.

Lemma trimStart_fixed (s : string) : starts_with_ws s = false -> trimStart s = s.
Proof. destruct s as [|c s]; simpl; [reflexivity|]. now intros ->. Qed.

Lemma trimEnd_fixed (s : string) : ends_with_ws s = false -> trimEnd s = s.
Proof.
  induction s as [|c s IH]; simpl; [reflexivity|].
  destruct s as [|d r].
  - simpl. now intros ->.
  - intros H. rewrite IH by exact H.
    replace (String d r =? "") with false by reflexivity.
    now rewrite andb_false_r.
Qed.

Lemma trimStart_chars (s : string) (c : ascii) :
  In c (chars (trimStart s)) -> In c (chars s).
Proof.
  induction s as [|a s IH]; simpl; [tauto|].
  destruct (is_ws a); simpl; [intros H; right; now apply IH | tauto].
Qed.

Lemma trimEnd_chars (s : string) (c : ascii) :
  In c (chars (trimEnd s)) -> In c (chars s).
Proof.
  induction s as [|a s IH]; simpl; [tauto|].
  destruct (is_ws a && (trimEnd s =? "")); simpl; [tauto|].
  intros [H|H]; [now left | right; now apply IH].
Qed.

Lemma trim_clean (s : string) :
  starts_with_ws (trim s) = false /\ ends_with_ws (trim s) = false.
Proof.
  unfold trim. split; [apply trimEnd_starts, trimStart_starts | apply trimEnd_ends].
Qed.

Lemma trim_fixed (s : string) :
  starts_with_ws s = false -> ends_with_ws s = false -> trim s = s.
Proof.
  intros H1 H2. unfold trim. rewrite (trimStart_fixed s H1). now apply trimEnd_fixed.
Qed.

Lemma parse_labels_In_clean (input l : string) :
  In l (parse_labels input) -> clean_label l /\ trim l = l.
Proof.
  unfold parse_labels. rewrite filter_In, in_map_iff.
  intros [[e [<- He]] Hlen].
  destruct (trim_clean e) as [Hs He'].
  repeat split; try assumption.
  - intros Hempty. rewrite Hempty in Hlen. discriminate.
  - intros Hin. apply (split_no_separator _ _ _ He).
    apply trimStart_chars, trimEnd_chars. exact Hin.
  - now apply trim_fixed.
Qed.

Lemma parse_labels_of_clean_list (l : list string) :
  (forall e, In e l -> clean_label e) ->
  filter (fun label => (0 <? String.length label)%nat) (map trim l) = l.
Proof.
  induction l as [|a l IH]; simpl; intros H; [reflexivity|].
  destruct (H a (or_introl eq_refl)) as [Hne [Hs [He _]]].
  rewrite (trim_fixed a Hs He).
  destruct a as [|c a]; [congruence|]. simpl. f_equal.
  apply IH. intros e Hin. apply H. now right.
Qed.

(** X1. Every label that [parse_labels] yields is clean: it is not empty,
    has no white space at either end and holds no comma; trimming it again
    changes nothing. *)
Theorem parse_labels_clean (input l : string) :
  In l (parse_labels input) ->
  l <> "" /\ starts_with_ws l = false /\ ends_with_ws l = false
  /\ ~ In ","%char (chars l) /\ trim l = l.
Proof.
  intros H. destruct (parse_labels_In_clean input l H) as [[H1 [H2 [H3 H4]]] H5].
  repeat split; assumption.
Qed.

(** X2. Parsing undoes joining: a list of clean labels, written with commas
    between them, is read back as that list. *)
Theorem parse_labels_join (labels : list string) :
  (forall l, In l labels -> clean_label l) ->
  parse_labels (join "," labels) = labels.
Proof.
  intros Hclean. unfold parse_labels.
  destruct labels as [|a l]; [reflexivity|].
  rewrite split_join.
  - now apply parse_labels_of_clean_list.
  - discriminate.
  - intros e He. apply (Hclean e He).
Qed.

(** ** The summary stages, answer by answer *)

Lemma first_text_cases (d : GeminiResponse) :
  (exists x, first_text (Some d) = Ok (Some x) /\ first_text_is d x)
  \/ (first_text (Some d) = Ok None /\ forall x, ~ first_text_is d x).
Proof.
  unfold first_text, first_text_is.
  destruct (candidates d) as [[|c cs]|] eqn:Hc.
  - right. split; [reflexivity|]. intros x (c & cs & ct & p & ps & H & _). discriminate.
  - destruct (content c) as [ct|] eqn:Hct.
    + destruct (parts ct) as [[|p ps]|] eqn:Hp.
      * right. split; [reflexivity|].
        intros x (c' & cs' & ct' & p' & ps' & H1 & H2 & H3 & _).
        injection H1 as <- <-. rewrite Hct in H2. injection H2 as <-.
        rewrite Hp in H3. discriminate.
      * destruct (text p) as [x|] eqn:Hx.
        -- left. exists x. split; [reflexivity|].
           exists c, cs, ct, p, ps. repeat split; assumption.
        -- right. split; [reflexivity|].
           intros x (c' & cs' & ct' & p' & ps' & H1 & H2 & H3 & H4).
           injection H1 as <- <-. rewrite Hct in H2. injection H2 as <-.
           rewrite Hp in H3. injection H3 as <- <-. congruence.
      * right. split; [reflexivity|].
        intros x (c' & cs' & ct' & p' & ps' & H1 & H2 & H3 & _).
        injection H1 as <- <-. rewrite Hct in H2. injection H2 as <-.
        rewrite Hp in H3. discriminate.
    + right. split; [reflexivity|].
      intros x (c' & cs' & ct' & p' & ps' & H1 & H2 & _).
      injection H1 as <- <-. congruence.
  - right. split; [reflexivity|]. intros x (c & cs & ct & p & ps & H & _). discriminate.
Qed.

Lemma first_text_is_unique (d : GeminiResponse) (x y : string) :
  first_text_is d x -> first_text_is d y -> x = y.
Proof.
  intros (c & cs & ct & p & ps & H1 & H2 & H3 & H4)
         (c' & cs' & ct' & p' & ps' & H1' & H2' & H3' & H4').
  rewrite H1 in H1'. injection H1' as <- <-.
  rewrite H2 in H2'. injection H2' as <-.
  rewrite H3 in H3'. injection H3' as <- <-.
  congruence.
Qed.

(** What [or_else] returns for the text read off a readable body. *)
Lemma or_else_first_text (d : GeminiResponse) (fallback : string) :
  exists o,
    first_text (Some d) = Ok o
    /\ (forall x, first_text_is d x -> x <> "" -> or_else o fallback = x)
    /\ ((forall x, first_text_is d x -> x = "") -> or_else o fallback = fallback).
Proof.
  destruct (first_text_cases d) as [[x [E Hx]]|[E Hnone]].
  - exists (Some x). split; [exact E|]. split.
    + intros y Hy Hne. rewrite (first_text_is_unique d y x Hy Hx) in *.
      unfold or_else, truthy. apply String.eqb_neq in Hne. now rewrite Hne.
    + intros Hall. rewrite (Hall x Hx). reflexivity.
  - exists None. split; [exact E|]. split.
    + intros y Hy. now destruct (Hnone y).
    + reflexivity.
Qed.

Section Answers.
Variable w : World.

Lemma generateAISummary_unfold (pr : PR) (prs : list PR) (key : string)
    (g : option string) (t : trace) :
  let groupContext :=
    match g with Some n => if truthy n then " for " ++ n else "" | None => "" end in
  let url := GEMINI_URL ++ key in
  let body := request_body (summary_prompt groupContext (pr :: prs)) in
  let t1 := (t ++ [FetchCall url body])%list in
  generateAISummary w (pr :: prs) key g t
  = match fetch w (fetch_count t) url body with
    | Throw e =>
        (Ok FAILED_AI_SUMMARY,
         (t1 ++ [Warning ("Failed to generate AI summary" ++ groupContext ++ ": "
                            ++ string_of_thrown e)])%list)
    | Ok resp =>
        if ok resp
        then match resp_json resp with
             | Throw e =>
                 (Ok FAILED_AI_SUMMARY,
                  (t1 ++ [Warning ("Failed to generate AI summary" ++ groupContext
                                     ++ ": " ++ string_of_thrown e)])%list)
             | Ok data =>
                 match first_text data with
                 | Ok o => (Ok (or_else o FAILED_SUMMARY), t1)
                 | Throw e =>
                     (Ok FAILED_AI_SUMMARY,
                      (t1 ++ [Warning ("Failed to generate AI summary" ++ groupContext
                                         ++ ": " ++ string_of_thrown e)])%list)
                 end
             end
        else
          (Ok FAILED_AI_SUMMARY,
           (t1 ++ [Warning ("Failed to generate AI summary" ++ groupContext ++ ": "
                              ++ string_of_thrown
                                   (Error ("Gemini API error: " ++ statusText resp)))])%list)
    end.
Proof.
  intros groupContext url body t1. unfold generateAISummary.
  change (List.length (pr :: prs) =? 0)%nat with false. cbv iota.
  fold groupContext. fold (summary_prompt groupContext (pr :: prs)). fold body. fold url.
  unfold do_fetch, read_text, core_warning.
  unfold bind, try_catch, call, ret, throw, emit. fold t1.
  destruct (fetch w (fetch_count t) url body) as [resp|e]; [|reflexivity].
  destruct (ok resp); [|reflexivity]. cbn [negb].
  destruct (resp_json resp) as [data|e]; [|reflexivity].
  destruct (first_text data) as [o|e]; reflexivity.
Qed.

Lemma convertToSlackFormat_unfold (md key : string) (t : trace) :
  md <> NO_CHANGES -> md <> FAILED_AI_SUMMARY ->
  let url := GEMINI_URL ++ key in
  let body := request_body (SLACK_INSTRUCTION ++ nl ++ nl ++ md) in
  let t1 := (t ++ [FetchCall url body])%list in
  convertToSlackFormat w md key t
  = match fetch w (fetch_count t) url body with
    | Throw e =>
        (Ok FAILED_SLACK_SUMMARY,
         (t1 ++ [Warning ("Failed to generate Slack summary: " ++ string_of_thrown e)])%list)
    | Ok resp =>
        if ok resp
        then match resp_json resp with
             | Throw e =>
                 (Ok FAILED_SLACK_SUMMARY,
                  (t1 ++ [Warning ("Failed to generate Slack summary: "
                                     ++ string_of_thrown e)])%list)
             | Ok data =>
                 match first_text data with
                 | Ok o => (Ok (or_else o FAILED_SLACK_SUMMARY), t1)
                 | Throw e =>
                     (Ok FAILED_SLACK_SUMMARY,
                      (t1 ++ [Warning ("Failed to generate Slack summary: "
                                         ++ string_of_thrown e)])%list)
                 end
             end
        else
          (Ok FAILED_SLACK_SUMMARY,
           (t1 ++ [Warning ("Failed to generate Slack summary: "
                              ++ string_of_thrown
                                   (Error ("Gemini API error: " ++ statusText resp)))])%list)
    end.
Proof.
  intros H1 H2 url body t1. unfold convertToSlackFormat.
  apply String.eqb_neq in H1, H2. rewrite H1, H2. cbn [orb].
  fold body. fold url.
  unfold do_fetch, read_text, core_warning.
  unfold bind, try_catch, call, ret, throw, emit. fold t1.
  destruct (fetch w (fetch_count t) url body) as [resp|e]; [|reflexivity].
  destruct (ok resp); [|reflexivity]. cbn [negb].
  destruct (resp_json resp) as [data|e]; [|reflexivity].
  destruct (first_text data) as [o|e]; reflexivity.
Qed.

End Answers.

Section AnswerTheorems.
Variable w : World.

(** X3. With a 2xx answer whose body can be read, the summary stage of a
    group with members returns the first text part of the first candidate
    when there is one and it is not empty, and "Failed to generate summary"
    otherwise; it has sent one request, to the model's URL with the key, and
    logged nothing. *)
Theorem generateAISummary_answered (prs : list PR) (key : string)
    (g : option string) (t : trace) (d : GeminiResponse) :
  prs <> [] ->
  (forall url body, answered (fetch w (fetch_count t) url body) d) ->
  exists s body,
    generateAISummary w prs key g t
    = (Ok s, (t ++ [FetchCall (GEMINI_URL ++ key) body])%list)
    /\ (forall x, first_text_is d x -> x <> "" -> s = x)
    /\ ((forall x, first_text_is d x -> x = "") -> s = "Failed to generate summary").
Proof.
  intros Hne Hans. destruct prs as [|pr prs]; [congruence|].
  rewrite generateAISummary_unfold.
  match goal with
  | |- context [fetch w (fetch_count t) ?u ?b] =>
      destruct (Hans u b) as [resp [-> [Hok Hjson]]]
  end.
  rewrite Hok, Hjson.
  destruct (or_else_first_text d FAILED_SUMMARY) as [o [-> [Hsome Hnone]]].
  do 2 eexists. split; [reflexivity|]. split; assumption.
Qed.

(** X4. The chat-format stage, for a text it does not pass through and a
    2xx answer whose body can be read: it sends the instruction followed by
    two line feeds and the markdown, and returns the first text part when
    there is one and it is not empty, "Failed to generate Slack summary"
    otherwise, without a warning. *)
Theorem convertToSlackFormat_answered (md key : string) (t : trace)
    (d : GeminiResponse) :
  md <> NO_CHANGES -> md <> FAILED_AI_SUMMARY ->
  (forall url body, answered (fetch w (fetch_count t) url body) d) ->
  exists s,
    convertToSlackFormat w md key t
    = (Ok s,
       (t ++ [FetchCall (GEMINI_URL ++ key)
                (request_body (SLACK_INSTRUCTION ++ nl ++ nl ++ md))])%list)
    /\ (forall x, first_text_is d x -> x <> "" -> s = x)
    /\ ((forall x, first_text_is d x -> x = "") -> s = "Failed to generate Slack summary").
Proof.
  intros H1 H2 Hans. rewrite convertToSlackFormat_unfold by assumption.
  match goal with
  | |- context [fetch w (fetch_count t) ?u ?b] =>
      destruct (Hans u b) as [resp [-> [Hok Hjson]]]
  end.
  rewrite Hok, Hjson.
  destruct (or_else_first_text d FAILED_SLACK_SUMMARY) as [o [-> [Hsome Hnone]]].
  eexists. split; [reflexivity|]. split; assumption.
Qed.

(** X5. A 2xx answer whose body cannot be read ([json()] rejects, or the
    body is null) is caught like a failed call: each stage returns its
    "Failed to generate ..." text and logs one warning that ends with the
    error. *)
Theorem unreadable_body_is_caught (t : trace) (e : thrown) :
  (forall url body, unreadable (fetch w (fetch_count t) url body) e) ->
  (forall prs key labelName,
     prs <> [] -> labelName <> "" ->
     exists body,
       generateAISummary w prs key (Some labelName) t
       = (Ok "Failed to generate AI summary",
          (t ++ [FetchCall (GEMINI_URL ++ key) body;
                 Warning ("Failed to generate AI summary for " ++ labelName ++ ": "
                            ++ string_of_thrown e)])%list))
  /\ (forall md key,
        md <> NO_CHANGES -> md <> FAILED_AI_SUMMARY ->
        exists body,
          convertToSlackFormat w md key t
          = (Ok "Failed to generate Slack summary",
             (t ++ [FetchCall (GEMINI_URL ++ key) body;
                    Warning ("Failed to generate Slack summary: "
                               ++ string_of_thrown e)])%list)).
Proof.
  intros Hbad. split.
  - intros prs key labelName Hne Hname. destruct prs as [|pr prs]; [congruence|].
    rewrite generateAISummary_unfold.
    unfold truthy. apply String.eqb_neq in Hname. rewrite Hname. cbn [negb].
    match goal with
    | |- context [fetch w (fetch_count t) ?u ?b] =>
        destruct (Hbad u b) as [resp [-> [Hok Hjson]]]
    end.
    rewrite Hok. eexists.
    destruct Hjson as [Hj|[Hj ->]]; rewrite Hj; cbn [first_text];
      rewrite <- app_assoc; reflexivity.
  - intros md key H1 H2. rewrite convertToSlackFormat_unfold by assumption.
    match goal with
    | |- context [fetch w (fetch_count t) ?u ?b] =>
        destruct (Hbad u b) as [resp [-> [Hok Hjson]]]
    end.
    rewrite Hok. eexists.
    destruct Hjson as [Hj|[Hj ->]]; rewrite Hj; cbn [first_text];
      rewrite <- app_assoc; reflexivity.
Qed.

(** X6. One group whose request fails (transport error or status not 2xx):
    the markdown is "Failed to generate AI summary", the chat-format stage
    passes it through, and the group has cost one request and one warning. *)
Theorem group_summary_when_request_fails (prs : list PR) (key labelName : string)
    (t : trace) :
  prs <> [] ->
  (forall url body, fetch_failed (fetch w (fetch_count t) url body)) ->
  exists url body message,
    both_stages w prs key labelName t
    = (Ok {| markdown := "Failed to generate AI summary";
             slack := "Failed to generate AI summary" |},
       (t ++ [FetchCall url body; Warning message])%list).
Proof.
  intros Hne Hfail.
  destruct (generateAISummary_failed w prs key (Some labelName) t Hne Hfail)
    as [url [body [message E]]].
  exists url, body, message. unfold both_stages, bind. rewrite E.
  rewrite convertToSlackFormat_skipped by now right. reflexivity.
Qed.

(** X7. One group whose two requests are answered with the texts [a] and
    [b]: the second request carries the instruction followed by [a], and the
    group's summary is [a] with [b].  When [a] is itself one of the two texts
    the chat-format stage passes through, there is no second request. *)
Theorem group_summary_when_answered (prs : list PR) (key labelName a b : string)
    (t : trace) :
  prs <> [] -> a <> "" -> b <> "" ->
  (forall url body, fetch w (fetch_count t) url body = Ok (answer a)) ->
  (forall url body, fetch w (S (fetch_count t)) url body = Ok (answer b)) ->
  exists body,
    (a <> NO_CHANGES -> a <> FAILED_AI_SUMMARY ->
     both_stages w prs key labelName t
     = (Ok {| markdown := a; slack := b |},
        (t ++ [FetchCall (GEMINI_URL ++ key) body;
               FetchCall (GEMINI_URL ++ key)
                 (request_body (SLACK_INSTRUCTION ++ nl ++ nl ++ a))])%list))
    /\ (a = NO_CHANGES \/ a = FAILED_AI_SUMMARY ->
        both_stages w prs key labelName t
        = (Ok {| markdown := a; slack := a |},
           (t ++ [FetchCall (GEMINI_URL ++ key) body])%list)).
Proof.
  intros Hne Ha Hb Hfirst Hsecond.
  destruct prs as [|pr prs]; [congruence|].
  assert (Hor : forall x fallback, x <> "" -> or_else (Some x) fallback = x).
  { intros x fallback Hx. unfold or_else, truthy.
    apply String.eqb_neq in Hx. now rewrite Hx. }
  eexists. split.
  - intros H1 H2. unfold both_stages, bind.
    rewrite generateAISummary_unfold, Hfirst. simpl ok. simpl resp_json. cbv iota.
    simpl first_text. cbv iota. rewrite Hor by assumption.
    rewrite convertToSlackFormat_unfold by assumption.
    assert (Hcount : fetch_count (t ++ [FetchCall (GEMINI_URL ++ key)
                       (request_body
                          (summary_prompt
                             (if truthy labelName then " for " ++ labelName else "")
                             (pr :: prs)))])
                     = S (fetch_count t)).
    { apply fetch_count_request. constructor. }
    rewrite Hcount, Hsecond. simpl ok. simpl resp_json. cbv iota.
    simpl first_text. cbv iota. rewrite Hor by assumption.
    rewrite <- app_assoc. reflexivity.
  - intros Hguard. unfold both_stages, bind.
    rewrite generateAISummary_unfold, Hfirst. simpl ok. simpl resp_json. cbv iota.
    simpl first_text. cbv iota. rewrite Hor by assumption.
    rewrite convertToSlackFormat_skipped by assumption. reflexivity.
Qed.

End AnswerTheorems.

(** ** Requests, one group after the other *)

Lemma plain_quiet (evs : list event) : Forall plain evs -> Forall quiet evs.
Proof.
  apply Forall_impl. intros e. destruct e; simpl; tauto.
Qed.

Lemma plain_no_fetch (evs : list event) : Forall plain evs -> fetch_count evs = 0%nat.
Proof.
  unfold fetch_count. induction 1 as [|e evs He _ IH]; simpl; [reflexivity|].
  destruct e; simpl in *; auto; contradiction.
Qed.

Lemma plain_no_upload (evs : list event) : Forall plain evs -> uploads evs = [].
Proof.
  induction 1 as [|e evs He _ IH]; simpl; [reflexivity|].
  destruct e; simpl in *; auto; contradiction.
Qed.

Lemma uploads_app (a b : trace) : uploads (a ++ b) = (uploads a ++ uploads b)%list.
Proof.
  induction a as [|e a IH]; simpl; [reflexivity|].
  destruct e; simpl; now rewrite ?IH.
Qed.

Lemma warnings_app (a b : trace) : warnings (a ++ b) = (warnings a ++ warnings b)%list.
Proof.
  induction a as [|e a IH]; simpl; [reflexivity|].
  destruct e; simpl; now rewrite ?IH.
Qed.

Section Requests.
Variable w : World.

Lemma generateAISummary_requests (prs : list PR) (key : string)
    (g : option string) (t : trace) :
  prs <> [] ->
  exists s evs,
    generateAISummary w prs key g t = (Ok s, (t ++ evs)%list)
    /\ fetch_count evs = 1%nat /\ uploads evs = [].
Proof.
  intros Hne. destruct prs as [|pr prs]; [congruence|].
  rewrite generateAISummary_unfold.
  destruct (fetch w (fetch_count t) _ _) as [resp|e].
  2:{ do 2 eexists. rewrite <- app_assoc. repeat split. }
  destruct (ok resp).
  2:{ do 2 eexists. rewrite <- app_assoc. repeat split. }
  destruct (resp_json resp) as [data|e].
  2:{ do 2 eexists. rewrite <- app_assoc. repeat split. }
  destruct (first_text data) as [o|e]; do 2 eexists; rewrite <- ?app_assoc;
    repeat split.
Qed.

Lemma convertToSlackFormat_requests (md key : string) (t : trace) :
  exists s evs,
    convertToSlackFormat w md key t = (Ok s, (t ++ evs)%list)
    /\ (fetch_count evs <= 1)%nat /\ uploads evs = []
    /\ (md = NO_CHANGES \/ md = FAILED_AI_SUMMARY -> evs = []).
Proof.
  destruct (string_dec md NO_CHANGES) as [H1|H1].
  { exists md, []. rewrite app_nil_r, convertToSlackFormat_skipped by now left.
    repeat split. unfold fetch_count. simpl. lia. }
  destruct (string_dec md FAILED_AI_SUMMARY) as [H2|H2].
  { exists md, []. rewrite app_nil_r, convertToSlackFormat_skipped by now right.
    repeat split. unfold fetch_count. simpl. lia. }
  rewrite convertToSlackFormat_unfold by assumption.
  assert (Hno : md = NO_CHANGES \/ md = FAILED_AI_SUMMARY -> False) by tauto.
  destruct (fetch w (fetch_count t) _ _) as [resp|e].
  2:{ do 2 eexists. rewrite <- app_assoc.
      repeat split; [unfold fetch_count; simpl; lia | tauto]. }
  destruct (ok resp).
  2:{ do 2 eexists. rewrite <- app_assoc.
      repeat split; [unfold fetch_count; simpl; lia | tauto]. }
  destruct (resp_json resp) as [data|e].
  2:{ do 2 eexists. rewrite <- app_assoc.
      repeat split; [unfold fetch_count; simpl; lia | tauto]. }
  destruct (first_text data) as [o|e]; do 2 eexists; rewrite <- ?app_assoc;
    (repeat split; [unfold fetch_count; simpl; lia | tauto]).
Qed.

(** One turn of the loop chains the two stages. *)
Lemma summarize_step (key labelName : string) (ps : list PR)
    (rest : strmap (list PR)) (gs : GroupedOutput) (lgs : list LabelGroup)
    (t : trace) :
  summarize w key ((labelName, ps) :: rest) gs lgs t
  = if nonempty ps
    then (core_info ("Generating summary for " ++ labelName ++ " group ("
                       ++ string_of_nat (List.length ps) ++ " PRs)") ;;
          groupSummary <- both_stages w ps key labelName ;;
          summarize w key rest (set labelName groupSummary gs)
            (lgs ++ [{| name := labelName; prs := ps; summary := groupSummary |}])%list) t
    else summarize w key rest gs lgs t.
Proof.
  simpl. unfold nonempty. destruct (0 <? List.length ps)%nat; [|reflexivity].
  unfold both_stages, bind, ret.
  destruct (core_info _ t) as [[[]|e] t0]; [|reflexivity].
  destruct (generateAISummary w ps key (Some labelName) t0) as [[md|e] t1];
    [|reflexivity].
  destruct (convertToSlackFormat w md key t1) as [[sl|e] t2]; reflexivity.
Qed.

Lemma summarize_requests_count (key : string) (prGroups : strmap (list PR))
    (gs : GroupedOutput) (lgs : list LabelGroup) (t : trace) :
  exists added evs,
    summarize w key prGroups gs lgs t
    = (Ok (assign_all added gs, (lgs ++ added)%list), (t ++ evs)%list)
    /\ (List.length added <= fetch_count evs)%nat
    /\ (fetch_count evs <= 2 * List.length added)%nat
    /\ uploads evs = [].
Proof.
  revert gs lgs t.
  induction prGroups as [|[labelName ps] rest IH]; intros gs lgs t.
  - exists [], []. simpl. rewrite !app_nil_r. repeat split; unfold fetch_count; simpl; lia.
  - rewrite summarize_step. destruct (nonempty ps) eqn:E; [|apply IH].
    apply nonempty_iff in E.
    unfold both_stages, bind, core_info, emit, ret.
    match goal with
    | |- context [generateAISummary w ps key (Some labelName) ?t0] =>
        destruct (generateAISummary_requests ps key (Some labelName) t0 E)
          as [md [evs1 [-> [Hc1 Hu1]]]]
    end.
    match goal with
    | |- context [convertToSlackFormat w md key ?t1] =>
        destruct (convertToSlackFormat_requests md key t1)
          as [sl [evs2 [-> [Hc2 [Hu2 _]]]]]
    end.
    set (g := {| name := labelName; prs := ps;
                 summary := {| markdown := md; slack := sl |} |}).
    match goal with
    | |- context [summarize w key rest ?gs' ?lgs' ?t2] =>
        destruct (IH gs' lgs' t2) as [added [evs [-> [Hlo [Hhi Hu]]]]]
    end.
    match goal with
    | |- context [((t ++ [?i]) ++ evs1)%list] =>
        exists (g :: added), ([i] ++ evs1 ++ evs2 ++ evs)%list
    end.
    split; [|split; [|split]].
    + f_equal; [f_equal; f_equal; now rewrite <- app_assoc|].
      now rewrite <- !app_assoc.
    + rewrite !fetch_count_app. simpl List.length.
      replace (fetch_count [Info _]) with 0%nat by reflexivity. lia.
    + rewrite !fetch_count_app. simpl List.length.
      replace (fetch_count [Info _]) with 0%nat by reflexivity. lia.
    + rewrite !uploads_app, Hu1, Hu2, Hu. reflexivity.
Qed.

Lemma summarize_requests (key : string) (prGroups : strmap (list PR))
    (gs : GroupedOutput) (lgs : list LabelGroup) (t : trace) :
  exists added evs,
    summarize w key prGroups gs lgs t
    = (Ok (assign_all added gs, (lgs ++ added)%list), (t ++ evs)%list)
    /\ map group_entry added = filter (fun g => nonempty (snd g)) prGroups
    /\ Forall quiet evs
    /\ (List.length added <= fetch_count evs)%nat
    /\ (fetch_count evs <= 2 * List.length added)%nat
    /\ uploads evs = [].
Proof.
  destruct (summarize_requests_count key prGroups gs lgs t)
    as [added [evs [E [Hlo [Hhi Hu]]]]].
  destruct (summarize_spec w key prGroups gs lgs t)
    as [added' [evs' [E' [Hadded Hq]]]].
  rewrite E in E'. injection E' as _ Hlgs Hevs.
  apply app_inv_head in Hlgs, Hevs. subst added' evs'.
  exists added, evs. repeat split; assumption.
Qed.

End Requests.

Section RequestsPerBucket.
Variable w : World.

Lemma passes_through_spec (md : string) :
  passes_through md = true <-> md = NO_CHANGES \/ md = FAILED_AI_SUMMARY.
Proof.
  unfold passes_through. rewrite orb_true_iff, !String.eqb_eq. reflexivity.
Qed.

Lemma generateAISummary_request (pr : PR) (prs : list PR) (key labelName : string)
    (t : trace) :
  exists md evs,
    generateAISummary w (pr :: prs) key (Some labelName) t = (Ok md, (t ++ evs)%list)
    /\ filter is_fetch evs
       = [FetchCall (GEMINI_URL ++ key)
            (request_body
               (summary_prompt (if truthy labelName then " for " ++ labelName else "")
                  (pr :: prs)))].
Proof.
  rewrite generateAISummary_unfold.
  destruct (fetch w (fetch_count t) _ _) as [resp|e].
  2:{ do 2 eexists. rewrite <- app_assoc. split; reflexivity. }
  destruct (ok resp).
  2:{ do 2 eexists. rewrite <- app_assoc. split; reflexivity. }
  destruct (resp_json resp) as [data|e].
  2:{ do 2 eexists. rewrite <- app_assoc. split; reflexivity. }
  destruct (first_text data) as [o|e]; do 2 eexists; rewrite <- ?app_assoc;
    split; reflexivity.
Qed.

Lemma convertToSlackFormat_request (md key : string) (t : trace) :
  exists sl evs,
    convertToSlackFormat w md key t = (Ok sl, (t ++ evs)%list)
    /\ filter is_fetch evs
       = if passes_through md then []
         else [FetchCall (GEMINI_URL ++ key)
                 (request_body (SLACK_INSTRUCTION ++ nl ++ nl ++ md))].
Proof.
  destruct (passes_through md) eqn:E.
  { apply passes_through_spec in E. exists md, [].
    rewrite app_nil_r, convertToSlackFormat_skipped by assumption.
    split; reflexivity. }
  assert (H1 : md <> NO_CHANGES).
  { intros H. rewrite (proj2 (passes_through_spec md) (or_introl H)) in E. discriminate. }
  assert (H2 : md <> FAILED_AI_SUMMARY).
  { intros H. rewrite (proj2 (passes_through_spec md) (or_intror H)) in E. discriminate. }
  rewrite convertToSlackFormat_unfold by assumption.
  destruct (fetch w (fetch_count t) _ _) as [resp|e].
  2:{ do 2 eexists. rewrite <- app_assoc. split; reflexivity. }
  destruct (ok resp).
  2:{ do 2 eexists. rewrite <- app_assoc. split; reflexivity. }
  destruct (resp_json resp) as [data|e].
  2:{ do 2 eexists. rewrite <- app_assoc. split; reflexivity. }
  destruct (first_text data) as [o|e]; do 2 eexists; rewrite <- ?app_assoc;
    split; reflexivity.
Qed.

Lemma requests_of_group_length (key : string) (g : LabelGroup) :
  (1 <= List.length (requests_of_group key g) <= 2)%nat.
Proof.
  unfold requests_of_group. destruct (passes_through _); simpl; lia.
Qed.

Lemma flat_map_length_bounds {A B : Type} (f : A -> list B) (l : list A) :
  (forall a, (1 <= List.length (f a) <= 2)%nat) ->
  (List.length l <= List.length (flat_map f l) <= 2 * List.length l)%nat.
Proof.
  intros H. induction l as [|a l IH]; simpl; [lia|].
  rewrite length_app. specialize (H a). lia.
Qed.

(** X8. The requests of the loop are those of its non-empty buckets, bucket
    by bucket in the order of the map: for each bucket with members, first
    the summary request that carries the bucket's name and members, then,
    unless the markdown is passed through, the request to reformat that
    markdown; a bucket without members has no request.  So every bucket with
    members costs one or two requests, and a map of empty buckets leaves the
    trace as it was. *)
Theorem summarize_requests_per_bucket (key : string) (prGroups : strmap (list PR))
    (gs : GroupedOutput) (lgs : list LabelGroup) (t : trace) :
  exists added evs,
    summarize w key prGroups gs lgs t
    = (Ok (assign_all added gs, (lgs ++ added)%list), (t ++ evs)%list)
    /\ map group_entry added = filter (fun g => nonempty (snd g)) prGroups
    /\ filter is_fetch evs = flat_map (requests_of_group key) added
    /\ (List.length added <= fetch_count evs <= 2 * List.length added)%nat
    /\ (added = [] -> evs = []).
Proof.
  revert gs lgs t.
  induction prGroups as [|[labelName ps] rest IH]; intros gs lgs t.
  - exists [], []. simpl. rewrite !app_nil_r.
    split; [reflexivity|]. split; [reflexivity|]. split; [reflexivity|].
    split; [unfold fetch_count; simpl; lia | reflexivity].
  - rewrite summarize_step. cbn [filter snd].
    destruct (nonempty ps) eqn:E; [|apply IH].
    destruct ps as [|p ps]; [discriminate E|].
    unfold both_stages, bind, core_info, emit, ret.
    match goal with
    | |- context [generateAISummary w (p :: ps) key (Some labelName) ?t0] =>
        destruct (generateAISummary_request p ps key labelName t0)
          as [md [evs1 [-> Hr1]]]
    end.
    match goal with
    | |- context [convertToSlackFormat w md key ?t1] =>
        destruct (convertToSlackFormat_request md key t1) as [sl [evs2 [-> Hr2]]]
    end.
    set (g := {| name := labelName; prs := p :: ps;
                 summary := {| markdown := md; slack := sl |} |}).
    match goal with
    | |- context [summarize w key rest ?gs' ?lgs' ?t2] =>
        destruct (IH gs' lgs' t2) as [added [evs [-> [Hadded [Hreq _]]]]]
    end.
    assert (Hall : filter is_fetch (evs1 ++ evs2 ++ evs)
                   = flat_map (requests_of_group key) (g :: added)).
    { rewrite !filter_app, Hr1, Hr2, Hreq. reflexivity. }
    match goal with
    | |- context [((t ++ [?i]) ++ evs1)%list] =>
        exists (g :: added), ([i] ++ evs1 ++ evs2 ++ evs)%list
    end.
    split; [|split; [|split; [|split]]].
    + f_equal; [f_equal; f_equal; now rewrite <- app_assoc|].
      now rewrite <- !app_assoc.
    + cbn [map]. now rewrite Hadded.
    + exact Hall.
    + unfold fetch_count. cbn [app filter is_fetch]. rewrite Hall.
      apply flat_map_length_bounds. intros a. apply requests_of_group_length.
    + discriminate.
Qed.

End RequestsPerBucket.


(** ** The buckets when no pull request repeats a label *)

Lemma bucket_of_filter (k : string) (prs : list PR) :
  (forall p, In p prs -> NoDup (labels p)) ->
  bucket_of k prs = filter (fun p => includes (labels p) k) prs.
Proof.
  unfold bucket_of. induction prs as [|p prs IH]; intros H; [reflexivity|].
  cbn [flat_map filter]. rewrite IH by (intros q Hq; apply H; now right).
  pose proof (H p (or_introl eq_refl)) as Hnd.
  destruct (includes (labels p) k) eqn:E.
  - apply includes_In in E.
    rewrite (proj1 (NoDup_count_occ' string_dec (labels p)) Hnd k E). reflexivity.
  - assert (Hnot : ~ In k (labels p)).
    { intros Hin. apply includes_In in Hin. congruence. }
    rewrite (proj1 (count_occ_not_In string_dec (labels p) k) Hnot). reflexivity.
Qed.

(** X24. When no pull request carries a label twice, the grouping is a list
    of filters: one bucket per distinct configured label, in configuration
    order, holding the pull requests that carry the label in the order of
    the listing. *)
Theorem buckets_are_filters (prs : list PR) (gl : list string) :
  (forall p, In p prs -> NoDup (labels p)) ->
  groupPRsByLabels prs gl
  = map (fun k => (k, filter (fun p => includes (labels p) k) prs))
      (first_occurrences gl).
Proof.
  intros H. rewrite groupPRsByLabels_eq. apply map_ext.
  intros k. now rewrite bucket_of_filter.
Qed.

(** ** The two stages under any endpoint *)

Ltac stage_events :=
  split; [repeat constructor|];
  split; [first [apply Nat.le_refl | apply Nat.le_0_l]|];
  split; [reflexivity|];
  intros; first [discriminate | congruence | (split; congruence)].

Section AnyEndpoint.
Variable w : World.

Lemma generateAISummary_quiet (prs : list PR) (key : string)
    (g : option string) (t : trace) :
  exists s evs,
    generateAISummary w prs key g t = (Ok s, (t ++ evs)%list)
    /\ Forall quiet evs /\ (fetch_count evs <= 1)%nat /\ uploads evs = []
    /\ (prs = [] -> s = NO_CHANGES /\ evs = []).
Proof.
  destruct prs as [|pr prs].
  { exists NO_CHANGES, []. rewrite app_nil_r, generateAISummary_empty.
    split; [reflexivity|]. stage_events. }
  rewrite generateAISummary_unfold.
  destruct (fetch w (fetch_count t) _ _) as [resp|e].
  2:{ do 2 eexists. rewrite <- app_assoc.
      split; [reflexivity|]. stage_events. }
  destruct (ok resp).
  2:{ do 2 eexists. rewrite <- app_assoc.
      split; [reflexivity|]. stage_events. }
  destruct (resp_json resp) as [data|e].
  2:{ do 2 eexists. rewrite <- app_assoc.
      split; [reflexivity|]. stage_events. }
  destruct (first_text data) as [o|e]; do 2 eexists; rewrite <- ?app_assoc;
    (split; [reflexivity|]); stage_events.
Qed.

Lemma convertToSlackFormat_quiet (md key : string) (t : trace) :
  exists s evs,
    convertToSlackFormat w md key t = (Ok s, (t ++ evs)%list)
    /\ Forall quiet evs /\ (fetch_count evs <= 1)%nat /\ uploads evs = []
    /\ (md = NO_CHANGES -> s = NO_CHANGES /\ evs = []).
Proof.
  destruct (string_dec md NO_CHANGES) as [H1|H1].
  { exists md, []. rewrite app_nil_r, convertToSlackFormat_skipped by now left.
    split; [reflexivity|]. stage_events. }
  destruct (string_dec md FAILED_AI_SUMMARY) as [H2|H2].
  { exists md, []. rewrite app_nil_r, convertToSlackFormat_skipped by now right.
    split; [reflexivity|]. stage_events. }
  rewrite convertToSlackFormat_unfold by assumption.
  destruct (fetch w (fetch_count t) _ _) as [resp|e].
  2:{ do 2 eexists. rewrite <- app_assoc.
      split; [reflexivity|]. stage_events. }
  destruct (ok resp).
  2:{ do 2 eexists. rewrite <- app_assoc.
      split; [reflexivity|]. stage_events. }
  destruct (resp_json resp) as [data|e].
  2:{ do 2 eexists. rewrite <- app_assoc.
      split; [reflexivity|]. stage_events. }
  destruct (first_text data) as [o|e]; do 2 eexists; rewrite <- ?app_assoc;
    (split; [reflexivity|]); stage_events.
Qed.

(** X23. Whatever the endpoint does, the two stages of a group never throw:
    they return a pair of texts after at most two requests, set no output,
    signal no failure, write no file and upload nothing; for no pull request
    both texts are "No new changes were released in this period." and
    nothing is sent. *)
Theorem stages_never_throw (prs : list PR) (key labelName : string) (t : trace) :
  exists gs evs,
    both_stages w prs key labelName t = (Ok gs, (t ++ evs)%list)
    /\ Forall quiet evs /\ (fetch_count evs <= 2)%nat /\ uploads evs = []
    /\ (prs = [] ->
        gs = {| markdown := NO_CHANGES; slack := NO_CHANGES |} /\ evs = []).
Proof.
  unfold both_stages, bind.
  destruct (generateAISummary_quiet prs key (Some labelName) t)
    as [md [evs1 [E1 [Hq1 [Hf1 [Hu1 Hnil1]]]]]].
  rewrite E1.
  destruct (convertToSlackFormat_quiet md key (t ++ evs1)%list)
    as [sl [evs2 [E2 [Hq2 [Hf2 [Hu2 Hnil2]]]]]].
  rewrite E2. unfold ret.
  exists {| markdown := md; slack := sl |}, (evs1 ++ evs2)%list.
  rewrite app_assoc. split; [reflexivity|].
  split; [apply Forall_app; split; assumption|].
  split; [rewrite fetch_count_app; lia|].
  split; [rewrite uploads_app, Hu1, Hu2; reflexivity|].
  intros Hnil. destruct (Hnil1 Hnil) as [-> ->].
  destruct (Hnil2 eq_refl) as [-> ->]. split; reflexivity.
Qed.

End AnyEndpoint.

(** ** The run, in more detail *)

Section RunDetail.
Variable w : World.

Lemma previous_release_plain (owner repo : string) (t : trace) :
  exists hp tag date evs,
    previous_release w owner repo t = (Ok (hp, tag, date), (t ++ evs)%list)
    /\ Forall plain evs
    /\ (forall r, getLatestRelease w owner repo = Ok r ->
          if (id r =? 0)%Z then hp = false /\ tag = "" /\ date = ""
          else hp = true /\ tag = tag_name r /\ date = created_at r).
Proof.
  unfold previous_release. step_action.
  destruct (getLatestRelease w owner repo) as [r|e]; simpl.
  - destruct (id r =? 0)%Z eqn:E; simpl.
    + exists false, "", "", [LatestReleaseCall owner repo].
      repeat split; try (repeat constructor).
      all: intros r' [= <-]; rewrite E; auto.
    + eexists true, _, _, [LatestReleaseCall owner repo; Info _].
      rewrite <- app_assoc.
      repeat split; try (repeat constructor).
      all: intros r' [= <-]; rewrite E; auto.
  - eexists false, "", "", [LatestReleaseCall owner repo; Info _].
    rewrite <- app_assoc.
    repeat split; try discriminate; repeat constructor.
Qed.

Lemma since_date_plain (hp : bool) (date : string) (t : trace) :
  exists evs,
    since_date w hp date t
    = (Ok (if hp then date else toISOString (now w - SEVEN_DAYS_MS)),
       (t ++ evs)%list)
    /\ Forall plain evs.
Proof.
  unfold since_date. destruct hp; step_action;
    eexists; (split; [reflexivity|]); repeat constructor.
Qed.

Lemma upload_detail (artifactName artifactPath artifactDir : string) (t : trace) :
  exists evs,
    upload w artifactName artifactPath artifactDir t = (Ok tt, (t ++ evs)%list)
    /\ outputs evs
       = [("artifact-name",
           match uploadArtifact w artifactName [artifactPath] artifactDir with
           | Ok _ => artifactName
           | Throw _ => ""
           end)]
    /\ fetch_count evs = 0%nat
    /\ uploads evs = [artifactName]
    /\ (forall e, uploadArtifact w artifactName [artifactPath] artifactDir = Throw e ->
          warnings evs = ["Failed to upload artifact: " ++ string_of_thrown e]).
Proof.
  unfold upload. step_action.
  destruct (uploadArtifact w artifactName [artifactPath] artifactDir) as [size|e];
    simpl; repeat rewrite <- app_assoc; eexists; (split; [reflexivity|]);
    repeat split; try discriminate.
  intros e' [= <-]. reflexivity.
Qed.

Lemma run_steps_detail (L : Locals) (t : trace) :
  run_steps w [] = (Ok L, t) -> completed_detail w L t.
Proof.
  intros H. unfold run_steps in H.
  destruct (negb (truthy (getInput w "github-token")) || _ || _) eqn:Hin;
    [discriminate|].
  destruct (List.length (parse_labels (getInput w "grouping-labels")) =? 0)%nat
    eqn:Hlab; [discriminate|].
  unfold bind at 1 in H.
  destruct (context_repo w) as [[owner repo]|e] eqn:Hctx; [|discriminate].
  unfold bind, core_info, core_setOutput, emit in H.
  fold (release_date_of (now w)) in H. fold (release_timestamp_of (now w)) in H.
  match type of H with
  | context [previous_release w owner repo ?t0] =>
      destruct (previous_release_plain owner repo t0)
        as [hp [tag [date [evs2 [E2 [Hq2 Hok]]]]]];
      rewrite E2 in H
  end.
  match type of H with
  | context [since_date w hp date ?t0] =>
      destruct (since_date_plain hp date t0) as [evs3 [E3 Hq3]];
      rewrite E3 in H
  end.
  unfold call at 1 in H.
  destruct (pulls_list w owner repo) as [allPRs|e] eqn:Hpulls; [|discriminate].
  match type of H with
  | context [summarize w ?key ?g empty_obj [] ?t0] =>
      destruct (summarize_requests w key g empty_obj [] t0)
        as [added [evs4 [E4 [_ [Hq4 [Hlo [Hhi Hu4]]]]]]];
      rewrite E4 in H
  end.
  unfold call at 1 in H.
  destruct (mkdirSync w ARTIFACT_DIR) as [[]|e] eqn:Hmk; [|discriminate].
  unfold call at 1 in H.
  match type of H with
  | context [writeFileSync w ARTIFACT_PATH ?d] =>
      destruct (writeFileSync w ARTIFACT_PATH d) as [[]|e] eqn:Hwr; [|discriminate]
  end.
  match type of H with
  | context [upload w ?n ?p ?d ?t0] =>
      destruct (upload_detail n p d t0) as [evs5 [E5 [Ho5 [Hf5 [Hu5 Hw5]]]]];
      rewrite E5 in H
  end.
  unfold ret in H.
  pose proof (f_equal snd H) as Ht. cbn [snd] in Ht.
  pose proof (f_equal fst H) as HL. cbn [fst] in HL. injection HL as HL.
  clear H. subst L t.
  pose proof (plain_quiet _ Hq2) as Hq2'. pose proof (plain_quiet _ Hq3) as Hq3'.
  constructor;
    cbn [loc_groupingLabels loc_requireFeatureLabel loc_hasPreviousRelease
         loc_previousTag loc_previousReleaseDate loc_sinceDate loc_allPRs
         loc_relevantPRs loc_prGroups loc_groupedSummaries loc_labelGroups
         loc_artifactData metadata groups].
  - rewrite !outputs_app, Ho5, (quiet_outputs _ Hq2'), (quiet_outputs _ Hq3'),
      (quiet_outputs _ Hq4). reflexivity.
  - reflexivity.
  - exists owner, repo. split; [assumption | exact Hok].
  - rewrite !fetch_count_app, Hf5, (plain_no_fetch _ Hq2), (plain_no_fetch _ Hq3).
    change (fetch_count []) with 0%nat.
    repeat match goal with
           | |- context [fetch_count [?e]] => change (fetch_count [e]) with 0%nat
           end.
    cbn [app]. lia.
  - split; [first [exact Hmk | reflexivity] | first [exact Hwr | reflexivity]].
  - rewrite !uploads_app, Hu5, Hu4, (plain_no_upload _ Hq2), (plain_no_upload _ Hq3).
    reflexivity.
  - intros e He. rewrite !warnings_app. rewrite (Hw5 e He).
    apply in_or_app. left. apply in_or_app. right. now left.
Qed.

End RunDetail.

(** ** The outputs of a completed run, one by one *)

(** X9. The upload decides [artifact-name] and nothing else: the run asks
    once for the upload of "changelog-" followed by the release timestamp;
    when the upload succeeds that name is the output, when it throws the
    output is empty, a warning says so, and the run still does not fail. *)
Theorem artifact_name_follows_upload (w : World) (L : Locals) (t : trace) :
  run_steps w [] = (Ok L, t) ->
  let artifactName := "changelog-" ++ release_timestamp_of (now w) in
  let outcome := uploadArtifact w artifactName [ARTIFACT_PATH] ARTIFACT_DIR in
  uploads t = [artifactName]
  /\ failures t = []
  /\ output "release-timestamp" t = Some (release_timestamp_of (now w))
  /\ (forall size, outcome = Ok size -> output "artifact-name" t = Some artifactName)
  /\ (forall e, outcome = Throw e ->
        output "artifact-name" t = Some ""
        /\ In ("Failed to upload artifact: " ++ string_of_thrown e) (warnings t)).
Proof.
  intros H artifactName outcome.
  pose proof (run_steps_completed _ _ _ H) as C.
  pose proof (run_steps_detail _ _ _ H) as D.
  pose proof (cd_outputs _ _ _ D) as Hout. fold artifactName in Hout. fold outcome in Hout.
  split; [apply (cd_uploads _ _ _ D)|].
  split; [apply (cr_failures _ _ _ C)|].
  split; [unfold output; rewrite Hout; reflexivity|].
  split.
  - intros size E. unfold output. rewrite Hout, E. reflexivity.
  - intros e E. split.
    + unfold output. rewrite Hout, E. reflexivity.
    + apply (cd_upload_warning _ _ _ D). exact E.
Qed.

(** X10. The metadata of the artifact document repeats the outputs: its
    release date and timestamp are the outputs of those names, its count is
    the number that [total-prs] prints, its labels are the parsed grouping
    labels; and the document is the one file the run writes. *)
Theorem artifact_metadata_matches_outputs (w : World) (L : Locals) (t : trace) :
  run_steps w [] = (Ok L, t) ->
  let m := metadata (loc_artifactData L) in
  files_written t
  = [(ARTIFACT_PATH, stringify_indent2 (json_of_ArtifactData (loc_artifactData L)))]
  /\ output "release-date" t = Some (releaseDate m)
  /\ output "release-timestamp" t = Some (releaseTimestamp m)
  /\ output "total-prs" t = Some (string_of_nat (totalPRs m))
  /\ groupingLabels m = parse_labels (getInput w "grouping-labels")
  /\ generatedAt m = toISOString (now_generated w).
Proof.
  intros H m.
  pose proof (run_steps_completed _ _ _ H) as C.
  pose proof (run_steps_detail _ _ _ H) as D.
  pose proof (cd_outputs _ _ _ D) as Hout.
  subst m. rewrite (cd_metadata _ _ _ D). cbn [releaseDate releaseTimestamp totalPRs
    groupingLabels generatedAt].
  split; [apply (cr_file _ _ _ C)|].
  repeat split; try (unfold output; rewrite Hout; reflexivity).
  apply (cr_labels _ _ _ C).
Qed.

(** X11. When the lookup returns a release with a non-zero id, the three
    outputs report it and its creation time is the cutoff; a release whose
    id is zero counts as no release. *)
Theorem previous_release_found (w : World) (L : Locals) (t : trace)
    (owner repo : string) (r : Release) :
  run_steps w [] = (Ok L, t) ->
  context_repo w = Ok (owner, repo) ->
  getLatestRelease w owner repo = Ok r ->
  (id r <> 0%Z ->
   output "has-previous-release" t = Some "true"
   /\ output "previous-tag" t = Some (tag_name r)
   /\ output "previous-release-date" t = Some (created_at r)
   /\ loc_sinceDate L = created_at r)
  /\ (id r = 0%Z ->
      output "has-previous-release" t = Some "false"
      /\ output "previous-tag" t = Some ""
      /\ output "previous-release-date" t = Some ""
      /\ loc_sinceDate L = toISOString (now w - SEVEN_DAYS_MS)).
Proof.
  intros H Hctx Hrel.
  pose proof (run_steps_completed _ _ _ H) as C.
  pose proof (run_steps_detail _ _ _ H) as D.
  pose proof (cd_outputs _ _ _ D) as Hout.
  destruct (cd_release _ _ _ D) as [owner' [repo' [Hctx' Hok]]].
  rewrite Hctx in Hctx'. injection Hctx' as <- <-.
  specialize (Hok r Hrel).
  split; intros Hid.
  - apply Z.eqb_neq in Hid. rewrite Hid in Hok. destruct Hok as [Hhp [Htag Hdate]].
    unfold output. rewrite Hout, (cr_since _ _ _ C), Hhp, Htag, Hdate.
    repeat split.
  - apply Z.eqb_eq in Hid. rewrite Hid in Hok. destruct Hok as [Hhp [Htag Hdate]].
    unfold output. rewrite Hout, (cr_since _ _ _ C), Hhp, Htag, Hdate.
    repeat split.
Qed.

(** X12. A completed run sets each of the ten outputs exactly once, in the
    order of the source. *)
Theorem outputs_set_once (w : World) (L : Locals) (t : trace) :
  run_steps w [] = (Ok L, t) ->
  map fst (outputs t) = OUTPUT_NAMES
  /\ NoDup (map fst (outputs t))
  /\ (forall n, In n OUTPUT_NAMES -> exists v, output n t = Some v).
Proof.
  intros H. pose proof (run_steps_detail _ _ _ H) as D.
  pose proof (cd_outputs _ _ _ D) as Hout.
  assert (Hnames : map fst (outputs t) = OUTPUT_NAMES) by (rewrite Hout; reflexivity).
  split; [exact Hnames|]. split.
  - rewrite Hnames. unfold OUTPUT_NAMES.
    repeat (constructor; [simpl; intuition discriminate|]). constructor.
  - intros n Hn. unfold output. rewrite Hout.
    unfold OUTPUT_NAMES in Hn. simpl in Hn.
    repeat (destruct Hn as [<-|Hn]; [eexists; reflexivity|]). contradiction.
Qed.

Lemma relevant_has_grouping_label (sinceDate : string) (gl : list string)
    (feature : bool) (allPRs : list RawPR) (p : PR) :
  In p (relevant sinceDate gl feature allPRs) ->
  merged_at p <> ""
  /\ (sinceDate <? merged_at p)%string = true
  /\ (exists l, In l (labels p) /\ In l gl)
  /\ (feature = true -> In "feature" (labels p)).
Proof.
  unfold relevant. rewrite in_map_iff. intros [pr [<- Hin]].
  apply filter_In in Hin. destruct Hin as [_ Hrel].
  apply is_relevant_spec in Hrel.
  destruct Hrel as [[m [Hm [Hne Hlt]]] [Hl Hf]].
  unfold project. cbn [merged_at labels]. rewrite Hm.
  assert (Hor : or_else (Some m) "" = m).
  { unfold or_else, truthy. apply String.eqb_neq in Hne. now rewrite Hne. }
  rewrite Hor. repeat split; assumption.
Qed.

Lemma completed_has_content (w : World) (L : Locals) (t : trace) :
  completed w L t ->
  output "has-content" t = Some (string_of_bool (nonempty (loc_labelGroups L))).
Proof.
  intros C. destruct (cr_outputs _ _ _ C) as [rd [rt [an Hout]]].
  unfold output. rewrite Hout. reflexivity.
Qed.

Lemma group_entry_nil (lgs : list LabelGroup) : map group_entry lgs = [] -> lgs = [].
Proof. destruct lgs; [reflexivity | discriminate]. Qed.

Lemma bucket_of_nil (k : string) : bucket_of k [] = [].
Proof. reflexivity. Qed.

(** X13. When no pull request passes the filter, the run still completes
    with all its outputs: [total-prs] is "0", [has-content] is "false",
    [label-groups] is empty, [grouped-summaries] is the empty object, the
    artifact has no group, and no request was sent to the endpoint. *)
Theorem nothing_to_report (w : World) (L : Locals) (t : trace) :
  run_steps w [] = (Ok L, t) ->
  loc_relevantPRs L = [] ->
  output "total-prs" t = Some "0"
  /\ output "has-content" t = Some "false"
  /\ output "label-groups" t = Some ""
  /\ output "grouped-summaries" t = Some "{}"
  /\ groups (loc_artifactData L) = []
  /\ fetch_count t = 0%nat.
Proof.
  intros H Hnone.
  pose proof (run_steps_completed _ _ _ H) as C.
  pose proof (run_steps_detail _ _ _ H) as D.
  pose proof (cd_outputs _ _ _ D) as Hout.
  assert (Hlgs : loc_labelGroups L = []).
  { apply group_entry_nil. rewrite (completed_label_groups _ _ _ C), Hnone.
    induction (first_occurrences (loc_groupingLabels L)) as [|k l IH];
      [reflexivity | exact IH]. }
  assert (Hgs : loc_groupedSummaries L = empty_obj).
  { rewrite (cr_summaries _ _ _ C), Hlgs. reflexivity. }
  rewrite Hnone, Hlgs, Hgs in Hout.
  repeat split; try (unfold output; rewrite Hout; reflexivity).
  - now rewrite (cr_artifact_groups _ _ _ C).
  - destruct (cd_requests _ _ _ D) as [_ Hhi]. rewrite Hlgs in Hhi. simpl in Hhi. lia.
Qed.

(** X14. Every pull request that passes the filter is a member of some
    group, so [has-content] is "true" exactly when a pull request passed. *)
Theorem filtered_pr_is_grouped (w : World) (L : Locals) (t : trace) :
  run_steps w [] = (Ok L, t) ->
  (forall p, In p (loc_relevantPRs L) ->
     exists g, In g (groups (loc_artifactData L)) /\ In p (prs g))
  /\ (forall g p, In g (groups (loc_artifactData L)) -> In p (prs g) ->
        In p (loc_relevantPRs L) /\ In (name g) (labels p))
  /\ (output "has-content" t = Some "true" <-> loc_relevantPRs L <> []).
Proof.
  intros H.
  pose proof (run_steps_completed _ _ _ H) as C.
  assert (Hgrouped : forall p, In p (loc_relevantPRs L) ->
            exists g, In g (loc_labelGroups L) /\ In p (prs g)).
  { intros p Hp. pose proof Hp as Hp'.
    rewrite (cr_relevant _ _ _ C) in Hp'.
    apply relevant_has_grouping_label in Hp'.
    destruct Hp' as [_ [_ [[l [Hl Hgl]] _]]].
    assert (Hin : In p (bucket_of l (loc_relevantPRs L))) by (apply bucket_of_In; tauto).
    assert (Hentry : In (l, bucket_of l (loc_relevantPRs L))
                       (map group_entry (loc_labelGroups L))).
    { rewrite (completed_label_groups _ _ _ C), filter_In. split.
      - apply in_map_iff. exists l. split; [reflexivity|].
        now apply first_occurrences_In.
      - apply nonempty_iff. intros Hnil. simpl in Hnil. rewrite Hnil in Hin.
        contradiction. }
    apply in_map_iff in Hentry. destruct Hentry as [g [Hg Hgin]].
    exists g. split; [assumption|]. injection Hg as _ Hprs. now rewrite Hprs. }
  rewrite (cr_artifact_groups _ _ _ C).
  split; [exact Hgrouped|]. split.
  - intros g p Hg Hp.
    destruct (completed_label_group _ _ _ _ C Hg) as [_ [Hprs _]].
    rewrite Hprs in Hp. now apply bucket_of_In in Hp.
  - rewrite (completed_has_content _ _ _ C). split.
    + intros Htrue Hnil.
      destruct (loc_labelGroups L) as [|g lgs] eqn:E; [discriminate Htrue|].
      assert (Hg : In g (loc_labelGroups L)) by (rewrite E; now left).
      destruct (completed_label_group _ _ _ _ C Hg) as [_ [Hprs Hmem]].
      rewrite Hnil in Hprs. now apply Hmem.
    + intros Hne. destruct (loc_relevantPRs L) as [|p ps] eqn:E; [congruence|].
      destruct (Hgrouped p (or_introl eq_refl)) as [g [Hg Hp]].
      destruct (loc_labelGroups L); [contradiction | reflexivity].
Qed.

(** X15. The names in [label-groups] are distinct, each is one of the parsed
    grouping labels, and splitting the output on commas gives back the names
    of the artifact groups; with no group the output is the empty string. *)
Theorem label_groups_split_back (w : World) (L : Locals) (t : trace) :
  run_steps w [] = (Ok L, t) ->
  let names := map name (groups (loc_artifactData L)) in
  output "label-groups" t = Some (join "," names)
  /\ NoDup names
  /\ (forall n, In n names -> In n (parse_labels (getInput w "grouping-labels")))
  /\ (names <> [] -> split "," (join "," names) = names)
  /\ (names = [] -> join "," names = "").
Proof.
  intros H names. subst names.
  pose proof (run_steps_completed _ _ _ H) as C.
  rewrite (cr_artifact_groups _ _ _ C).
  assert (Hsub : forall n, In n (map name (loc_labelGroups L)) ->
                   In n (parse_labels (getInput w "grouping-labels"))).
  { intros n Hn. apply in_map_iff in Hn. destruct Hn as [g [<- Hg]].
    destruct (completed_label_group _ _ _ _ C Hg) as [Hin _].
    now rewrite (cr_labels _ _ _ C) in Hin. }
  split.
  { destruct (cr_outputs _ _ _ C) as [rd [rt [an Hout]]].
    unfold output. rewrite Hout. reflexivity. }
  split; [apply (completed_names_NoDup _ _ _ C)|].
  split; [exact Hsub|]. split.
  - intros Hne. apply split_join; [assumption|].
    intros n Hn. apply Hsub in Hn.
    destruct (parse_labels_In_clean _ _ Hn) as [[_ [_ [_ Hcomma]]] _]. exact Hcomma.
  - intros ->. reflexivity.
Qed.

(** ** Where a run can fail *)

Lemma run_of_thrown (w : World) (e : thrown) (t : trace) :
  run_steps w [] = (Throw e, t) -> run w = (t ++ [SetFailed (failure_message e)])%list.
Proof. intros E. unfold run. rewrite E. destruct e; reflexivity. Qed.

(** Where the [try] block of [run] can throw, and what it has done by
    then. *)
Lemma run_steps_thrown (w : World) (e : thrown) (t : trace) :
  run_steps w [] = (Throw e, t) ->
  failures t = []
  /\ uploads t = []
  /\ ((t = [] /\ (~ valid_inputs w \/ context_repo w = Throw e))
      \/ (exists owner repo,
            context_repo w = Ok (owner, repo)
            /\ pulls_list w owner repo = Throw e
            /\ map fst (outputs t) = firstn 5 OUTPUT_NAMES
            /\ fetch_count t = 0%nat /\ files_written t = [])
      \/ (exists owner repo allPRs,
            context_repo w = Ok (owner, repo)
            /\ pulls_list w owner repo = Ok allPRs
            /\ map fst (outputs t) = firstn 9 OUTPUT_NAMES
            /\ (mkdirSync w ARTIFACT_DIR = Throw e /\ files_written t = []
                \/ exists data,
                     mkdirSync w ARTIFACT_DIR = Ok tt
                     /\ writeFileSync w ARTIFACT_PATH data = Throw e
                     /\ files_written t = [(ARTIFACT_PATH, data)]))).
Proof.
  intros H.
  unfold run_steps in H.
  destruct (negb (truthy (getInput w "github-token")) || _ || _) eqn:Hin.
  { injection H as <- <-. repeat split.
    left. split; [reflexivity|]. left. intros [H1 [H2 [H3 _]]].
    apply String.eqb_neq in H1, H2, H3. unfold truthy in Hin.
    rewrite H1, H2, H3 in Hin. discriminate Hin. }
  destruct (List.length (parse_labels (getInput w "grouping-labels")) =? 0)%nat
    eqn:Hlab.
  { injection H as <- <-. repeat split.
    left. split; [reflexivity|]. left. intros [_ [_ [_ H4]]].
    destruct (parse_labels (getInput w "grouping-labels")); [congruence|discriminate]. }
  unfold bind at 1 in H.
  destruct (context_repo w) as [[owner repo]|e0] eqn:Hctx.
  2:{ injection H as <- <-. repeat split.
      left. split; [reflexivity|]. now right. }
  unfold bind, core_info, core_setOutput, emit in H.
  match type of H with
  | context [previous_release w owner repo ?t0] =>
      destruct (previous_release_plain w owner repo t0)
        as [hp [tag [date [evs2 [E2 [Hq2 _]]]]]];
      rewrite E2 in H
  end.
  match type of H with
  | context [since_date w hp date ?t0] =>
      destruct (since_date_plain w hp date t0) as [evs3 [E3 Hq3]];
      rewrite E3 in H
  end.
  pose proof (plain_quiet _ Hq2) as Hq2'. pose proof (plain_quiet _ Hq3) as Hq3'.
  unfold call at 1 in H.
  destruct (pulls_list w owner repo) as [allPRs|e0] eqn:Hpulls.
  2:{ pose proof (f_equal snd H) as Ht. cbn [snd] in Ht.
      pose proof (f_equal fst H) as He. cbn [fst] in He. injection He as ->.
      clear H. subst t.
      split.
      { rewrite !failures_app, (quiet_failures _ Hq2'), (quiet_failures _ Hq3').
        reflexivity. }
      split.
      { rewrite !uploads_app, (plain_no_upload _ Hq2), (plain_no_upload _ Hq3).
        reflexivity. }
      right. left. exists owner, repo.
      split; [reflexivity|]. split; [exact Hpulls|]. split; [|split].
      - rewrite !outputs_app, (quiet_outputs _ Hq2'), (quiet_outputs _ Hq3').
        reflexivity.
      - rewrite !fetch_count_app, (plain_no_fetch _ Hq2), (plain_no_fetch _ Hq3).
        reflexivity.
      - rewrite !files_written_app, (quiet_files_written _ Hq2'),
          (quiet_files_written _ Hq3'). reflexivity. }
  match type of H with
  | context [summarize w ?key ?g empty_obj [] ?t0] =>
      destruct (summarize_requests w key g empty_obj [] t0)
        as [added [evs4 [E4 [_ [Hq4 [_ [_ Hu4]]]]]]];
      rewrite E4 in H
  end.
  unfold call at 1 in H.
  destruct (mkdirSync w ARTIFACT_DIR) as [[]|e0] eqn:Hmk.
  2:{ pose proof (f_equal snd H) as Ht. cbn [snd] in Ht.
      pose proof (f_equal fst H) as He. cbn [fst] in He. injection He as ->.
      clear H. subst t.
      split.
      { rewrite !failures_app, (quiet_failures _ Hq2'), (quiet_failures _ Hq3'),
          (quiet_failures _ Hq4). reflexivity. }
      split.
      { rewrite !uploads_app, (plain_no_upload _ Hq2), (plain_no_upload _ Hq3), Hu4.
        reflexivity. }
      right. right. exists owner, repo, allPRs.
      split; [reflexivity|]. split; [exact Hpulls|]. split.
      - rewrite !outputs_app, (quiet_outputs _ Hq2'), (quiet_outputs _ Hq3'),
          (quiet_outputs _ Hq4). reflexivity.
      - left. split; [reflexivity|].
        rewrite !files_written_app, (quiet_files_written _ Hq2'),
          (quiet_files_written _ Hq3'), (quiet_files_written _ Hq4). reflexivity. }
  unfold call at 1 in H.
  match type of H with
  | context [writeFileSync w ARTIFACT_PATH ?d] =>
      destruct (writeFileSync w ARTIFACT_PATH d) as [[]|e0] eqn:Hwr
  end.
  2:{ pose proof (f_equal snd H) as Ht. cbn [snd] in Ht.
      pose proof (f_equal fst H) as He. cbn [fst] in He. injection He as ->.
      clear H. subst t.
      split.
      { rewrite !failures_app, (quiet_failures _ Hq2'), (quiet_failures _ Hq3'),
          (quiet_failures _ Hq4). reflexivity. }
      split.
      { rewrite !uploads_app, (plain_no_upload _ Hq2), (plain_no_upload _ Hq3), Hu4.
        reflexivity. }
      right. right. exists owner, repo, allPRs.
      split; [reflexivity|]. split; [exact Hpulls|]. split.
      - rewrite !outputs_app, (quiet_outputs _ Hq2'), (quiet_outputs _ Hq3'),
          (quiet_outputs _ Hq4). reflexivity.
      - right. eexists. split; [first [exact Hmk | reflexivity]|].
        split; [first [exact Hwr | reflexivity]|].
        rewrite !files_written_app, (quiet_files_written _ Hq2'),
          (quiet_files_written _ Hq3'), (quiet_files_written _ Hq4). reflexivity. }
  match type of H with
  | context [upload w ?n ?p ?d ?t0] =>
      destruct (upload_detail w n p d t0) as [evs5 [E5 _]];
      rewrite E5 in H
  end.
  discriminate H.
Qed.

(** X16. A run whose [try] block throws has failed at one of five places:
    the validation of the inputs, the reading of the repository, the listing
    of the pull requests, the creation of the directory, or the writing of
    the file; never at the release lookup, the endpoint or the upload.  It
    signals the failure once, after the outputs set so far: none, the first
    five, or the first nine; it never asks for an upload, and the write that
    throws is the only one it has asked for. *)
Theorem run_failure_points (w : World) (e : thrown) (t : trace) :
  run_steps w [] = (Throw e, t) ->
  run w = (t ++ [SetFailed (failure_message e)])%list
  /\ failures (run w) = [failure_message e]
  /\ uploads (run w) = []
  /\ ((t = [] /\ (~ valid_inputs w \/ context_repo w = Throw e))
      \/ (exists owner repo,
            context_repo w = Ok (owner, repo)
            /\ pulls_list w owner repo = Throw e
            /\ map fst (outputs t) = firstn 5 OUTPUT_NAMES
            /\ fetch_count t = 0%nat /\ files_written t = [])
      \/ (exists owner repo allPRs,
            context_repo w = Ok (owner, repo)
            /\ pulls_list w owner repo = Ok allPRs
            /\ map fst (outputs t) = firstn 9 OUTPUT_NAMES
            /\ (mkdirSync w ARTIFACT_DIR = Throw e /\ files_written t = []
                \/ exists data,
                     mkdirSync w ARTIFACT_DIR = Ok tt
                     /\ writeFileSync w ARTIFACT_PATH data = Throw e
                     /\ files_written t = [(ARTIFACT_PATH, data)]))).
Proof.
  intros H. rewrite (run_of_thrown _ _ _ H).
  destruct (run_steps_thrown _ _ _ H) as [Hf [Hu Hwhere]].
  split; [reflexivity|].
  split; [rewrite failures_app, Hf; reflexivity|].
  split; [rewrite uploads_app, Hu; reflexivity|].
  exact Hwhere.
Qed.

Lemma after_failure (t : trace) (m : string) :
  failures (t ++ [SetFailed m]) = (failures t ++ [m])%list
  /\ outputs (t ++ [SetFailed m]) = outputs t
  /\ fetch_count (t ++ [SetFailed m]) = fetch_count t
  /\ files_written (t ++ [SetFailed m]) = files_written t
  /\ uploads (t ++ [SetFailed m]) = uploads t.
Proof.
  rewrite failures_app, outputs_app, fetch_count_app, files_written_app, uploads_app.
  cbn [failures outputs files_written uploads].
  change (fetch_count [SetFailed m]) with 0%nat.
  rewrite !app_nil_r, Nat.add_0_r. repeat split.
Qed.

Lemma run_steps_total (w : World) :
  (exists L t, run_steps w [] = (Ok L, t))
  \/ (exists e t, run_steps w [] = (Throw e, t)).
Proof.
  destruct (run_steps w []) as [[L|e] t]; [left | right]; eauto.
Qed.

(** X17. The run completes whenever its inputs are valid, the repository
    can be read, the listing answers, and the directory and the file can be
    written: whatever the release lookup, the endpoint and the upload do, it
    reaches the end, signals no failure and has set the ten outputs. *)
Theorem run_completes (w : World) (owner repo : string) (allPRs : list RawPR) :
  valid_inputs w ->
  context_repo w = Ok (owner, repo) ->
  pulls_list w owner repo = Ok allPRs ->
  mkdirSync w ARTIFACT_DIR = Ok tt ->
  (forall data, writeFileSync w ARTIFACT_PATH data = Ok tt) ->
  exists L,
    run_steps w [] = (Ok L, run w)
    /\ failures (run w) = []
    /\ map fst (outputs (run w)) = OUTPUT_NAMES
    /\ loc_allPRs L = allPRs.
Proof.
  intros Hvalid Hctx Hpulls Hmk Hwr.
  destruct (run_steps_total w) as [[L [t E]]|[e [t E]]].
  - pose proof (run_steps_completed _ _ _ E) as C.
    pose proof (run_steps_detail _ _ _ E) as D.
    exists L. rewrite (cr_run _ _ _ C).
    split; [exact E|]. split; [apply (cr_failures _ _ _ C)|]. split.
    + rewrite (cd_outputs _ _ _ D). reflexivity.
    + destruct (cr_collaborators _ _ _ C) as [o [r [Hc [Hp _]]]].
      rewrite Hctx in Hc. injection Hc as <- <-. rewrite Hpulls in Hp.
      now injection Hp.
  - exfalso. destruct (run_steps_thrown _ _ _ E) as [_ [_ Hwhere]].
    destruct Hwhere as [[_ [Hv|Hc]]|[[o [r [Hc [Hp _]]]]|[o [r [a [Hc [Hp [_ Hart]]]]]]]].
    + now apply Hv.
    + rewrite Hctx in Hc. discriminate Hc.
    + rewrite Hctx in Hc. injection Hc as <- <-. rewrite Hpulls in Hp. discriminate Hp.
    + destruct Hart as [[Hm _]|[data [_ [Hw _]]]].
      * rewrite Hmk in Hm. discriminate Hm.
      * rewrite Hwr in Hw. discriminate Hw.
Qed.

(** X18. When the listing of the pull requests throws, the run fails with
    the message of that error (or "An unknown error occurred" for a thrown
    value that is not an error): it has set the five outputs of the first
    two steps and no other, sent no request to the endpoint, written no file
    and uploaded nothing. *)
Theorem listing_failure_fails_run (w : World) (owner repo : string) (e : thrown) :
  valid_inputs w ->
  context_repo w = Ok (owner, repo) ->
  pulls_list w owner repo = Throw e ->
  failures (run w) = [failure_message e]
  /\ map fst (outputs (run w)) = firstn 5 OUTPUT_NAMES
  /\ fetch_count (run w) = 0%nat
  /\ files_written (run w) = []
  /\ uploads (run w) = [].
Proof.
  intros Hvalid Hctx Hpulls.
  destruct (run_steps_total w) as [[L [t E]]|[e' [t E]]].
  - exfalso. pose proof (run_steps_completed _ _ _ E) as C.
    destruct (cr_collaborators _ _ _ C) as [o [r [Hc [Hp _]]]].
    rewrite Hctx in Hc. injection Hc as <- <-. rewrite Hpulls in Hp. discriminate Hp.
  - rewrite (run_of_thrown _ _ _ E).
    destruct (run_steps_thrown _ _ _ E) as [Hf [Hu Hwhere]].
    destruct Hwhere as [[_ [Hv|Hc]]|[[o [r [Hc [Hp [Hout [Hreq Hfile]]]]]]
                                    |[o [r [a [Hc [Hp _]]]]]]].
    + exfalso. now apply Hv.
    + rewrite Hctx in Hc. discriminate Hc.
    + rewrite Hctx in Hc. injection Hc as <- <-. rewrite Hpulls in Hp.
      injection Hp as <-.
      destruct (after_failure t (failure_message e)) as [-> [-> [-> [-> ->]]]].
      rewrite Hf, Hout, Hreq, Hfile, Hu. repeat split.
    + rewrite Hctx in Hc. injection Hc as <- <-. rewrite Hpulls in Hp. discriminate Hp.
Qed.

(** X19. When the artifact directory cannot be created, the run fails with
    the message of that error after the nine outputs of the first four
    steps: [artifact-name] is not set, no file is written and nothing is
    uploaded, although the summaries have been requested. *)
Theorem mkdir_failure_fails_run (w : World) (owner repo : string)
    (allPRs : list RawPR) (e : thrown) :
  valid_inputs w ->
  context_repo w = Ok (owner, repo) ->
  pulls_list w owner repo = Ok allPRs ->
  mkdirSync w ARTIFACT_DIR = Throw e ->
  failures (run w) = [failure_message e]
  /\ map fst (outputs (run w)) = firstn 9 OUTPUT_NAMES
  /\ output "artifact-name" (run w) = None
  /\ files_written (run w) = []
  /\ uploads (run w) = [].
Proof.
  intros Hvalid Hctx Hpulls Hmk.
  assert (Hnone : forall t, map fst (outputs t) = firstn 9 OUTPUT_NAMES ->
                    output "artifact-name" t = None).
  { intros t Ht. unfold output.
    destruct (outputs t) as [|[n1 v1] [|[n2 v2] [|[n3 v3] [|[n4 v4] [|[n5 v5]
      [|[n6 v6] [|[n7 v7] [|[n8 v8] [|[n9 v9] [|x l]]]]]]]]]]; try discriminate Ht.
    injection Ht as -> -> -> -> -> -> -> -> ->. reflexivity. }
  destruct (run_steps_total w) as [[L [t E]]|[e' [t E]]].
  - exfalso. pose proof (run_steps_detail _ _ _ E) as D.
    destruct (cd_written _ _ _ D) as [Hm _]. rewrite Hmk in Hm. discriminate Hm.
  - rewrite (run_of_thrown _ _ _ E).
    destruct (run_steps_thrown _ _ _ E) as [Hf [Hu Hwhere]].
    destruct Hwhere as [[_ [Hv|Hc]]|[[o [r [Hc [Hp _]]]]
                                    |[o [r [a [Hc [Hp [Hout Hart]]]]]]]].
    + exfalso. now apply Hv.
    + rewrite Hctx in Hc. discriminate Hc.
    + rewrite Hctx in Hc. injection Hc as <- <-. rewrite Hpulls in Hp. discriminate Hp.
    + destruct Hart as [[Hm Hfile]|[data [Hm _]]].
      * rewrite Hmk in Hm. injection Hm as <-.
        destruct (after_failure t (failure_message e)) as [Hf' [Ho' [_ [Hfi' Hu']]]].
        split; [rewrite Hf', Hf; reflexivity|].
        split; [rewrite Ho'; exact Hout|].
        split; [apply Hnone; rewrite Ho'; exact Hout|].
        split; [rewrite Hfi'; exact Hfile | rewrite Hu'; exact Hu].
      * rewrite Hmk in Hm. discriminate Hm.
Qed.

(** ** The filter under other settings *)

Lemma string_order_trans (a b c : string) :
  (a <=? b)%string = true -> (b <? c)%string = true -> (a <? c)%string = true.
Proof.
  unfold String.leb, String.ltb. intros H1 H2.
  destruct (b ?= c)%string eqn:Ebc; try discriminate H2.
  destruct (a ?= b)%string eqn:Eab; try discriminate H1.
  - apply String.compare_eq_iff in Eab. subst a. now rewrite Ebc.
  - change (a ?= b)%string with (OrderedTypeEx.String_as_OT.cmp a b) in Eab.
    change (b ?= c)%string with (OrderedTypeEx.String_as_OT.cmp b c) in Ebc.
    apply OrderedTypeEx.String_as_OT.cmp_lt in Eab, Ebc.
    change (a ?= c)%string with (OrderedTypeEx.String_as_OT.cmp a c).
    now rewrite (proj2 (OrderedTypeEx.String_as_OT.cmp_lt a c) (OrderedTypeEx.String_as_OT.lt_trans _ _ _ Eab Ebc)).
Qed.

Lemma string_leb_refl (s : string) : (s <=? s)%string = true.
Proof.
  unfold String.leb. change (s ?= s)%string with (OrderedTypeEx.String_as_OT.cmp s s).
  now rewrite (proj2 (OrderedTypeEx.String_as_OT.cmp_eq s s) eq_refl).
Qed.

Lemma is_relevant_monotone (s s' : string) (gl gl' : list string) (f f' : bool)
    (pr : RawPR) :
  (s <=? s')%string = true -> incl gl' gl -> (f = true -> f' = true) ->
  is_relevant s' gl' f' pr = true -> is_relevant s gl f pr = true.
Proof.
  intros Hs Hgl Hf H. apply is_relevant_spec in H. apply is_relevant_spec.
  destruct H as [[m [Hm [Hne Hlt]]] [[l [Hl Hin]] Hfeat]].
  split; [|split].
  - exists m. split; [assumption|]. split; [assumption|].
    now apply (string_order_trans s s' m).
  - exists l. split; [assumption | now apply Hgl].
  - intros E. apply Hfeat, Hf, E.
Qed.

Lemma filter_length_impl {A : Type} (p q : A -> bool) (l : list A) :
  (forall x, In x l -> p x = true -> q x = true) ->
  (List.length (filter p l) <= List.length (filter q l))%nat.
Proof.
  induction l as [|x l IH]; intros H; [apply Nat.le_refl|].
  assert (IH' := IH (fun y Hy => H y (or_intror Hy))).
  cbn [filter]. destruct (p x) eqn:Ep.
  - rewrite (H x (or_introl eq_refl) Ep). cbn [List.length]. lia.
  - destruct (q x); cbn [List.length]; lia.
Qed.

(** X20. The filter is monotone in its settings: an earlier cutoff, more
    grouping labels or dropping the [feature] requirement never removes a
    pull request, and the count that [total-prs] prints never exceeds the
    number of listed pull requests. *)
Theorem filter_monotone (s s' : string) (gl gl' : list string) (f f' : bool)
    (allPRs : list RawPR) :
  (s <=? s')%string = true -> incl gl' gl -> (f = true -> f' = true) ->
  (forall p, In p (relevant s' gl' f' allPRs) -> In p (relevant s gl f allPRs))
  /\ (List.length (relevant s' gl' f' allPRs)
      <= List.length (relevant s gl f allPRs))%nat
  /\ (List.length (relevant s gl f allPRs) <= List.length allPRs)%nat.
Proof.
  intros Hs Hgl Hf. unfold relevant. split; [|split].
  - intros p Hp. apply in_map_iff in Hp. destruct Hp as [pr [<- Hin]].
    apply in_map. apply filter_In in Hin. destruct Hin as [Hin Hrel].
    apply filter_In. split; [assumption|].
    now apply (is_relevant_monotone s s' gl gl' f f').
  - rewrite !length_map. apply filter_length_impl.
    intros pr _. now apply is_relevant_monotone.
  - rewrite length_map. apply filter_length_le.
Qed.

(** X21. The filter reads the grouping labels as a set: their order and
    their repetitions do not change which pull requests pass, nor the order
    in which they pass. *)
Theorem filter_reads_labels_as_set (s : string) (gl gl' : list string) (f : bool)
    (allPRs : list RawPR) :
  (forall l, In l gl <-> In l gl') ->
  relevant s gl f allPRs = relevant s gl' f allPRs.
Proof.
  intros Hsame. unfold relevant. f_equal. apply filter_ext. intros pr.
  destruct (is_relevant s gl f pr) eqn:E1; destruct (is_relevant s gl' f pr) eqn:E2;
    try reflexivity; exfalso.
  - assert (H : is_relevant s gl' f pr = true).
    { apply (is_relevant_monotone s s gl' gl f f); try assumption.
      - apply string_leb_refl.
      - intros l Hl. now apply Hsame.
      - tauto. }
    congruence.
  - assert (H : is_relevant s gl f pr = true).
    { apply (is_relevant_monotone s s gl gl' f f); try assumption.
      - apply string_leb_refl.
      - intros l Hl. now apply Hsame.
      - tauto. }
    congruence.
Qed.

(** ** The release date and the release timestamp *)

Lemma all_from_spec (fuel : nat) (z0 : Z) (p : Z -> bool) :
  all_from fuel z0 p = true ->
  forall z, (z0 <= z < z0 + Z.of_nat fuel)%Z -> p z = true.
Proof.
  revert z0. induction fuel as [|k IH]; intros z0 H z Hz; [lia|].
  simpl in H. destruct (p z0) eqn:E; [|discriminate].
  destruct (Z.eq_dec z z0) as [->|Hne]; [exact E|].
  apply (IH (z0 + 1)%Z H). lia.
Qed.

Lemma pad2_digits (z : Z) : (0 <= z < 100)%Z -> digits 2 (pad 2 z) = true.
Proof.
  apply (all_from_spec 100 0 (fun z => digits 2 (pad 2 z))). vm_compute. reflexivity.
Qed.

Lemma pad3_digits (z : Z) : (0 <= z < 1000)%Z -> digits 3 (pad 3 z) = true.
Proof.
  apply (all_from_spec 1000 0 (fun z => digits 3 (pad 3 z))). vm_compute. reflexivity.
Qed.

Lemma pad4_digits (z : Z) : (0 <= z < 10000)%Z -> digits 4 (pad 4 z) = true.
Proof.
  apply (all_from_spec 10000 0 (fun z => digits 4 (pad 4 z))). vm_compute. reflexivity.
Qed.

Lemma digits_length (n : nat) (s : string) : digits n s = true -> String.length s = n.
Proof. unfold digits. rewrite andb_true_iff, Nat.eqb_eq. tauto. Qed.

Lemma digits_chars (n : nat) (s : string) (c : ascii) :
  digits n s = true -> In c (chars s) -> is_digit c = true.
Proof.
  unfold digits. rewrite andb_true_iff, forallb_forall. intros [_ H]. apply H.
Qed.

Lemma append_assoc (a b c : string) : (a ++ b) ++ c = a ++ (b ++ c).
Proof. induction a as [|x a IH]; simpl; [reflexivity | now rewrite IH]. Qed.

Lemma append_empty_l (s : string) : "" ++ s = s.
Proof. reflexivity. Qed.

Lemma chars_append (a b : string) : chars (a ++ b) = (chars a ++ chars b)%list.
Proof. induction a as [|x a IH]; simpl; [reflexivity | unfold chars in *; simpl; now rewrite IH]. Qed.

Lemma length_append (a b : string) :
  String.length (a ++ b) = (String.length a + String.length b)%nat.
Proof. induction a as [|x a IH]; simpl; [reflexivity | now rewrite IH]. Qed.

Lemma remove_colons_dashes_append (a b : string) :
  remove_colons_dashes (a ++ b) = remove_colons_dashes a ++ remove_colons_dashes b.
Proof.
  induction a as [|x a IH]; simpl; [reflexivity|].
  destruct (Ascii.eqb x ":" || Ascii.eqb x "-"); simpl; now rewrite IH.
Qed.

Lemma remove_colons_dashes_digits (n : nat) (s : string) :
  digits n s = true -> remove_colons_dashes s = s.
Proof.
  intros H. assert (Hd : forall c, In c (chars s) -> is_digit c = true).
  { intros c. now apply (digits_chars n). }
  clear H. induction s as [|x s IH]; simpl; [reflexivity|].
  assert (Hx : is_digit x = true) by (apply Hd; now left).
  assert (E : Ascii.eqb x ":" || Ascii.eqb x "-" = false).
  { destruct (Ascii.eqb x ":") eqn:E1.
    - apply Ascii.eqb_eq in E1. subst x. discriminate Hx.
    - destruct (Ascii.eqb x "-") eqn:E2; [|reflexivity].
      apply Ascii.eqb_eq in E2. subst x. discriminate Hx. }
  rewrite E. f_equal. apply IH. intros c Hc. apply Hd. now right.
Qed.

Lemma replace_first_append (x y : ascii) (a b : string) :
  ~ In x (chars a) ->
  replace_first x y (a ++ String x b) = a ++ String y b.
Proof.
  induction a as [|c a IH]; simpl; intros H.
  - now rewrite Ascii.eqb_refl.
  - destruct (Ascii.eqb c x) eqn:E.
    + apply Ascii.eqb_eq in E. tauto.
    + rewrite IH; tauto.
Qed.

Lemma first_split (c : ascii) (a b : string) :
  ~ In c (chars a) -> first (split c (a ++ String c b)) = a.
Proof. intros H. now rewrite split_append. Qed.

Lemma not_digit_absent (n : nat) (s : string) (c : ascii) :
  digits n s = true -> is_digit c = false -> ~ In c (chars s).
Proof.
  intros Hd Hc Hin. rewrite (digits_chars n s c Hd Hin) in Hc. discriminate.
Qed.

Lemma doy_bounds (doe : Z) :
  (0 <= doe < 146097)%Z ->
  let yoe := ((doe - doe / 1460 + doe / 36524 - doe / 146096) / 365)%Z in
  let doy := (doe - (365 * yoe + yoe / 4 - yoe / 100))%Z in
  (0 <= doy <= 365)%Z.
Proof.
  intros H yoe doy. subst doy yoe.
  assert (Hb : (doe / 36524 = 0 \/ doe / 36524 = 1 \/ doe / 36524 = 2
                \/ doe / 36524 = 3 \/ doe / 36524 = 4)%Z).
  { Z.div_mod_to_equations. lia. }
  assert (Hc : (doe / 146096 = 0 \/ doe / 146096 = 1)%Z).
  { Z.div_mod_to_equations. lia. }
  destruct Hb as [Hb|[Hb|[Hb|[Hb|Hb]]]]; destruct Hc as [Hc|Hc]; rewrite Hb, Hc;
    try (exfalso; Z.div_mod_to_equations; lia);
    (Z.div_mod_to_equations; lia).
Qed.

Lemma md_bounds (doy : Z) :
  (0 <= doy <= 365)%Z ->
  let mp := ((5 * doy + 2) / 153)%Z in
  let d := (doy - (153 * mp + 2) / 5 + 1)%Z in
  let m := (if mp <? 10 then mp + 3 else mp - 9)%Z in
  (1 <= m <= 12 /\ 1 <= d <= 31)%Z.
Proof.
  intros H mp d m. subst m d.
  assert (Hmp : (0 <= mp <= 11)%Z) by (subst mp; Z.div_mod_to_equations; lia).
  assert (Hd : (5 * doy + 2 = 153 * mp + (5 * doy + 2) mod 153)%Z).
  { subst mp. apply Z.div_mod. lia. }
  pose proof (Z.mod_pos_bound (5 * doy + 2) 153 eq_refl) as Hr.
  clearbody mp. split.
  - destruct (mp <? 10)%Z eqn:E; [apply Z.ltb_lt in E | apply Z.ltb_ge in E]; lia.
  - Z.div_mod_to_equations. lia.
Qed.

(** The month and the day of a civil date are in their ranges. *)
Lemma civil_from_days_bounds (days y m d : Z) :
  civil_from_days days = (y, m, d) -> (1 <= m <= 12 /\ 1 <= d <= 31)%Z.
Proof.
  intros H. unfold civil_from_days in H. cbv zeta in H.
  assert (Hm := f_equal (fun p => snd (fst p)) H).
  assert (Hd := f_equal snd H). cbv beta in Hm. cbn [fst snd] in Hm, Hd.
  pose proof (Z.mod_pos_bound (days + 719468) 146097 eq_refl) as Hdoe.
  rewrite Z.mod_eq in Hdoe by lia.
  replace (146097 * ((days + 719468) / 146097))%Z
    with ((days + 719468) / 146097 * 146097)%Z in Hdoe by lia.
  pose proof (md_bounds _ (doy_bounds _ Hdoe)) as Hb. cbv zeta in Hb.
  rewrite Hm, Hd in Hb. exact Hb.
Qed.

(** The two strings of step 1 for a clock reading whose year has four
    digits. *)
Lemma release_strings_format (t y m d : Z) :
  civil_from_days (t / 86400000) = (y, m, d) ->
  (0 <= y <= 9999)%Z ->
  let ms := (t mod 86400000)%Z in
  let hh := pad 2 (ms / 3600000) in
  let mm := pad 2 ((ms / 60000) mod 60) in
  let ss := pad 2 ((ms / 1000) mod 60) in
  release_date_of t = pad 4 y ++ "-" ++ pad 2 m ++ "-" ++ pad 2 d
  /\ release_timestamp_of t = pad 4 y ++ pad 2 m ++ pad 2 d ++ "-" ++ hh ++ mm ++ ss
  /\ String.length (release_date_of t) = 10%nat
  /\ String.length (release_timestamp_of t) = 15%nat
  /\ digits 4 (pad 4 y) = true /\ digits 2 (pad 2 m) = true
  /\ digits 2 (pad 2 d) = true /\ digits 2 hh = true /\ digits 2 mm = true
  /\ digits 2 ss = true.
Proof.
  intros Hciv Hy ms hh mm ss.
  destruct (civil_from_days_bounds _ _ _ _ Hciv) as [Hm Hd].
  pose proof (Z.mod_pos_bound t 86400000 eq_refl) as Hms. fold ms in Hms.
  assert (Hh : (0 <= ms / 3600000 < 100)%Z) by (Z.div_mod_to_equations; lia).
  assert (Hmi : (0 <= (ms / 60000) mod 60 < 100)%Z) by (Z.div_mod_to_equations; lia).
  assert (Hs : (0 <= (ms / 1000) mod 60 < 100)%Z) by (Z.div_mod_to_equations; lia).
  assert (Hmil : (0 <= ms mod 1000 < 1000)%Z) by (Z.div_mod_to_equations; lia).
  pose proof (pad4_digits y ltac:(lia)) as Dy.
  pose proof (pad2_digits m ltac:(lia)) as Dm.
  pose proof (pad2_digits d ltac:(lia)) as Dd.
  pose proof (pad2_digits _ Hh) as Dh. fold hh in Dh.
  pose proof (pad2_digits _ Hmi) as Dmi. fold mm in Dmi.
  pose proof (pad2_digits _ Hs) as Ds. fold ss in Ds.
  pose proof (pad3_digits _ Hmil) as Dmil.
  assert (Hiso : toISOString t
                 = pad 4 y ++ "-" ++ pad 2 m ++ "-" ++ pad 2 d ++ "T"
                     ++ hh ++ ":" ++ mm ++ ":" ++ ss ++ "." ++ pad 3 (ms mod 1000) ++ "Z").
  { unfold toISOString. rewrite Hciv.
    replace ((0 <=? y) && (y <=? 9999))%Z with true; [reflexivity|].
    symmetry. apply andb_true_iff. split; apply Z.leb_le; lia. }
  assert (Hdate : release_date_of t = pad 4 y ++ "-" ++ pad 2 m ++ "-" ++ pad 2 d).
  { unfold release_date_of. rewrite Hiso.
    replace (pad 4 y ++ "-" ++ pad 2 m ++ "-" ++ pad 2 d ++ "T"
               ++ hh ++ ":" ++ mm ++ ":" ++ ss ++ "." ++ pad 3 (ms mod 1000) ++ "Z")
      with ((pad 4 y ++ "-" ++ pad 2 m ++ "-" ++ pad 2 d)
              ++ String "T" (hh ++ ":" ++ mm ++ ":" ++ ss ++ "." ++ pad 3 (ms mod 1000) ++ "Z"))
      by (rewrite !append_assoc; reflexivity).
    apply first_split. rewrite !chars_append, !in_app_iff.
    intros [H|[H|[H|[H|H]]]].
    - now apply (not_digit_absent 4 _ _ Dy) in H.
    - simpl in H. destruct H as [H|[]]. discriminate H.
    - now apply (not_digit_absent 2 _ _ Dm) in H.
    - simpl in H. destruct H as [H|[]]. discriminate H.
    - now apply (not_digit_absent 2 _ _ Dd) in H. }
  assert (Hstamp : release_timestamp_of t
                   = pad 4 y ++ pad 2 m ++ pad 2 d ++ "-" ++ hh ++ mm ++ ss).
  { unfold release_timestamp_of. rewrite Hiso.
    rewrite !remove_colons_dashes_append.
    rewrite (remove_colons_dashes_digits 4 _ Dy), (remove_colons_dashes_digits 2 _ Dm),
      (remove_colons_dashes_digits 2 _ Dd), (remove_colons_dashes_digits 2 _ Dh),
      (remove_colons_dashes_digits 2 _ Dmi), (remove_colons_dashes_digits 2 _ Ds),
      (remove_colons_dashes_digits 3 _ Dmil).
    change (remove_colons_dashes "-") with "". change (remove_colons_dashes ":") with "".
    change (remove_colons_dashes "T") with "T". change (remove_colons_dashes ".") with ".".
    change (remove_colons_dashes "Z") with "Z".
    rewrite !append_empty_l.
    replace (pad 4 y ++ pad 2 m ++ pad 2 d ++ "T" ++ hh ++ mm ++ ss ++ "."
               ++ pad 3 (ms mod 1000) ++ "Z")
      with ((pad 4 y ++ pad 2 m ++ pad 2 d)
              ++ String "T" (hh ++ mm ++ ss ++ "." ++ pad 3 (ms mod 1000) ++ "Z"))
      by (rewrite !append_assoc; reflexivity).
    rewrite replace_first_append.
    2:{ rewrite !chars_append, !in_app_iff. intros [H|[H|H]].
        - now apply (not_digit_absent 4 _ _ Dy) in H.
        - now apply (not_digit_absent 2 _ _ Dm) in H.
        - now apply (not_digit_absent 2 _ _ Dd) in H. }
    replace ((pad 4 y ++ pad 2 m ++ pad 2 d)
               ++ String "-" (hh ++ mm ++ ss ++ "." ++ pad 3 (ms mod 1000) ++ "Z"))
      with ((pad 4 y ++ pad 2 m ++ pad 2 d ++ "-" ++ hh ++ mm ++ ss)
              ++ String "." (pad 3 (ms mod 1000) ++ "Z"))
      by (rewrite !append_assoc; reflexivity).
    apply first_split. rewrite !chars_append, !in_app_iff.
    intros [H|[H|[H|[H|[H|[H|H]]]]]].
    - now apply (not_digit_absent 4 _ _ Dy) in H.
    - now apply (not_digit_absent 2 _ _ Dm) in H.
    - now apply (not_digit_absent 2 _ _ Dd) in H.
    - simpl in H. destruct H as [H|[]]. discriminate H.
    - now apply (not_digit_absent 2 _ _ Dh) in H.
    - now apply (not_digit_absent 2 _ _ Dmi) in H.
    - now apply (not_digit_absent 2 _ _ Ds) in H. }
  split; [exact Hdate|]. split; [exact Hstamp|].
  split.
  { rewrite Hdate, !length_append, (digits_length _ _ Dy), (digits_length _ _ Dm),
      (digits_length _ _ Dd). reflexivity. }
  split.
  { rewrite Hstamp, !length_append, (digits_length _ _ Dy), (digits_length _ _ Dm),
      (digits_length _ _ Dd), (digits_length _ _ Dh), (digits_length _ _ Dmi),
      (digits_length _ _ Ds). reflexivity. }
  repeat split; assumption.
Qed.

(** X22. When the clock of the run reads a year of four digits,
    [release-date] is the UTC date of that reading as YYYY-MM-DD (ten
    characters) and [release-timestamp] is YYYYMMDD-HHMMSS (fifteen
    characters: eight digits, one hyphen, six digits), with the month in
    1..12 and the day in 1..31. *)
Theorem release_timestamp_format (w : World) (L : Locals) (t : trace) (y m d : Z) :
  run_steps w [] = (Ok L, t) ->
  civil_from_days (now w / 86400000) = (y, m, d) ->
  (0 <= y <= 9999)%Z ->
  let ms := (now w mod 86400000)%Z in
  let hh := pad 2 (ms / 3600000) in
  let mm := pad 2 ((ms / 60000) mod 60) in
  let ss := pad 2 ((ms / 1000) mod 60) in
  output "release-date" t = Some (pad 4 y ++ "-" ++ pad 2 m ++ "-" ++ pad 2 d)
  /\ output "release-timestamp" t
     = Some (pad 4 y ++ pad 2 m ++ pad 2 d ++ "-" ++ hh ++ mm ++ ss)
  /\ (1 <= m <= 12)%Z /\ (1 <= d <= 31)%Z
  /\ digits 4 (pad 4 y) = true /\ digits 2 (pad 2 m) = true
  /\ digits 2 (pad 2 d) = true /\ digits 2 hh = true /\ digits 2 mm = true
  /\ digits 2 ss = true.
Proof.
  intros H Hciv Hy ms hh mm ss. subst hh mm ss ms.
  pose proof (run_steps_detail _ _ _ H) as D.
  pose proof (cd_outputs _ _ _ D) as Hout.
  pose proof (release_strings_format _ _ _ _ Hciv Hy) as R. cbv zeta in R.
  destruct R as [Hdate [Hstamp [_ [_ Hdigits]]]].
  destruct (civil_from_days_bounds _ _ _ _ Hciv) as [Hm Hd].
  split; [unfold output; rewrite Hout, <- Hdate; reflexivity|].
  split; [unfold output; rewrite Hout, <- Hstamp; reflexivity|].
  split; [exact Hm|]. split; [exact Hd|]. exact Hdigits.
Qed.

(** ** The further properties at the scenarios *)

Lemma parse_labels_clean_witness :
  In "ui" (parse_labels " writer , ui ,,")
  /\ "ui" <> "" /\ starts_with_ws "ui" = false /\ ends_with_ws "ui" = false
  /\ ~ In ","%char (chars "ui") /\ trim "ui" = "ui".
Proof.
  assert (H : In "ui" (parse_labels " writer , ui ,,")).
  { vm_compute. right. left. reflexivity. }
  split; [exact H | exact (parse_labels_clean " writer , ui ,," "ui" H)].
Defined.

Lemma parse_labels_join_witness :
  (forall l, In l ["writer"; "ui"] -> clean_label l)
  /\ parse_labels (join "," ["writer"; "ui"]) = ["writer"; "ui"].
Proof.
  assert (H : forall l, In l ["writer"; "ui"] -> clean_label l).
  { intros l [<-|[<-|[]]]; (split; [discriminate|]); (split; [reflexivity|]);
      (split; [reflexivity|]); vm_compute; intuition discriminate. }
  split; [exact H | exact (parse_labels_join ["writer"; "ui"] H)].
Defined.

Lemma generateAISummary_answered_witness :
  map project [Scenario.pr123] <> []
  /\ (forall url body,
        answered (fetch Scenario.world (fetch_count []) url body)
          Scenario.mockGeminiResponse)
  /\ exists s body,
       generateAISummary Scenario.world (map project [Scenario.pr123]) "k" None []
       = (Ok s, [FetchCall (GEMINI_URL ++ "k") body])
       /\ s = ("### Test Summary" ++ nl ++ "- Test feature added").
Proof.
  assert (Hne : map project [Scenario.pr123] <> []) by discriminate.
  assert (Hans : forall url body,
            answered (fetch Scenario.world (fetch_count []) url body)
              Scenario.mockGeminiResponse).
  { intros url body. eexists. split; [reflexivity|]. split; reflexivity. }
  split; [exact Hne|]. split; [exact Hans|].
  destruct (generateAISummary_answered Scenario.world _ "k" None [] _ Hne Hans)
    as [s [body [E [Hsome _]]]].
  exists s, body. split; [exact E|].
  apply Hsome; [|discriminate].
  do 5 eexists. repeat split; reflexivity.
Defined.

Lemma convertToSlackFormat_answered_witness :
  "### Notes" <> NO_CHANGES /\ "### Notes" <> FAILED_AI_SUMMARY
  /\ (forall url body,
        answered (fetch Scenario.world (fetch_count []) url body)
          Scenario.mockGeminiResponse)
  /\ exists s,
       convertToSlackFormat Scenario.world "### Notes" "k" []
       = (Ok s,
          [FetchCall (GEMINI_URL ++ "k")
             (request_body (SLACK_INSTRUCTION ++ nl ++ nl ++ "### Notes"))])
       /\ s = ("### Test Summary" ++ nl ++ "- Test feature added").
Proof.
  assert (H1 : "### Notes" <> NO_CHANGES) by discriminate.
  assert (H2 : "### Notes" <> FAILED_AI_SUMMARY) by discriminate.
  assert (Hans : forall url body,
            answered (fetch Scenario.world (fetch_count []) url body)
              Scenario.mockGeminiResponse).
  { intros url body. eexists. split; [reflexivity|]. split; reflexivity. }
  split; [exact H1|]. split; [exact H2|]. split; [exact Hans|].
  destruct (convertToSlackFormat_answered Scenario.world _ "k" [] _ H1 H2 Hans)
    as [s [E [Hsome _]]].
  exists s. split; [exact E|].
  apply Hsome; [|discriminate].
  do 5 eexists. repeat split; reflexivity.
Defined.

Lemma unreadable_body_is_caught_witness :
  (forall url body,
     unreadable (fetch Failures.unreadable_body (fetch_count []) url body)
       Failures.not_json)
  /\ (exists body,
        generateAISummary Failures.unreadable_body (map project [Scenario.pr123])
          "k" (Some "writer") []
        = (Ok "Failed to generate AI summary",
           [FetchCall (GEMINI_URL ++ "k") body;
            Warning "Failed to generate AI summary for writer: SyntaxError: Unexpected end of JSON input"]))
  /\ (exists body,
        convertToSlackFormat Failures.unreadable_body "### Notes" "k" []
        = (Ok "Failed to generate Slack summary",
           [FetchCall (GEMINI_URL ++ "k") body;
            Warning "Failed to generate Slack summary: SyntaxError: Unexpected end of JSON input"])).
Proof.
  assert (Hbad : forall url body,
            unreadable (fetch Failures.unreadable_body (fetch_count []) url body)
              Failures.not_json).
  { intros url body. eexists. split; [reflexivity|]. split; [reflexivity|].
    left. reflexivity. }
  split; [exact Hbad|].
  destruct (unreadable_body_is_caught Failures.unreadable_body [] _ Hbad) as [Hg Hs].
  split.
  - apply (Hg (map project [Scenario.pr123]) "k" "writer"); discriminate.
  - apply (Hs "### Notes" "k"); discriminate.
Defined.

Lemma group_summary_when_request_fails_witness :
  (forall url body, fetch_failed (fetch Cases.api_error (fetch_count []) url body))
  /\ exists url body message,
       both_stages Cases.api_error (map project [Scenario.pr123]) "k" "writer" []
       = (Ok {| markdown := "Failed to generate AI summary";
                slack := "Failed to generate AI summary" |},
          [FetchCall url body; Warning message]).
Proof.
  assert (Hfail : forall url body,
            fetch_failed (fetch Cases.api_error (fetch_count []) url body)).
  { intros url body. reflexivity. }
  split; [exact Hfail|].
  apply (group_summary_when_request_fails Cases.api_error
           (map project [Scenario.pr123]) "k" "writer" []); [discriminate | exact Hfail].
Defined.

Lemma group_summary_when_answered_witness :
  exists body,
    both_stages Scenario.world (map project [Scenario.pr123]) "k" "writer" []
    = (Ok {| markdown := "### Test Summary" ++ nl ++ "- Test feature added";
             slack := "### Test Summary" ++ nl ++ "- Test feature added" |},
       [FetchCall (GEMINI_URL ++ "k") body;
        FetchCall (GEMINI_URL ++ "k")
          (request_body (SLACK_INSTRUCTION ++ nl ++ nl
                           ++ "### Test Summary" ++ nl ++ "- Test feature added"))]).
Proof.
  destruct (group_summary_when_answered Scenario.world (map project [Scenario.pr123])
              "k" "writer" ("### Test Summary" ++ nl ++ "- Test feature added")
              ("### Test Summary" ++ nl ++ "- Test feature added") [])
    as [body [Hboth _]]; try discriminate; try (intros; reflexivity).
  exists body. apply Hboth; discriminate.
Defined.

Lemma artifact_name_follows_upload_witness :
  exists L t,
    run_steps Failures.upload_error [] = (Ok L, t)
    /\ uploads t = ["changelog-20240121-100000"]
    /\ failures t = []
    /\ output "artifact-name" t = Some ""
    /\ In "Failed to upload artifact: Error: Artifact upload failed" (warnings t).
Proof.
  destruct (run_steps Failures.upload_error []) as [[L|e] t] eqn:E.
  2:{ vm_compute in E. discriminate E. }
  exists L, t. split; [reflexivity|].
  destruct (artifact_name_follows_upload Failures.upload_error L t E)
    as [Hup [Hf [_ [_ Hthrow]]]].
  split; [exact Hup|]. split; [exact Hf|].
  exact (Hthrow (Error "Artifact upload failed") eq_refl).
Defined.

Lemma artifact_metadata_matches_outputs_witness :
  exists L t,
    run_steps Scenario.world [] = (Ok L, t)
    /\ output "release-date" t = Some (releaseDate (metadata (loc_artifactData L)))
    /\ output "total-prs" t
       = Some (string_of_nat (totalPRs (metadata (loc_artifactData L))))
    /\ groupingLabels (metadata (loc_artifactData L)) = ["writer"; "ui"].
Proof.
  destruct (run_steps Scenario.world []) as [[L|e] t] eqn:E.
  2:{ vm_compute in E. discriminate E. }
  exists L, t. split; [reflexivity|].
  destruct (artifact_metadata_matches_outputs Scenario.world L t E)
    as [_ [Hd [_ [Hn [Hl _]]]]].
  split; [exact Hd|]. split; [exact Hn|]. exact Hl.
Defined.

Lemma previous_release_found_witness :
  exists L t,
    run_steps Scenario.world [] = (Ok L, t)
    /\ output "has-previous-release" t = Some "true"
    /\ output "previous-tag" t = Some "v1.0.0"
    /\ output "previous-release-date" t = Some "2024-01-01T10:00:00Z"
    /\ loc_sinceDate L = "2024-01-01T10:00:00Z".
Proof.
  destruct (run_steps Scenario.world []) as [[L|e] t] eqn:E.
  2:{ vm_compute in E. discriminate E. }
  exists L, t. split; [reflexivity|].
  destruct (previous_release_found Scenario.world L t "test-owner" "test-repo"
              {| id := 1; tag_name := "v1.0.0"; created_at := "2024-01-01T10:00:00Z" |}
              E eq_refl eq_refl) as [Hfound _].
  apply Hfound. discriminate.
Defined.

Lemma outputs_set_once_witness :
  exists L t,
    run_steps Scenario.world [] = (Ok L, t)
    /\ map fst (outputs t) = OUTPUT_NAMES
    /\ NoDup (map fst (outputs t)).
Proof.
  destruct (run_steps Scenario.world []) as [[L|e] t] eqn:E.
  2:{ vm_compute in E. discriminate E. }
  exists L, t. split; [reflexivity|].
  destruct (outputs_set_once Scenario.world L t E) as [Hn [Hd _]].
  split; assumption.
Defined.

Lemma nothing_to_report_witness :
  exists L t,
    run_steps Failures.no_pulls [] = (Ok L, t)
    /\ loc_relevantPRs L = []
    /\ output "total-prs" t = Some "0"
    /\ output "has-content" t = Some "false"
    /\ output "label-groups" t = Some ""
    /\ output "grouped-summaries" t = Some "{}"
    /\ groups (loc_artifactData L) = []
    /\ fetch_count t = 0%nat.
Proof.
  destruct (run_steps Failures.no_pulls []) as [[L|e] t] eqn:E.
  2:{ vm_compute in E. discriminate E. }
  exists L, t. split; [reflexivity|].
  assert (Hnone : loc_relevantPRs L = []).
  { vm_compute in E. injection E as <- _. reflexivity. }
  split; [exact Hnone|].
  exact (nothing_to_report Failures.no_pulls L t E Hnone).
Defined.

Lemma filtered_pr_is_grouped_witness :
  exists L t,
    run_steps Scenario.world [] = (Ok L, t)
    /\ (forall p, In p (loc_relevantPRs L) ->
          exists g, In g (groups (loc_artifactData L)) /\ In p (prs g))
    /\ output "has-content" t = Some "true".
Proof.
  destruct (run_steps Scenario.world []) as [[L|e] t] eqn:E.
  2:{ vm_compute in E. discriminate E. }
  exists L, t. split; [reflexivity|].
  destruct (filtered_pr_is_grouped Scenario.world L t E) as [Hg [_ Hc]].
  split; [exact Hg|].
  apply Hc. vm_compute in E. injection E as <- _. discriminate.
Defined.

Lemma label_groups_split_back_witness :
  exists L t,
    run_steps Scenario.world [] = (Ok L, t)
    /\ output "label-groups" t
       = Some (join "," (map name (groups (loc_artifactData L))))
    /\ NoDup (map name (groups (loc_artifactData L)))
    /\ split "," (join "," (map name (groups (loc_artifactData L))))
       = map name (groups (loc_artifactData L)).
Proof.
  destruct (run_steps Scenario.world []) as [[L|e] t] eqn:E.
  2:{ vm_compute in E. discriminate E. }
  exists L, t. split; [reflexivity|].
  destruct (label_groups_split_back Scenario.world L t E) as [Ho [Hd [_ [Hs _]]]].
  split; [exact Ho|]. split; [exact Hd|].
  apply Hs. vm_compute in E. injection E as <- _. discriminate.
Defined.

Lemma run_failure_points_witness :
  exists e t,
    run_steps Failures.listing_error [] = (Throw e, t)
    /\ failures (run Failures.listing_error) = [failure_message e]
    /\ uploads (run Failures.listing_error) = [].
Proof.
  destruct (run_steps Failures.listing_error []) as [[L|e] t] eqn:E.
  1:{ vm_compute in E. discriminate E. }
  exists e, t. split; [reflexivity|].
  destruct (run_failure_points Failures.listing_error e t E) as [_ [Hf [Hu _]]].
  split; assumption.
Defined.

Lemma run_completes_witness :
  valid_inputs Scenario.world
  /\ exists L,
       run_steps Scenario.world [] = (Ok L, run Scenario.world)
       /\ failures (run Scenario.world) = []
       /\ map fst (outputs (run Scenario.world)) = OUTPUT_NAMES
       /\ loc_allPRs L = Scenario.mockPRs.
Proof.
  assert (Hvalid : valid_inputs Scenario.world).
  { split; [discriminate|]. split; [discriminate|]. split; discriminate. }
  split; [exact Hvalid|].
  exact (run_completes Scenario.world "test-owner" "test-repo" Scenario.mockPRs
           Hvalid eq_refl eq_refl eq_refl (fun _ => eq_refl)).
Defined.

Lemma listing_failure_fails_run_witness :
  valid_inputs Failures.listing_error
  /\ failures (run Failures.listing_error) = ["Bad credentials"]
  /\ map fst (outputs (run Failures.listing_error)) = firstn 5 OUTPUT_NAMES
  /\ fetch_count (run Failures.listing_error) = 0%nat
  /\ files_written (run Failures.listing_error) = []
  /\ uploads (run Failures.listing_error) = [].
Proof.
  assert (Hvalid : valid_inputs Failures.listing_error).
  { split; [discriminate|]. split; [discriminate|]. split; discriminate. }
  split; [exact Hvalid|].
  exact (listing_failure_fails_run Failures.listing_error "test-owner" "test-repo"
           (Error "Bad credentials") Hvalid eq_refl eq_refl).
Defined.

Lemma mkdir_failure_fails_run_witness :
  valid_inputs Failures.mkdir_error
  /\ failures (run Failures.mkdir_error) = ["EACCES: permission denied, mkdir"]
  /\ map fst (outputs (run Failures.mkdir_error)) = firstn 9 OUTPUT_NAMES
  /\ output "artifact-name" (run Failures.mkdir_error) = None
  /\ files_written (run Failures.mkdir_error) = []
  /\ uploads (run Failures.mkdir_error) = [].
Proof.
  assert (Hvalid : valid_inputs Failures.mkdir_error).
  { split; [discriminate|]. split; [discriminate|]. split; discriminate. }
  split; [exact Hvalid|].
  exact (mkdir_failure_fails_run Failures.mkdir_error "test-owner" "test-repo"
           Scenario.mockPRs (Error "EACCES: permission denied, mkdir")
           Hvalid eq_refl eq_refl eq_refl).
Defined.

Lemma filter_monotone_witness :
  ("2024-01-01T10:00:00Z" <=? "2024-01-15T12:00:00Z")%string = true
  /\ incl ["ui"] ["writer"; "ui"]
  /\ (forall p,
        In p (relevant "2024-01-15T12:00:00Z" ["ui"] true Scenario.mockPRs) ->
        In p (relevant "2024-01-01T10:00:00Z" ["writer"; "ui"] false Scenario.mockPRs))
  /\ (List.length (relevant "2024-01-15T12:00:00Z" ["ui"] true Scenario.mockPRs)
      <= List.length (relevant "2024-01-01T10:00:00Z" ["writer"; "ui"] false
                        Scenario.mockPRs))%nat.
Proof.
  assert (Hs : ("2024-01-01T10:00:00Z" <=? "2024-01-15T12:00:00Z")%string = true)
    by reflexivity.
  assert (Hgl : incl ["ui"] ["writer"; "ui"]).
  { intros l [<-|[]]. right. left. reflexivity. }
  split; [exact Hs|]. split; [exact Hgl|].
  destruct (filter_monotone "2024-01-01T10:00:00Z" "2024-01-15T12:00:00Z"
              ["writer"; "ui"] ["ui"] false true Scenario.mockPRs Hs Hgl
              (fun _ => eq_refl)) as [Hin [Hlen _]].
  split; assumption.
Defined.

Lemma filter_reads_labels_as_set_witness :
  (forall l, In l ["writer"; "ui"] <-> In l ["ui"; "writer"; "ui"])
  /\ relevant "2024-01-01T10:00:00Z" ["writer"; "ui"] false Scenario.mockPRs
     = relevant "2024-01-01T10:00:00Z" ["ui"; "writer"; "ui"] false Scenario.mockPRs.
Proof.
  assert (H : forall l, In l ["writer"; "ui"] <-> In l ["ui"; "writer"; "ui"]).
  { intros l. simpl. tauto. }
  split; [exact H|].
  exact (filter_reads_labels_as_set "2024-01-01T10:00:00Z" ["writer"; "ui"]
           ["ui"; "writer"; "ui"] false Scenario.mockPRs H).
Defined.

Lemma release_timestamp_format_witness :
  exists L t,
    run_steps Scenario.world [] = (Ok L, t)
    /\ civil_from_days (now Scenario.world / 86400000) = (2024, 1, 21)%Z
    /\ output "release-date" t = Some "2024-01-21"
    /\ output "release-timestamp" t = Some "20240121-100000".
Proof.
  destruct (run_steps Scenario.world []) as [[L|e] t] eqn:E.
  2:{ vm_compute in E. discriminate E. }
  exists L, t. split; [reflexivity|]. split; [reflexivity|].
  destruct (release_timestamp_format Scenario.world L t 2024 1 21 E eq_refl
              ltac:(lia)) as [Hd [Hs _]].
  split; [exact Hd | exact Hs].
Defined.

Lemma buckets_are_filters_witness :
  (forall p, In p (map project [Scenario.pr123; Scenario.pr124]) -> NoDup (labels p))
  /\ groupPRsByLabels (map project [Scenario.pr123; Scenario.pr124])
       ["writer"; "ui"; "writer"]
     = [("writer", [project Scenario.pr123]); ("ui", [project Scenario.pr124])].
Proof.
  assert (H : forall p, In p (map project [Scenario.pr123; Scenario.pr124]) ->
                NoDup (labels p)).
  { intros p [<-|[<-|[]]]; repeat (constructor; [simpl; intuition discriminate|]);
      constructor. }
  split; [exact H|].
  exact (buckets_are_filters (map project [Scenario.pr123; Scenario.pr124])
           ["writer"; "ui"; "writer"] H).
Defined.

(** ** The filter and the order in time *)

Lemma compare_append_same_length (a b r1 r2 : string) :
  String.length a = String.length b ->
  (a ++ r1 ?= b ++ r2)%string
  = match (a ?= b)%string with
    | Eq => (r1 ?= r2)%string
    | c => c
    end.
Proof.
  revert b. induction a as [|x a IH]; intros [|y b] H; try discriminate H.
  - reflexivity.
  - simpl. destruct (Ascii.compare x y); [|reflexivity..].
    apply IH. now injection H.
Qed.

Lemma comparison_eqb_eq (a b : comparison) : comparison_eqb a b = true -> a = b.
Proof. destruct a, b; simpl; congruence. Qed.

Lemma pad2_compare (x y : Z) :
  (0 <= x < 100)%Z -> (0 <= y < 100)%Z ->
  (pad 2 x ?= pad 2 y)%string = (x ?= y)%Z.
Proof.
  intros Hx Hy. apply comparison_eqb_eq.
  revert y Hy.
  apply (all_from_spec 100 0
           (fun y => comparison_eqb (pad 2 x ?= pad 2 y)%string (x ?= y)%Z)).
  revert x Hx.
  apply (all_from_spec 100 0
           (fun x => all_from 100 0
              (fun y => comparison_eqb (pad 2 x ?= pad 2 y)%string (x ?= y)%Z))).
  vm_compute. reflexivity.
Qed.

Lemma pad4_split (y : Z) :
  (0 <= y < 10000)%Z -> pad 4 y = pad 2 (y / 100) ++ pad 2 (y mod 100).
Proof.
  intros H. apply String.eqb_eq. revert y H.
  apply (all_from_spec 10000 0
           (fun y => (pad 4 y =? pad 2 (y / 100) ++ pad 2 (y mod 100))%string)).
  vm_compute. reflexivity.
Qed.

Lemma pad4_compare (x y : Z) :
  (0 <= x < 10000)%Z -> (0 <= y < 10000)%Z ->
  (pad 4 x ?= pad 4 y)%string = (x ?= y)%Z.
Proof.
  intros Hx Hy. rewrite (pad4_split x Hx), (pad4_split y Hy).
  assert (Hxq : (0 <= x / 100 < 100)%Z) by (Z.div_mod_to_equations; lia).
  assert (Hyq : (0 <= y / 100 < 100)%Z) by (Z.div_mod_to_equations; lia).
  assert (Hxr : (0 <= x mod 100 < 100)%Z) by (Z.div_mod_to_equations; lia).
  assert (Hyr : (0 <= y mod 100 < 100)%Z) by (Z.div_mod_to_equations; lia).
  rewrite compare_append_same_length
    by (rewrite (digits_length _ _ (pad2_digits _ Hxq)),
          (digits_length _ _ (pad2_digits _ Hyq)); reflexivity).
  rewrite !pad2_compare by assumption.
  destruct (Z.compare_spec (x / 100) (y / 100)) as [E|E|E];
    destruct (Z.compare_spec (x mod 100) (y mod 100)) as [E'|E'|E'];
    destruct (Z.compare_spec x y) as [E''|E''|E'']; try reflexivity; exfalso;
    Z.div_mod_to_equations; lia.
Qed.

(** Two API texts compare as their timestamps do. *)
Lemma api_text_compare (a b : Stamp) :
  whole_second a -> whole_second b ->
  (api_text a ?= api_text b)%string = lex_compare (fields a) (fields b).
Proof.
  intros [Hy [Hmo [Hd [Hh [Hmi [Hs Hms]]]]]] [Hy' [Hmo' [Hd' [Hh' [Hmi' [Hs' Hms']]]]]].
  unfold api_text, fields. cbn [lex_compare]. rewrite Hms, Hms'.
  assert (L2 : forall x y, (0 <= x < 100)%Z -> (0 <= y < 100)%Z ->
                 String.length (pad 2 x) = String.length (pad 2 y)).
  { intros x y Hx Hx'.
    now rewrite (digits_length _ _ (pad2_digits _ Hx)),
      (digits_length _ _ (pad2_digits _ Hx')). }
  assert (Ya : (0 <= st_year a < 10000)%Z) by lia.
  assert (Yb : (0 <= st_year b < 10000)%Z) by lia.
  rewrite compare_append_same_length
    by (rewrite (digits_length _ _ (pad4_digits _ Ya)),
          (digits_length _ _ (pad4_digits _ Yb)); reflexivity).
  rewrite pad4_compare by assumption.
  destruct (st_year a ?= st_year b)%Z; [|reflexivity..].
  cbn [append String.compare Ascii.compare].
  rewrite compare_append_same_length by (apply L2; lia).
  rewrite pad2_compare by lia.
  destruct (st_month a ?= st_month b)%Z; [|reflexivity..].
  cbn [append String.compare Ascii.compare].
  rewrite compare_append_same_length by (apply L2; lia).
  rewrite pad2_compare by lia.
  destruct (st_day a ?= st_day b)%Z; [|reflexivity..].
  cbn [append String.compare Ascii.compare].
  rewrite compare_append_same_length by (apply L2; lia).
  rewrite pad2_compare by lia.
  destruct (st_hour a ?= st_hour b)%Z; [|reflexivity..].
  cbn [append String.compare Ascii.compare].
  rewrite compare_append_same_length by (apply L2; lia).
  rewrite pad2_compare by lia.
  destruct (st_minute a ?= st_minute b)%Z; [|reflexivity..].
  cbn [append String.compare Ascii.compare].
  rewrite compare_append_same_length by (apply L2; lia).
  rewrite pad2_compare by lia.
  destruct (st_second a ?= st_second b)%Z; reflexivity.
Qed.

Lemma api_text_ltb (a b : Stamp) :
  whole_second a -> whole_second b ->
  ((api_text a <? api_text b)%string = true <-> earlier a b).
Proof.
  intros Ha Hb. unfold String.ltb, earlier.
  rewrite (api_text_compare a b Ha Hb).
  destruct (lex_compare (fields a) (fields b)); split; congruence.
Qed.

Lemma api_text_nonempty (a : Stamp) : api_text a <> "".
Proof.
  unfold api_text. destruct (pad 4 (st_year a)); discriminate.
Qed.

(** C1, counterexample.  Without a previous release the cutoff is printed
    with milliseconds.  For a clock reading of 2024-01-21T10:00:00.999Z it is
    2024-01-14T10:00:00.999Z; a pull request merged at 2024-01-14T10:00:00Z,
    999 ms before the cutoff, passes the filter and is counted, though its
    merge timestamp is not later than the cutoff. *)
Lemma merge_before_cutoff_is_kept :
  exists L t,
    run_steps Fallback.world [] = (Ok L, t)
    /\ loc_sinceDate L = "2024-01-14T10:00:00.999Z"
    /\ loc_relevantPRs L = [project Fallback.early]
    /\ output "total-prs" t = Some "1"
    /\ is_relevant (loc_sinceDate L) (loc_groupingLabels L)
         (loc_requireFeatureLabel L) Fallback.early = true
    /\ (exists c m,
          parse_stamp (loc_sinceDate L) = Some c
          /\ raw_merged_at Fallback.early = Some (api_text m)
          /\ parse_stamp (api_text m) = Some m
          /\ earlier m c)
    /\ ~ claimed_relevant (loc_sinceDate L) (loc_groupingLabels L)
           (loc_requireFeatureLabel L) Fallback.early.
Proof.
  eexists. eexists. split; [vm_compute; reflexivity|].
  split; [vm_compute; reflexivity|].
  split; [vm_compute; reflexivity|].
  split; [vm_compute; reflexivity|].
  split; [vm_compute; reflexivity|].
  split.
  - exists {| st_year := 2024; st_month := 1; st_day := 14; st_hour := 10;
              st_minute := 0; st_second := 0; st_millisecond := 999 |},
           {| st_year := 2024; st_month := 1; st_day := 14; st_hour := 10;
              st_minute := 0; st_second := 0; st_millisecond := 0 |}.
    repeat split; vm_compute; reflexivity.
  - intros [[merged [Hm [_ [c [m [Hc [Hp Hlt]]]]]]] _].
    vm_compute in Hm. injection Hm as <-.
    vm_compute in Hc. injection Hc as <-.
    vm_compute in Hp. injection Hp as <-.
    vm_compute in Hlt. discriminate Hlt.
Qed.

(** C1, amended.  A fetched pull request is in the filtered result iff its
    merge timestamp is present, non-empty and strictly greater than the
    cutoff in the order of the two texts, compared code unit by code unit,
    its labels intersect the grouping labels and, when the feature label is
    required, they contain [feature]; the result keeps the projections of the
    survivors.  When the cutoff and the merge timestamp are both texts of
    whole seconds as the hosting API prints them, which is so for the cutoff
    taken from a previous release, the order of the texts is the order in
    time. *)
Theorem relevant_iff (sinceDate : string) (groupingLabels : list string)
    (requireFeatureLabel : bool) (allPRs : list RawPR) :
  (forall pr,
     In pr (filter (is_relevant sinceDate groupingLabels requireFeatureLabel) allPRs)
     <-> In pr allPRs
         /\ (exists merged,
               raw_merged_at pr = Some merged /\ merged <> ""
               /\ (sinceDate <? merged)%string = true)
         /\ (exists l, In l (label_names pr) /\ In l groupingLabels)
         /\ (requireFeatureLabel = true -> In "feature" (label_names pr)))
  /\ (forall p,
        In p (relevant sinceDate groupingLabels requireFeatureLabel allPRs)
        <-> exists pr,
              p = project pr /\ In pr allPRs
              /\ (exists merged,
                    raw_merged_at pr = Some merged /\ merged <> ""
                    /\ (sinceDate <? merged)%string = true)
              /\ (exists l, In l (label_names pr) /\ In l groupingLabels)
              /\ (requireFeatureLabel = true -> In "feature" (label_names pr)))
  /\ (forall pr c m,
        whole_second c -> whole_second m ->
        sinceDate = api_text c -> raw_merged_at pr = Some (api_text m) ->
        (In pr (filter (is_relevant sinceDate groupingLabels requireFeatureLabel)
                  allPRs)
         <-> In pr allPRs
             /\ earlier c m
             /\ (exists l, In l (label_names pr) /\ In l groupingLabels)
             /\ (requireFeatureLabel = true -> In "feature" (label_names pr)))).
Proof.
  split; [|split].
  - intros pr. now rewrite filter_In, is_relevant_spec.
  - intros p. unfold relevant. rewrite in_map_iff. split.
    + intros [pr [Hp Hin]]. exists pr. apply filter_In in Hin.
      destruct Hin as [Hin Hrel]. apply is_relevant_spec in Hrel.
      split; [now symmetry|]. split; assumption.
    + intros [pr [Hp [Hin Hrel]]]. exists pr. split; [now symmetry|].
      apply filter_In. split; [assumption|]. now apply is_relevant_spec.
  - intros pr c m Hc Hm -> Hmerged.
    rewrite filter_In, is_relevant_spec. split.
    + intros [Hin [[merged [E [_ Hlt]]] [Hl Hf]]].
      rewrite Hmerged in E. injection E as <-.
      split; [assumption|]. split; [now apply api_text_ltb|]. split; assumption.
    + intros [Hin [Hlt [Hl Hf]]]. split; [assumption|]. split; [|split; assumption].
      exists (api_text m). split; [assumption|].
      split; [apply api_text_nonempty | now apply api_text_ltb].
Qed.

(** The filter on the pull requests of the test suite, with the feature
    label required: #123, merged two weeks after the release, passes; #100
    predates the release. *)
Lemma relevant_iff_witness :
  In Scenario.pr123
    (filter (is_relevant "2024-01-01T10:00:00Z" ["writer"; "ui"] true) Scenario.mockPRs)
  /\ ~ In (project Scenario.pr100)
         (relevant "2024-01-01T10:00:00Z" ["writer"; "ui"] true Scenario.mockPRs)
  /\ earlier
       {| st_year := 2024; st_month := 1; st_day := 1; st_hour := 10;
          st_minute := 0; st_second := 0; st_millisecond := 0 |}
       {| st_year := 2024; st_month := 1; st_day := 15; st_hour := 10;
          st_minute := 0; st_second := 0; st_millisecond := 0 |}.
Proof.
  destruct (relevant_iff "2024-01-01T10:00:00Z" ["writer"; "ui"] true Scenario.mockPRs)
    as [Hraw [Hproj Htime]].
  assert (Hin : In Scenario.pr123
                  (filter (is_relevant "2024-01-01T10:00:00Z" ["writer"; "ui"] true)
                     Scenario.mockPRs)).
  { apply Hraw. split; [now left|]. split; [|split].
    + exists "2024-01-15T10:00:00Z". repeat split. discriminate.
    + exists "writer". split; now left.
    + intros _. right. now left. }
  split; [exact Hin|]. split.
  - intros Hp. apply Hproj in Hp.
    destruct Hp as [pr [Hpr [Hp [[m [Hm [_ Hlt]]] _]]]].
    destruct Hp as [<-|[<-|[<-|[]]]]; try discriminate Hpr.
    injection Hm as <-. discriminate Hlt.
  - apply (Htime Scenario.pr123
             {| st_year := 2024; st_month := 1; st_day := 1; st_hour := 10;
                st_minute := 0; st_second := 0; st_millisecond := 0 |}
             {| st_year := 2024; st_month := 1; st_day := 15; st_hour := 10;
                st_minute := 0; st_second := 0; st_millisecond := 0 |}) in Hin;
      [tauto | | | reflexivity | reflexivity];
      unfold whole_second; cbn; lia.
Defined.
